(** * A shallow embedding of [editor.py] (Python 3 code editor on PyQt6)

    The development follows the source file top to bottom:
    - [Py]: the Python string primitives the code calls ([len], [str.find]);
    - [Utf16]: the text as Qt has it, a [QString] of UTF-16 code units;
    - [Gutter]: [CodeEditor.lineNumberAreaWidth];
    - [LineNumberArea]: [CodeEditor.lineNumberAreaPaintEvent];
    - [Regex]: the fragment of [QRegularExpression] used by the highlighting
      rules, with [globalMatch];
    - [Highlighter]: [PythonSyntaxHighlighter] ([__init__], [highlightBlock])
      over the per-block state that [QSyntaxHighlighter] keeps;
    - [Utf8] and [TextIO]: Python's text-mode file objects with
      [encoding='utf-8'];
    - [App]: [PythonCodeEditor] (file operations, font stepping, running the
      interpreter) as explicit state passing, and its event step relation;
    - [ProcessOutput]: the two output slots, from the bytes of the
      interpreter on.

    Python integers are [Z]; a Python [str] is the list of its code points.
    Python counts in code points ([len], [str.find]); Qt counts in UTF-16
    code units ([QRegularExpression], [QSyntaxHighlighter.setFormat]): the
    two agree on a text without characters above U+FFFF only. *)

From Stdlib Require Import ZArith List Bool Lia String Ascii.
From Stdlib Require Import Sorted.
From Equations Require Import Equations.
Import ListNotations.
Open Scope Z_scope.

(* ===================================================================== *)
(** ** Python strings *)
(* ===================================================================== *)

Module Py.

(** A [str] is a sequence of Unicode code points. *)
Definition str := list Z.

Definition len (s : str) : Z := Z.of_nat (List.length s).

(** Code points of a literal. *)
Definition of_string (s : string) : str :=
  map (fun a => Z.of_N (N_of_ascii a)) (list_ascii_of_string s).

(** [startswith t sub]: [sub] is a prefix of [t]. *)
Fixpoint startswith (t sub : str) : bool :=
  match sub, t with
  | [], _ => true
  | _ :: _, [] => false
  | c :: sub', d :: t' => (c =? d) && startswith t' sub'
  end.

(** Scan [t], whose first character has absolute index [i], for the first
    place where [sub] starts; [-1] when there is none. *)
Fixpoint find_from (t sub : str) (i : Z) : Z :=
  if startswith t sub then i
  else match t with
       | [] => -1
       | _ :: t' => find_from t' sub (i + 1)
       end.

(** [text.find(sub, start)]: the lowest index [>= start] at which [sub]
    occurs in [text], or [-1].  A negative [start] counts from the end, as
    for slices. *)
Definition find (text sub : str) (start : Z) : Z :=
  let s := if start <? 0 then Z.max 0 (start + len text) else start in
  if len text <? s then -1
  else find_from (skipn (Z.to_nat s) text) sub s.

(** [sub] occurs in [text] at index [i]. *)
Definition occurs_at (text sub : str) (i : Z) : Prop :=
  0 <= i <= len text /\ startswith (skipn (Z.to_nat i) text) sub = true.

End Py.

Import Py.

(** The two triple-quote delimiters, ['''] and the triple double quote. *)
Definition squote : Z := 39.
Definition dquote : Z := 34.
Definition triple_single : str := [squote; squote; squote].
Definition triple_double : str := [dquote; dquote; dquote].

(* ===================================================================== *)
(** ** Qt strings: UTF-16 code units *)
(* ===================================================================== *)

Module Utf16.

(** The code units of one code point: a character above U+FFFF is written
    as a surrogate pair, every other one as itself. *)
Definition units_of (c : Z) : list Z :=
  if c <? 0x10000 then [c]
  else [0xD800 + (c - 0x10000) / 0x400; 0xDC00 + (c - 0x10000) mod 0x400].

(** The [QString] that PyQt makes of a Python [str]: what a block of the
    document holds when [highlightBlock] is given [s], and the subject of
    [pattern.globalMatch(s)]. *)
Definition units (s : str) : list Z := flat_map units_of s.

Definition is_high (u : Z) : bool := (0xD800 <=? u) && (u <=? 0xDBFF).
Definition is_low (u : Z) : bool := (0xDC00 <=? u) && (u <=? 0xDFFF).

(** Well-formed UTF-16: every surrogate is one half of a pair. *)
Fixpoint well_formed (u : list Z) : bool :=
  match u with
  | [] => true
  | a :: rest =>
      if is_high a then
        match rest with
        | b :: rest' => is_low b && well_formed rest'
        | [] => false
        end
      else if is_low a then false
      else well_formed rest
  end.

(** A character of the Basic Multilingual Plane takes one code unit. *)
Definition bmp (c : Z) : bool := c <? 0x10000.

End Utf16.

(* ===================================================================== *)
(** ** The line-number gutter: [CodeEditor.lineNumberAreaWidth] *)
(* ===================================================================== *)

Module Gutter.

(** The loop [while count >= 10: count //= 10; digits += 1]. *)
Equations? count_digits (count digits : Z) : Z by wf (Z.to_nat count) lt :=
  count_digits count digits with Z_ge_lt_dec count 10 => {
    | left _ => count_digits (count / 10) (digits + 1);
    | right _ => digits }.
Proof.
  assert (count / 10 < count) by (apply Z.div_lt; lia).
  assert (0 <= count / 10) by (apply Z.div_pos; lia).
  lia.
Qed.

(** [lineNumberAreaWidth], as a function of [self.blockCount()] and of
    [self.fontMetrics().horizontalAdvance('9')]. *)
Definition lineNumberAreaWidth (blockCount horizontalAdvance9 : Z) : Z :=
  let digits := 1 in
  let count := Z.max 1 blockCount in
  let digits := count_digits count digits in
  let space := 10 + horizontalAdvance9 * digits in
  space.

(** The fixed padding of the gutter. *)
Definition padding : Z := 10.

(** [d] is the number of decimal digits of [n]. *)
Definition decimal_digits (n d : Z) : Prop :=
  1 <= d /\ 10 ^ (d - 1) <= n < 10 ^ d.

End Gutter.

(* ===================================================================== *)
(** ** Regular expressions: the fragment of [QRegularExpression] in use *)
(* ===================================================================== *)

Module Regex.

(** Abstract syntax of the patterns of [PythonSyntaxHighlighter.__init__]. *)
Inductive regex : Type :=
| Lit (s : str)                 (* a literal word *)
| Chr (c : Z)                   (* one literal character *)
| Dot                           (* [.]: any character but a newline *)
| Class (p : Z -> bool)         (* a character class *)
| WordBoundary                  (* [\b] *)
| Cat (r1 r2 : regex)
| Star (r : regex)              (* greedy [r*] *)
| LazyStar (r : regex)          (* [r*?] *)
| Plus (r : regex)              (* greedy [r+] *)
| Opt (r : regex)               (* greedy [r?] *)
| Ahead (r : regex)             (* [(?=r)] *)
| Behind (width : nat) (r : regex). (* [(?<=r)], [r] of fixed width *)

Definition in_range (lo hi c : Z) : bool := (lo <=? c) && (c <=? hi).

(** [[0-9]], [[A-Za-z0-9_]] (also [\w]) and [\s]. *)
Definition digit (c : Z) : bool := in_range 48 57 c.
Definition word_char (c : Z) : bool :=
  in_range 65 90 c || in_range 97 122 c || in_range 48 57 c || (c =? 95).
Definition space (c : Z) : bool := in_range 9 13 c || (c =? 32).
Definition not_newline (c : Z) : bool := negb (c =? 10).

Section Matcher.

Variable text : str.

Definition word_at (i : nat) : bool :=
  match nth_error text i with Some c => word_char c | None => false end.

(** [\b] holds at [i] when exactly one of the characters around [i] is a
    word character. *)
Definition at_word_boundary (i : nat) : bool :=
  xorb (match i with O => false | S j => word_at j end) (word_at i).

Definition one_char (p : Z -> bool) (i : nat) (k : nat -> option nat)
  : option nat :=
  match nth_error text i with
  | Some c => if p c then k (S i) else None
  | None => None
  end.

Definition or_else (a b : option nat) : option nat :=
  match a with Some e => Some e | None => b end.

(** Iteration of a sub-matcher [m]; [n] bounds the number of rounds, and a
    round that consumes nothing ends the iteration. *)
Fixpoint repeat_match (greedy : bool)
    (m : nat -> (nat -> option nat) -> option nat)
    (k : nat -> option nat) (n : nat) (i : nat) : option nat :=
  match n with
  | O => k i
  | S n' =>
      let again := m i (fun j => if (i <? j)%nat
                                 then repeat_match greedy m k n' j
                                 else k j) in
      if greedy then or_else again (k i) else or_else (k i) again
  end.

(** Backtracking matcher: [rmatch r i k] matches [r] at offset [i] and hands
    the offset reached to the continuation [k]; alternatives are tried in
    the engine's order (greedy: longest first; lazy: shortest first). *)
Fixpoint rmatch (r : regex) (i : nat) (k : nat -> option nat)
  : option nat :=
  match r with
  | Lit s => if startswith (skipn i text) s then k (i + List.length s)%nat
             else None
  | Chr c => one_char (Z.eqb c) i k
  | Dot => one_char not_newline i k
  | Class p => one_char p i k
  | WordBoundary => if at_word_boundary i then k i else None
  | Cat r1 r2 => rmatch r1 i (fun j => rmatch r2 j k)
  | Star r1 => repeat_match true (rmatch r1) k (S (List.length text)) i
  | LazyStar r1 => repeat_match false (rmatch r1) k (S (List.length text)) i
  | Plus r1 =>
      rmatch r1 i (repeat_match true (rmatch r1) k (S (List.length text)))
  | Opt r1 => or_else (rmatch r1 i k) (k i)
  | Ahead r1 =>
      match rmatch r1 i (fun j => Some j) with
      | Some _ => k i
      | None => None
      end
  | Behind w r1 =>
      if (w <=? i)%nat then
        match rmatch r1 (i - w) (fun j => if (j =? i)%nat then Some j
                                          else None) with
        | Some _ => k i
        | None => None
        end
      else None
  end.

(** A match starting exactly at [i]: the offset where it ends. *)
Definition match_at (r : regex) (i : nat) : option nat :=
  rmatch r i (fun j => Some j).

(** The leftmost match starting at or after [i]. *)
Fixpoint search (r : regex) (n : nat) (i : nat) : option (nat * nat) :=
  match n with
  | O => None
  | S n' =>
      if (List.length text <? i)%nat then None
      else match match_at r i with
           | Some e => Some (i, e)
           | None => search r n' (S i)
           end
  end.

(** [globalMatch] on the subject [text]: the successive non-overlapping
    matches, each as [(capturedStart, capturedLength)].  The subject is a
    sequence of UTF-16 code units and the offsets count code units.  (The
    engine matches a surrogate pair as one character; for the patterns of
    this program that makes no difference, none of them can match one
    half of a pair without the other.) *)
Fixpoint globalMatch_from (r : regex) (n : nat) (pos : nat)
  : list (Z * Z) :=
  match n with
  | O => []
  | S n' =>
      match search r (S (S (List.length text))) pos with
      | None => []
      | Some (s, e) =>
          (Z.of_nat s, Z.of_nat (e - s))
            :: globalMatch_from r n' (if (s <? e)%nat then e else S e)
      end
  end.

Definition globalMatch (r : regex) : list (Z * Z) :=
  globalMatch_from r (S (S (List.length text))) 0.

End Matcher.

End Regex.

(* ===================================================================== *)
(** ** The syntax highlighter: [PythonSyntaxHighlighter] *)
(* ===================================================================== *)

Module Highlighter.

Import Regex.

(** A [QTextCharFormat], as far as the highlighter sets it: foreground
    colour, bold weight, italic. *)
Record QTextCharFormat : Type := mkFormat {
  foreground : string;
  fontBold : bool;
  fontItalic : bool
}.

(** [QTextCharFormat()], the format of unstyled text. *)
Definition default_format : QTextCharFormat := mkFormat "" false false.

Definition keyword_format : QTextCharFormat := mkFormat "#569CD6" true false.
Definition builtin_format : QTextCharFormat := mkFormat "#4EC9B0" false false.
Definition self_format : QTextCharFormat := mkFormat "#9CDCFE" false true.
Definition string_format : QTextCharFormat := mkFormat "#CE9178" false false.
Definition comment_format : QTextCharFormat := mkFormat "#6A9955" false true.
Definition number_format : QTextCharFormat := mkFormat "#B5CEA8" false false.
Definition function_format : QTextCharFormat := mkFormat "#DCDCAA" false false.

Definition keywords : list string :=
  [ "and"; "as"; "assert"; "break"; "class"; "continue"; "def";
    "del"; "elif"; "else"; "except"; "False"; "finally"; "for";
    "from"; "global"; "if"; "import"; "in"; "is"; "lambda";
    "None"; "nonlocal"; "not"; "or"; "pass"; "raise"; "return";
    "True"; "try"; "while"; "with"; "yield" ]%string.

Definition builtins : list string :=
  [ "abs"; "all"; "any"; "ascii"; "bin"; "bool"; "bytearray";
    "bytes"; "callable"; "chr"; "classmethod"; "compile"; "complex";
    "delattr"; "dict"; "dir"; "divmod"; "enumerate"; "eval"; "exec";
    "filter"; "float"; "format"; "frozenset"; "getattr"; "globals";
    "hasattr"; "hash"; "help"; "hex"; "id"; "input"; "int"; "isinstance";
    "issubclass"; "iter"; "len"; "list"; "locals"; "map"; "max";
    "memoryview"; "min"; "next"; "object"; "oct"; "open"; "ord"; "pow";
    "print"; "property"; "range"; "repr"; "reversed"; "round"; "set";
    "setattr"; "slice"; "sorted"; "staticmethod"; "str"; "sum"; "super";
    "tuple"; "type"; "vars"; "zip" ]%string.

(** The pattern [\bw\b]. *)
Definition word_pattern (w : string) : regex :=
  Cat WordBoundary (Cat (Lit (of_string w)) WordBoundary).

(** The double-quoted and single-quoted string patterns, [q.*?q]. *)
Definition quoted_pattern (q : Z) : regex :=
  Cat (Chr q) (Cat (LazyStar Dot) (Chr q)).

(** [#[^\n]*] *)
Definition comment_pattern : regex :=
  Cat (Chr 35) (Star (Class not_newline)).

(** [\b[0-9]+\.?[0-9]*\b] *)
Definition number_pattern : regex :=
  Cat WordBoundary
    (Cat (Plus (Class digit))
       (Cat (Opt (Chr 46)) (Cat (Star (Class digit)) WordBoundary))).

(** [\b[A-Za-z0-9_]+(?=\()]: a name followed by an opening parenthesis. *)
Definition call_pattern : regex :=
  Cat WordBoundary (Cat (Plus (Class word_char)) (Ahead (Chr 40))).

(** [(?<=class\s)[A-Za-z0-9_]+] and [(?<=def\s)[A-Za-z0-9_]+]. *)
Definition name_after (kw : string) : regex :=
  Cat (Behind (S (String.length kw)) (Cat (Lit (of_string kw)) (Class space)))
      (Plus (Class word_char)).

Definition class_pattern : regex := name_after "class".
Definition def_pattern : regex := name_after "def".

(** [self.highlighting_rules], in the order [__init__] registers them. *)
Definition highlighting_rules : list (regex * QTextCharFormat) :=
  map (fun w => (word_pattern w, keyword_format)) keywords
  ++ map (fun b => (word_pattern b, builtin_format)) builtins
  ++ [ (word_pattern "self", self_format);
       (quoted_pattern dquote, string_format);
       (quoted_pattern squote, string_format);
       (comment_pattern, comment_format);
       (number_pattern, number_format);
       (call_pattern, function_format);
       (class_pattern, function_format);
       (def_pattern, function_format) ].

(** *** What [QSyntaxHighlighter] keeps for the block being highlighted *)

(** One call [setFormat(start, count, format)]; Qt reads [start] and
    [count] in UTF-16 code units of the block. *)
Record Span : Type := mkSpan {
  span_start : Z;
  span_count : Z;
  span_format : QTextCharFormat
}.

(** The [setFormat] calls made so far, oldest first, and the state of the
    current block ([currentBlockState()]). *)
Record Block : Type := mkBlock {
  spans : list Span;
  currentBlockState : Z
}.

Definition setFormat (start count : Z) (f : QTextCharFormat) (st : Block)
  : Block :=
  mkBlock (spans st ++ [mkSpan start count f]) (currentBlockState st).

Definition setCurrentBlockState (newState : Z) (st : Block) : Block :=
  mkBlock (spans st) newState.

(** The block as Qt hands it to [highlightBlock]: no format set, and the
    state left by the previous highlighting of the block ([-1] at first). *)
Definition fresh_block (userState : Z) : Block := mkBlock [] userState.

(** **** How Qt renders the calls: one format slot per UTF-16 code unit *)

Fixpoint paint_from (i start stop : Z) (f : QTextCharFormat)
    (buf : list QTextCharFormat) : list QTextCharFormat :=
  match buf with
  | [] => []
  | x :: rest =>
      (if (start <=? i) && (i <? stop) then f else x)
        :: paint_from (i + 1) start stop f rest
  end.

(** The body of [QSyntaxHighlighter::setFormat]: calls that start outside
    the block are ignored, the range is clipped to the block. *)
Definition paint (buf : list QTextCharFormat) (sp : Span)
  : list QTextCharFormat :=
  let size := Z.of_nat (List.length buf) in
  if (span_start sp <? 0) || (size <=? span_start sp) then buf
  else
    let stop := Z.min (span_start sp + span_count sp) size in
    paint_from 0 (span_start sp) stop (span_format sp) buf.

(** The format changes of the block that holds [text] after the given
    calls: the block is as long as the text has UTF-16 code units. *)
Definition formatChanges (text : str) (calls : list Span)
  : list QTextCharFormat :=
  fold_left paint calls
    (repeat default_format (List.length (Utf16.units text))).

(** The format shown at offset [i] of the block, in UTF-16 code units. *)
Definition format_at (text : str) (calls : list Span) (i : Z)
  : QTextCharFormat :=
  nth (Z.to_nat i) (formatChanges text calls) default_format.

(** [sp] covers offset [i]. *)
Definition covers (sp : Span) (i : Z) : Prop :=
  0 <= span_start sp <= i /\ i < span_start sp + span_count sp.

Definition coversb (sp : Span) (i : Z) : bool :=
  (0 <=? span_start sp) && (span_start sp <=? i)
  && (i <? span_start sp + span_count sp).

(** The format that the calls leave at offset [i], the last write winning:
    [f] is the format before them. *)
Definition overlay (calls : list Span) (i : Z) (f : QTextCharFormat)
  : QTextCharFormat :=
  fold_left (fun f sp => if coversb sp i then span_format sp else f) calls f.

(** *** [highlightBlock] *)

(** [pattern.globalMatch(text)] on the Python [str] that [highlightBlock]
    is given: PyQt hands the text over as a [QString], the offsets of the
    matches are in UTF-16 code units, and a subject that is not
    well-formed UTF-16 (a lone surrogate) has no match.  The matcher
    reads the subject unit by unit where PCRE reads a surrogate pair as
    one character; for the patterns of this program that is the same,
    since their literals and classes are ASCII and [.] and [[^\n]] take
    both units of a pair. *)
Definition globalMatch_of (text : str) (pattern : regex) : list (Z * Z) :=
  let subject := Utf16.units text in
  if Utf16.well_formed subject then globalMatch subject pattern else [].

(** The inner [while iterator.hasNext()] loop for one rule. *)
Definition apply_rule (text : str) (st : Block)
    (rule : regex * QTextCharFormat) : Block :=
  let '(pattern, format_rule) := rule in
  fold_left (fun st m => setFormat (fst m) (snd m) format_rule st)
            (globalMatch_of text pattern) st.

(** [for pattern, format_rule in self.highlighting_rules: ...] *)
Definition apply_rules (rules : list (regex * QTextCharFormat))
    (text : str) (st : Block) : Block :=
  fold_left (apply_rule text) rules st.

(** The calls made by the single-line rules, rule after rule in the order
    of the list, each rule's matches from left to right. *)
Definition rule_spans (rules : list (regex * QTextCharFormat)) (text : str)
  : list Span :=
  flat_map (fun rule =>
              map (fun m => mkSpan (fst m) (snd m) (snd rule))
                  (globalMatch_of text (fst rule)))
           rules.

(** The loop [while start_index < len(text)] that looks for new multi-line
    strings; [None] when [fuel] iterations did not reach its end.  The
    indices are Python's: [len] and [find] count code points, and the
    code hands them to [setFormat] as they are. *)
Fixpoint scan_multiline (fuel : nat) (text : str) (start_index : Z)
    (st : Block) : option Block :=
  match fuel with
  | O => None
  | S fuel' =>
      if start_index <? len text then
        let start_s := find text triple_single start_index in
        let start_d := find text triple_double start_index in
        if (start_s =? -1) && (start_d =? -1) then Some st
        else
          let '(new_start_index, delimiter, state) :=
            if (start_d =? -1)
               || (negb (start_s =? -1) && (start_s <? start_d))
            then (start_s, triple_single, 1)
            else (start_d, triple_double, 2) in
          let end_index :=
            find text delimiter (new_start_index + len delimiter) in
          if end_index =? -1 then
            let st := setCurrentBlockState state st in
            let length := len text - new_start_index in
            Some (setFormat new_start_index length string_format st)
          else
            let length := end_index - new_start_index + len delimiter in
            let st := setFormat new_start_index length string_format st in
            scan_multiline fuel' text (new_start_index + length) st
      else Some st
  end.

(** [highlightBlock(text)], given [previousBlockState()]. *)
Definition highlightBlock (fuel : nat) (text : str)
    (previousBlockState : Z) (st : Block) : option Block :=
  let st := apply_rules highlighting_rules text st in
  let st := setCurrentBlockState 0 st in
  let in_multiline_state := previousBlockState in
  let delimiter :=
    if in_multiline_state =? 1 then triple_single
    else if in_multiline_state =? 2 then triple_double
    else [] in
  if 0 <? in_multiline_state then
    let end_index := find text delimiter 0 in
    if end_index =? -1 then
      let st := setCurrentBlockState in_multiline_state st in
      Some (setFormat 0 (len text) string_format st)
    else
      let length := end_index + len delimiter in
      let st := setFormat 0 length string_format st in
      scan_multiline fuel text length st
  else
    scan_multiline fuel text 0 st.

(** The choice made in lines 679-693 of the loop body: the opening
    delimiter that starts first at or after [start_index], with the state
    it opens; [None] when neither occurs. *)
Definition next_opener (text : str) (start_index : Z)
  : option (Z * str * Z) :=
  let start_s := find text triple_single start_index in
  let start_d := find text triple_double start_index in
  if (start_s =? -1) && (start_d =? -1) then None
  else if (start_d =? -1) || (negb (start_s =? -1) && (start_s <? start_d))
       then Some (start_s, triple_single, 1)
       else Some (start_d, triple_double, 2).

(** The block on which the multi-line pass starts: the rules' spans, and
    state [0] whatever state the block had before. *)
Definition after_rules (text : str) (st : Block) : Block :=
  mkBlock (spans st ++ rule_spans highlighting_rules text) 0.

(** Enough iterations for any line: every iteration moves [start_index]
    forward. *)
Definition enough (text : str) : nat := S (List.length text).

(** Qt's [reformatBlock]: highlight a block whose stored state is
    [userState]. *)
Definition rehighlight (text : str) (previousBlockState userState : Z)
  : option Block :=
  highlightBlock (enough text) text previousBlockState (fresh_block userState).

End Highlighter.


(* ===================================================================== *)
(** ** Text files: UTF-8 and newline translation *)
(* ===================================================================== *)

Module Utf8.

(** A continuation byte, [10xxxxxx]. *)
Definition is_cont (b : Z) : bool := (0x80 <=? b) && (b <? 0xC0).

Definition is_surrogate (c : Z) : bool := (0xD800 <=? c) && (c <=? 0xDFFF).

(** A Unicode scalar value: a code point that is not a surrogate.  The
    characters of a Python [str] that UTF-8 can encode are these. *)
Definition scalar_value (c : Z) : Prop :=
  0 <= c < 0xD800 \/ 0xDFFF < c < 0x110000.

(** The bytes of one code point; [None] is [UnicodeEncodeError] (a lone
    surrogate, or no code point at all). *)
Definition encode_char (c : Z) : option (list Z) :=
  if c <? 0 then None
  else if c <? 0x80 then Some [c]
  else if c <? 0x800 then Some [0xC0 + c / 64; 0x80 + c mod 64]
  else if c <? 0x10000 then
    if is_surrogate c then None
    else Some [0xE0 + c / 4096; 0x80 + (c / 64) mod 64; 0x80 + c mod 64]
  else if c <? 0x110000 then
    Some [0xF0 + c / 262144; 0x80 + (c / 4096) mod 64;
          0x80 + (c / 64) mod 64; 0x80 + c mod 64]
  else None.

(** [s.encode('utf-8')] *)
Fixpoint encode (s : str) : option (list Z) :=
  match s with
  | [] => Some []
  | c :: rest =>
      match encode_char c, encode rest with
      | Some b, Some bs => Some (b ++ bs)
      | _, _ => None
      end
  end.

(** [b.decode('utf-8')], strict: [None] is [UnicodeDecodeError] (a stray or
    missing continuation byte, an overlong form, a surrogate, a value
    above U+10FFFF). *)
Fixpoint decode (b : list Z) : option str :=
  match b with
  | [] => Some []
  | b0 :: r0 =>
      if (0 <=? b0) && (b0 <? 0x80) then option_map (cons b0) (decode r0)
      else if (0xC0 <=? b0) && (b0 <? 0xE0) then
        match r0 with
        | b1 :: r1 =>
            let c := (b0 - 0xC0) * 64 + (b1 - 0x80) in
            if is_cont b1 && (0x80 <=? c)
            then option_map (cons c) (decode r1) else None
        | _ => None
        end
      else if (0xE0 <=? b0) && (b0 <? 0xF0) then
        match r0 with
        | b1 :: b2 :: r2 =>
            let c := (b0 - 0xE0) * 4096 + (b1 - 0x80) * 64 + (b2 - 0x80) in
            if is_cont b1 && is_cont b2 && (0x800 <=? c)
               && negb (is_surrogate c)
            then option_map (cons c) (decode r2) else None
        | _ => None
        end
      else if (0xF0 <=? b0) && (b0 <? 0xF8) then
        match r0 with
        | b1 :: b2 :: b3 :: r3 =>
            let c := (b0 - 0xF0) * 262144 + (b1 - 0x80) * 4096
                     + (b2 - 0x80) * 64 + (b3 - 0x80) in
            if is_cont b1 && is_cont b2 && is_cont b3
               && (0x10000 <=? c) && (c <? 0x110000)
            then option_map (cons c) (decode r3) else None
        | _ => None
        end
      else None
  end.

End Utf8.

Module TextIO.

Definition LF : Z := 10.
Definition CR : Z := 13.

(** [os.linesep] *)
Definition linesep (windows : bool) : str :=
  if windows then [CR; LF] else [LF].

(** Writing in text mode with [newline=None]: every ['\n'] becomes
    [os.linesep]. *)
Definition translate_on_write (windows : bool) (s : str) : str :=
  flat_map (fun c => if c =? LF then linesep windows else [c]) s.

(** Reading in text mode with [newline=None] (universal newlines): each
    of ['\r\n'], ['\r'] and ['\n'] is read as ['\n']. *)
Fixpoint universal_newlines (s : str) : str :=
  match s with
  | [] => []
  | c :: rest =>
      if c =? CR then
        LF :: match rest with
              | d :: rest' =>
                  if d =? LF then universal_newlines rest'
                  else universal_newlines rest
              | [] => []
              end
      else c :: universal_newlines rest
  end.

(** The bytes that [open(path, 'w', encoding='utf-8')] and [f.write(s)]
    put in the file. *)
Definition write_text (windows : bool) (s : str) : option (list Z) :=
  Utf8.encode (translate_on_write windows s).

(** What [f.read()] returns on a file opened with
    [open(path, 'r', encoding='utf-8')]. *)
Definition read_text (bytes : list Z) : option str :=
  option_map universal_newlines (Utf8.decode bytes).

End TextIO.

(* ===================================================================== *)
(** ** The main window: [PythonCodeEditor] *)
(* ===================================================================== *)

Module App.

(** The buttons of the three-way question of [maybe_save]. *)
Inductive StandardButton : Type := Save | Discard | Cancel.

(** The dialogs the application can put on screen. *)
Inductive Dialog : Type :=
| SaveDiscardCancel        (* the [QMessageBox.warning] of [maybe_save] *)
| GetOpenFileName          (* [QFileDialog.getOpenFileName] *)
| GetSaveFileName          (* [QFileDialog.getSaveFileName] *)
| CouldNotOpen             (* [QMessageBox.critical], opening failed *)
| CouldNotSave             (* [QMessageBox.critical], saving failed *)
| CannotRun.               (* [QMessageBox.warning], nothing to run *)

(** What the user answers when asked; a file dialog that is cancelled
    gives the empty name. *)
Record User : Type := mkUser {
  warning_answer : StandardButton;
  open_file_name : string;
  save_file_name : string
}.

(** The platform: the line separator, which paths can be opened for
    writing, and the editor widget: what [editor.toPlainText()] returns
    once [editor.setPlainText(content)] has been called.  Qt does not
    give every text back as it was set (a no-break space comes back as a
    space, U+2028 and U+2029 as a line feed); nothing is assumed of it. *)
Record OS : Type := mkOS {
  windows : bool;
  writable : string -> bool;
  toPlainText : str -> str
}.

Inductive Status : Type :=
| Ready
| FileShown (shown_name : string)
| SavedTo (file_path : string)
| RunAborted.

(** The calls that the window makes on [output_text_edit]: [append] of
    the banner of a run, [append] of the closing banner,
    [insertPlainText(data)] and [insertHtml(html)]. *)
Inductive OutputItem : Type :=
| RunningBanner (file_path : string)
| FinishedBanner
| InsertPlainText (data : str)
| InsertHtml (html : str).

Record State : Type := mkState {
  current_file_path : option string;
  editor_text : str;                 (* [editor.toPlainText()] *)
  document_modified : bool;          (* [editor.document().isModified()] *)
  window_modified : bool;
  editor_point_size : Z;             (* [editor.font().pointSize()] *)
  output_point_size : Z;             (* [output_text_edit.font().pointSize()] *)
  output : list OutputItem;          (* the calls since the last [clear()] *)
  status : Status;
  run_action_enabled : bool;
  process_running : bool;            (* [process.state() != NotRunning] *)
  started : list string;             (* every interpreter run started *)
  ignored_starts : nat;              (* [process.start] on a running process *)
  finished_runs : nat;               (* the [finished] signals received *)
  files : string -> option (list Z); (* the file system *)
  dialogs : list Dialog              (* the dialogs shown, oldest first *)
}.

(** Field updates. *)
Definition with_text (t : str) (st : State) : State :=
  mkState (current_file_path st) t (document_modified st) (window_modified st)
    (editor_point_size st) (output_point_size st) (output st) (status st)
    (run_action_enabled st) (process_running st) (started st)
    (ignored_starts st) (finished_runs st) (files st) (dialogs st).

Definition with_modified (d w : bool) (st : State) : State :=
  mkState (current_file_path st) (editor_text st) d w
    (editor_point_size st) (output_point_size st) (output st) (status st)
    (run_action_enabled st) (process_running st) (started st)
    (ignored_starts st) (finished_runs st) (files st) (dialogs st).

Definition with_path (p : option string) (st : State) : State :=
  mkState p (editor_text st) (document_modified st) (window_modified st)
    (editor_point_size st) (output_point_size st) (output st) (status st)
    (run_action_enabled st) (process_running st) (started st)
    (ignored_starts st) (finished_runs st) (files st) (dialogs st).

Definition with_fonts (e o : Z) (st : State) : State :=
  mkState (current_file_path st) (editor_text st) (document_modified st)
    (window_modified st) e o (output st) (status st)
    (run_action_enabled st) (process_running st) (started st)
    (ignored_starts st) (finished_runs st) (files st) (dialogs st).

Definition with_output (out : list OutputItem) (st : State) : State :=
  mkState (current_file_path st) (editor_text st) (document_modified st)
    (window_modified st) (editor_point_size st) (output_point_size st) out
    (status st) (run_action_enabled st) (process_running st) (started st)
    (ignored_starts st) (finished_runs st) (files st) (dialogs st).

Definition showMessage (m : Status) (st : State) : State :=
  mkState (current_file_path st) (editor_text st) (document_modified st)
    (window_modified st) (editor_point_size st) (output_point_size st)
    (output st) m (run_action_enabled st) (process_running st) (started st)
    (ignored_starts st) (finished_runs st) (files st) (dialogs st).

Definition with_run_action (b : bool) (st : State) : State :=
  mkState (current_file_path st) (editor_text st) (document_modified st)
    (window_modified st) (editor_point_size st) (output_point_size st)
    (output st) (status st) b (process_running st) (started st)
    (ignored_starts st) (finished_runs st) (files st) (dialogs st).

Definition with_process (running : bool) (runs : list string)
    (ign fin : nat) (st : State) : State :=
  mkState (current_file_path st) (editor_text st) (document_modified st)
    (window_modified st) (editor_point_size st) (output_point_size st)
    (output st) (status st) (run_action_enabled st) running runs ign fin
    (files st) (dialogs st).

Definition with_files (f : string -> option (list Z)) (st : State) : State :=
  mkState (current_file_path st) (editor_text st) (document_modified st)
    (window_modified st) (editor_point_size st) (output_point_size st)
    (output st) (status st) (run_action_enabled st) (process_running st)
    (started st) (ignored_starts st) (finished_runs st) f (dialogs st).

Definition show (d : Dialog) (st : State) : State :=
  mkState (current_file_path st) (editor_text st) (document_modified st)
    (window_modified st) (editor_point_size st) (output_point_size st)
    (output st) (status st) (run_action_enabled st) (process_running st)
    (started st) (ignored_starts st) (finished_runs st) (files st)
    (dialogs st ++ [d]).

(** The file system after [path] received [bytes]. *)
Definition store (path : string) (bytes : list Z)
    (f : string -> option (list Z)) : string -> option (list Z) :=
  fun q => if String.eqb q path then Some bytes else f q.

(** A path that is neither [None] nor empty ([if file_path:]). *)
Definition truthy (p : string) : bool := negb (String.eqb p "").

Section Operations.

Variable os : OS.

(** [document_was_modified], the slot of [editor.textChanged]. *)
Definition document_was_modified (st : State) : State :=
  with_modified (document_modified st) true st.

Definition set_current_file (file_path : option string) (st : State)
  : State :=
  let st := with_path file_path st in
  let st := with_modified false false st in
  let shown_name :=
    match file_path with
    | Some p => if truthy p then p else "Untitled.py"%string
    | None => "Untitled.py"%string
    end in
  showMessage (FileShown shown_name) st.

(** [QFont.setPointSize] is taken as an assignment: Qt ignores a size that
    is not positive, and the sizes set below are positive in every state
    the window can reach. *)
Definition increase_font_size (st : State) : State :=
  let current_size := editor_point_size st in
  if current_size <? 72 then
    with_fonts (current_size + 2) (output_point_size st + 2) st
  else st.

Definition decrease_font_size (st : State) : State :=
  let current_size := editor_point_size st in
  if 6 <? current_size then
    with_fonts (current_size - 2) (output_point_size st - 2) st
  else st.

(** [_write_to_file]: the result is the returned boolean and the state.
    Opening with ['w'] needs a writable path and truncates the file;
    [f.write] fails on text that UTF-8 cannot encode. *)
Definition _write_to_file (file_path : string) (st : State)
  : bool * State :=
  if writable os file_path then
    match TextIO.write_text (windows os) (editor_text st) with
    | Some bytes =>
        let st := with_files (store file_path bytes (files st)) st in
        let st := set_current_file (Some file_path) st in
        (true, showMessage (SavedTo file_path) st)
    | None =>
        let st := with_files (store file_path [] (files st)) st in
        (false, show CouldNotSave st)
    end
  else (false, show CouldNotSave st).

Definition save_file_as (u : User) (st : State) : bool * State :=
  let st := show GetSaveFileName st in
  let file_path := save_file_name u in
  if truthy file_path then _write_to_file file_path st
  else (false, st).

Definition save_file (u : User) (st : State) : bool * State :=
  match current_file_path st with
  | None => save_file_as u st
  | Some p => _write_to_file p st
  end.

Definition maybe_save (u : User) (st : State) : bool * State :=
  if negb (document_modified st) then (true, st)
  else
    let st := show SaveDiscardCancel st in
    match warning_answer u with
    | Save => save_file u st
    | Cancel => (false, st)
    | Discard => (true, st)
    end.

Definition new_file (u : User) (st : State) : State :=
  let '(ok, st) := maybe_save u st in
  if ok then
    let st := document_was_modified (with_text [] st) in  (* editor.clear() *)
    let st := set_current_file None st in
    with_modified false false st
  else st.

Definition open_file (u : User) (st : State) : State :=
  let '(ok, st) := maybe_save u st in
  if ok then
    let st := show GetOpenFileName st in
    let file_path := open_file_name u in
    if truthy file_path then
      match files st file_path with
      | Some bytes =>
          match TextIO.read_text bytes with
          | Some content =>
              (* editor.setPlainText(content) *)
              let st :=
                document_was_modified
                  (with_text (toPlainText os content) st) in
              set_current_file (Some file_path) st
          | None => show CouldNotOpen st
          end
      | None => show CouldNotOpen st
      end
    else st
  else st.

(** [closeEvent]: [true] when the event is accepted. *)
Definition closeEvent (u : User) (st : State) : bool * State :=
  maybe_save u st.

(** [QProcess.start]: a process that is already running is left alone
    (Qt only warns); otherwise the interpreter starts, unless the
    executable cannot be started, and then no [finished] will follow. *)
Definition process_start (start_ok : bool) (file_path : string)
    (st : State) : State :=
  if process_running st then
    with_process true (started st) (S (ignored_starts st))
                 (finished_runs st) st
  else if start_ok then
    with_process true (started st ++ [file_path]) (ignored_starts st)
                 (finished_runs st) st
  else st.

Definition run_code (u : User) (start_ok : bool) (st : State) : State :=
  let '(saved, st) := save_file u st in
  if negb saved then showMessage RunAborted st
  else
    match current_file_path st with
    | Some p =>
        if truthy p then
          let st := with_output [RunningBanner p] st in
          let st := with_run_action false st in
          process_start start_ok p st
        else show CannotRun st
    | None => show CannotRun st
    end.

(** The two slots, once the bytes are decoded to [data].  [output] keeps
    the calls in the order they are made; where the view puts what is
    inserted (at its text cursor), and what it makes of the HTML, is
    Qt's. *)
Definition handle_stdout (data : str) (st : State) : State :=
  with_output (output st ++ [InsertPlainText data]) st.

(** [data.replace('\n', '<br>')] *)
Definition replace_newlines (data : str) : str :=
  flat_map (fun c => if c =? 10 then of_string "<br>" else [c]) data.

(** The HTML of [handle_stderr]: the text goes in as it is, nothing in it
    is escaped. *)
Definition stderr_html (data : str) : str :=
  of_string "<font color='#DA4453'>" ++ replace_newlines data
    ++ of_string "</font>".

Definition handle_stderr (data : str) (st : State) : State :=
  with_output (output st ++ [InsertHtml (stderr_html data)]) st.

Definition process_finished (st : State) : State :=
  let st := with_output (output st ++ [FinishedBanner]) st in
  with_run_action true st.

(** *** The event loop *)

(** What can happen to the window: the user's actions, and the signals of
    the interpreter process. *)
Inductive Event : Type :=
| Typed (text : str)                    (* the user edits the text *)
| New (u : User)
| Open (u : User)
| SaveAction (u : User)
| SaveAs (u : User)
| Close (u : User)
| IncreaseFont
| DecreaseFont
| Run (u : User) (start_ok : bool)      (* the run action is triggered *)
| ReadyReadStdout (data : list Z)
| ReadyReadStderr (data : list Z)
| ProcessFinished.

(** Qt delivers an event only when it can occur: a disabled action is not
    triggered, and only a running process sends signals. *)
Definition can_occur (e : Event) (st : State) : bool :=
  match e with
  | Run _ _ => run_action_enabled st
  | ReadyReadStdout _ | ReadyReadStderr _ | ProcessFinished =>
      process_running st
  | _ => true
  end.

Definition handle (e : Event) (st : State) : State :=
  match e with
  | Typed text =>
      document_was_modified
        (with_modified true (window_modified st) (with_text text st))
  | New u => new_file u st
  | Open u => open_file u st
  | SaveAction u => snd (save_file u st)
  | SaveAs u => snd (save_file_as u st)
  | Close u => snd (closeEvent u st)
  | IncreaseFont => increase_font_size st
  | DecreaseFont => decrease_font_size st
  | Run u start_ok => run_code u start_ok st
  | ReadyReadStdout data => handle_stdout data st
  | ReadyReadStderr data => handle_stderr data st
  | ProcessFinished =>
      process_finished
        (with_process false (started st) (ignored_starts st)
                      (S (finished_runs st)) st)
  end.

Inductive step : State -> Event -> State -> Prop :=
| step_event : forall e st,
    can_occur e st = true -> step st e (handle e st).

(** The window after [__init__] on a file system [fs]: fonts of 11 and 10
    points, the run action enabled, no process, an empty untitled file. *)
Definition initial (fs : string -> option (list Z)) : State :=
  mkState None [] false false 11 10 [] (FileShown "Untitled.py")
          true false [] 0 0 fs [].

Inductive reachable (fs : string -> option (list Z)) : State -> Prop :=
| reach_initial : reachable fs (initial fs)
| reach_step : forall st e st',
    reachable fs st -> step st e st' -> reachable fs st'.

(** The interpreter runs that have started and not finished. *)
Definition outstanding (st : State) : nat :=
  (List.length (started st) - finished_runs st)%nat.

End Operations.

End App.

(* ===================================================================== *)
(** ** The line-number gutter: [CodeEditor.lineNumberAreaPaintEvent] *)
(* ===================================================================== *)

Module LineNumberArea.

Section PaintEvent.

(** Qt's coordinates ([qreal], a Python [float]) with the operations that
    the loop applies to them; nothing is assumed about them. *)
Variable qreal : Type.
Variable add : qreal -> qreal -> qreal.
Variable leb : qreal -> qreal -> bool.
Variable of_int : Z -> qreal.
Variable to_int : qreal -> Z.           (* [int(top)] *)

(** A valid [QTextBlock], as far as the loop looks at it. *)
Record QTextBlock : Type := mkTextBlock {
  isVisible : bool;
  height : qreal                (* [blockBoundingRect(block).height()] *)
}.

(** The blocks from a block on, in the order of [block.next()]; the block
    after the last one is not valid, and its bounding rectangle is empty. *)
Definition height_of (blocks : list QTextBlock) : qreal :=
  match blocks with
  | block :: _ => height block
  | [] => of_int 0
  end.

(** One call [painter.drawText(0, int(top), ..., number)]: the ordinate
    and the number whose decimal writing is drawn. *)
Record DrawText : Type := mkDrawText {
  draw_y : Z;
  draw_number : Z
}.

(** The loop [while block.isValid() and top <= event.rect().bottom()]. *)
Fixpoint paint_loop (blocks : list QTextBlock) (blockNumber : Z)
    (top bottom : qreal) (rect_top rect_bottom : Z) : list DrawText :=
  match blocks with
  | [] => []
  | block :: next =>
      if leb top (of_int rect_bottom) then
        let drawn :=
          if isVisible block && leb (of_int rect_top) bottom
          then [mkDrawText (to_int top) (blockNumber + 1)]
          else [] in
        let top := bottom in
        let bottom := add top (height_of next) in
        drawn ++ paint_loop next (blockNumber + 1) top bottom
                            rect_top rect_bottom
      else []
  end.

(** [lineNumberAreaPaintEvent(event)]: [blocks] are the blocks from
    [firstVisibleBlock()] on, [blockNumber] is the number of the first of
    them, [top] the top of its geometry, and the rectangle of the event
    goes from [rect_top] to [rect_bottom]. *)
Definition lineNumberAreaPaintEvent (blocks : list QTextBlock)
    (blockNumber : Z) (top : qreal) (rect_top rect_bottom : Z)
  : list DrawText :=
  let bottom := add top (height_of blocks) in
  paint_loop blocks blockNumber top bottom rect_top rect_bottom.

End PaintEvent.

End LineNumberArea.

(* ===================================================================== *)
(** ** The output of the interpreter: the bytes of [QProcess] *)
(* ===================================================================== *)

Module ProcessOutput.

(** [handle_stdout] and [handle_stderr] from the bytes that
    [readAllStandardOutput().data()] and [readAllStandardError().data()]
    hold when the signal arrives: [decode('utf-8')] is applied to each
    chunk on its own, and [None] is its [UnicodeDecodeError], which the
    slot does not catch. *)
Definition handle_stdout (bytes : list Z) (st : App.State)
  : option App.State :=
  match Utf8.decode bytes with
  | Some data => Some (App.handle_stdout data st)
  | None => None
  end.

Definition handle_stderr (bytes : list Z) (st : App.State)
  : option App.State :=
  match Utf8.decode bytes with
  | Some data => Some (App.handle_stderr data st)
  | None => None
  end.

End ProcessOutput.

(* ===================================================================== *)
(** * Vocabulary of the properties *)
(* ===================================================================== *)

Import Highlighter.

(** ** Matchers *)

(** A sub-matcher is local when, from an offset of the line, it calls its
    continuation only on offsets of the line that are not to the left. *)
Definition local (text : str)
    (m : nat -> (nat -> option nat) -> option nat) : Prop :=
  forall i k k',
    (i <= List.length text)%nat ->
    (forall j, (i <= j <= List.length text)%nat -> k j = k' j) ->
    m i k = m i k'.

(** A sub-matcher is forward when its result is one that its continuation
    gave on an offset of the line that is not to the left. *)
Definition forward (text : str)
    (m : nat -> (nat -> option nat) -> option nat) : Prop :=
  forall i k e,
    (i <= List.length text)%nat -> m i k = Some e ->
    exists j, (i <= j <= List.length text)%nat /\ k j = Some e.

(** ** Lines of text *)

(** The closing delimiter that a block in state 1 or 2 waits for. *)
Definition closing_delimiter (previousBlockState : Z) : str :=
  if previousBlockState =? 1 then triple_single else triple_double.

Definition line1 : str := of_string "s = '''abc".
Definition line2 : str := of_string "def''' ".

Definition def_line : str := of_string "def foo(x):".

(** A line on which neither delimiter occurs, and a line that closes one
    multi-line string and leaves a second one open. *)
Definition plain_line : str := of_string "x = 1  # comment".
Definition two_strings : str :=
  of_string "'''a''' " ++ triple_double ++ of_string "b".

(** A line with a character above U+FFFF (U+1F600, a space and the digit
    1), and the same after [x = ] and an opening delimiter. *)
Definition emoji_line : str := [128512; 32; 49].
Definition opened_emoji_line : str := of_string "x = '''" ++ emoji_line.

(** The block computed for [def foo(x):]. *)
Definition def_line_block : Block :=
  mkBlock [mkSpan 0 3 keyword_format; mkSpan 4 3 function_format;
           mkSpan 4 3 function_format] 0.

(** ** States of the window *)

(** The part of the state that file operations and dialogs leave alone:
    the fonts, the run action and the interpreter process. *)
Definition machinery (st : App.State)
  : Z * Z * bool * bool * list string * nat * nat :=
  (App.editor_point_size st, App.output_point_size st,
   App.run_action_enabled st, App.process_running st, App.started st,
   App.ignored_starts st, App.finished_runs st).

(** Two states with the same run action and the same process. *)
Definition same_run_state (st st' : App.State) : Prop :=
  App.run_action_enabled st' = App.run_action_enabled st
  /\ App.process_running st' = App.process_running st
  /\ App.started st' = App.started st
  /\ App.ignored_starts st' = App.ignored_starts st
  /\ App.finished_runs st' = App.finished_runs st.

(** The invariant behind the single outstanding run. *)
Definition run_invariant (st : App.State) : Prop :=
  (App.process_running st = true -> App.run_action_enabled st = false)
  /\ App.ignored_starts st = 0%nat
  /\ List.length (App.started st)
     = (App.finished_runs st
        + if App.process_running st then 1 else 0)%nat.

(** An editor widget that gives every text back as it was set, as Qt does
    for the texts of the examples. *)
Definition unchanged (content : str) : str := content.

(** A platform and a user for the examples: a POSIX system where every
    path can be written, and a user who cancels every dialog. *)
Definition posix : App.OS := App.mkOS false (fun _ => true) unchanged.
Definition cancelling_user : App.User := App.mkUser App.Cancel "" "".
Definition no_files : string -> option (list Z) := fun _ => None.

(** The window after the user has typed a program into the new, untitled
    document. *)
Definition typed_program : App.State :=
  App.handle posix (App.Typed (of_string "print(1)")) (App.initial no_files).

(** The window after the user saved the typed program as [prog.py] and
    pressed Run. *)
Definition saving_user : App.User := App.mkUser App.Save "" "prog.py".

Definition running_program : App.State :=
  App.handle posix (App.Run saving_user true) typed_program.

(** A document with a non-ASCII character and two lines, on Windows. *)
Definition windows_os : App.OS := App.mkOS true (fun _ => true) unchanged.
Definition opening_user : App.User := App.mkUser App.Discard "a.py" "a.py".


(** A disk whose only file, [a.py], holds the line [hi] with the line end
    of Windows. *)
Definition crlf_disk : string -> option (list Z) :=
  App.store "a.py" [104; 105; 13; 10] no_files.


(** ** Spans and lines *)

(** [sp] lies within the line [text]. *)
Definition in_line (text : str) (sp : Span) : Prop :=
  0 <= span_start sp /\ 0 <= span_count sp
  /\ span_start sp + span_count sp <= len text.

(** The spans of [l] follow each other from left to right, from offset
    [from] on, without overlap, within the line. *)
Fixpoint left_to_right (text : str) (from : Z) (l : list Span) : Prop :=
  match l with
  | [] => True
  | sp :: rest =>
      from <= span_start sp /\ 0 <= span_count sp
      /\ span_start sp + span_count sp <= len text
      /\ left_to_right text (span_start sp + span_count sp) rest
  end.

(** The character at offset [i] is a word character; no character, none. *)
Definition word_char_at (text : str) (i : Z) : bool :=
  if i <? 0 then false else Regex.word_at text (Z.to_nat i).


(** ** Documents *)

(** The blocks of a document highlighted in order, as [QSyntaxHighlighter]
    drives [highlightBlock]: [previousBlockState()] is the state that the
    block before has been left in, and [previousBlockState] for the first
    of [lines]. *)
Fixpoint highlight_lines (previousBlockState : Z) (lines : list str)
  : option (list Block) :=
  match lines with
  | [] => Some []
  | text :: rest =>
      match rehighlight text previousBlockState (-1) with
      | None => None
      | Some b =>
          option_map (cons b) (highlight_lines (currentBlockState b) rest)
      end
  end.

(** A whole document: the first block has no block before it, and Qt gives
    [-1] for its [previousBlockState()]. *)
Definition highlight_document (lines : list str) : option (list Block) :=
  highlight_lines (-1) lines.

(** ** Words *)




(** The lines of a docstring after its opening line. *)
Definition docstring_lines : list str :=
  [of_string "  Adds two numbers."; of_string "  # not a comment"].

(** ** Characters of a line *)

(** The character at offset [i] belongs to the class [p]; no character,
    no class. *)
Definition char_at (text : str) (p : Z -> bool) (i : Z) : bool :=
  if i <? 0 then false
  else match nth_error text (Z.to_nat i) with
       | Some c => p c
       | None => false
       end.

(** Every character from offset [i] to offset [e], [e] excluded, belongs
    to the class [p]. *)
Definition all_chars (text : str) (p : Z -> bool) (i e : Z) : Prop :=
  forall k, i <= k < e -> char_at text p k = true.

(** A line with two quoted strings, a line with numbers, and a line with
    a function definition and a call. *)
Definition two_quoted : str := of_string "print('a' + 'b')".
Definition numbers_line : str := of_string "x1 = 3.x + 12.5 + 7.".
Definition undef_line : str := of_string "undef f1(n): return g(n)".

(** ** The gutter *)

(** Three lines of 17 pixels, the second one folded away, drawn with
    integer coordinates. *)
Definition three_blocks : list (LineNumberArea.QTextBlock Z) :=
  [LineNumberArea.mkTextBlock Z true 17;
   LineNumberArea.mkTextBlock Z false 0;
   LineNumberArea.mkTextBlock Z true 17].

(** ** The document of the window *)

(** The document as the user has it: the text, the file it belongs to,
    and the two modified marks. *)
Definition document (st : App.State) : str * option string * bool * bool :=
  (App.editor_text st, App.current_file_path st,
   App.document_modified st, App.window_modified st).

(** The file that [save_file] writes to: the file of the document, or,
    for a document without file, the name that the user gives in the
    dialog, if any. *)
Definition save_target (u : App.User) (st : App.State) : option string :=
  match App.current_file_path st with
  | Some p => Some p
  | None =>
      if App.truthy (App.save_file_name u) then Some (App.save_file_name u)
      else None
  end.

(** The unsaved text of [st] is still in the editor in [st'], and still
    marked as modified. *)
Definition unsaved_text_kept (st st' : App.State) : Prop :=
  App.editor_text st' = App.editor_text st
  /\ App.document_modified st' = true
  /\ App.current_file_path st' = App.current_file_path st.

(** The text of [st] is in a file in [st']. *)
Definition text_on_disk (os : App.OS) (st st' : App.State) : Prop :=
  exists p bytes,
    TextIO.write_text (App.windows os) (App.editor_text st) = Some bytes
    /\ App.files st' p = Some bytes.

(** The file of the document has a name, and the warning that there is
    nothing to run has never been shown. *)
Definition named_file (st : App.State) : Prop :=
  (forall p, App.current_file_path st = Some p -> App.truthy p = true)
  /\ ~ In App.CannotRun (App.dialogs st).

(** The states that follow [st]: after any number of events. *)
Inductive later (os : App.OS) (st : App.State) : App.State -> Prop :=
| later_now : later os st st
| later_step : forall st' e st'',
    later os st st' -> App.step os st' e st'' -> later os st st''.

(** The window after a run for which the interpreter could not be
    started. *)
Definition failed_start : App.State :=
  App.run_code posix saving_user false typed_program.

(** ** The output view *)

Definition is_data (item : App.OutputItem) : bool :=
  match item with
  | App.InsertPlainText _ | App.InsertHtml _ => true
  | _ => false
  end.

(** The output of one run of [p]: its banner, what the process has
    written, in the order of arrival, and the closing banner once the
    process has finished. *)
Definition run_output (p : string) (data : list App.OutputItem)
    (finished : bool) : list App.OutputItem :=
  App.RunningBanner p :: data
    ++ (if finished then [App.FinishedBanner] else []).

(** What the output view holds: nothing before the first run, and then
    the output of the last run only; while the process runs, of the run
    started last. *)
Definition output_of_last_run (st : App.State) : Prop :=
  (App.output st = [] /\ App.process_running st = false)
  \/ exists p data finished,
       forallb is_data data = true
       /\ App.output st = run_output p data finished
       /\ (App.process_running st = true ->
           finished = false
           /\ exists earlier, App.started st = earlier ++ [p]).

(** The events that lead from one state of the window to another, in
    the order in which they occur. *)
Inductive trace (os : App.OS)
  : App.State -> list App.Event -> App.State -> Prop :=
| trace_nil : forall st, trace os st [] st
| trace_cons : forall st e st' es st'',
    App.step os st e st' -> trace os st' es st'' ->
    trace os st (e :: es) st''.

Definition is_run (e : App.Event) : bool :=
  match e with
  | App.Run _ _ => true
  | _ => false
  end.

(** The calls on the output view that are expected of an event other
    than the run action: a chunk of standard output is inserted as plain
    text, a chunk of standard error as the HTML of [handle_stderr], the
    end of the process appends the closing banner, and no other event
    touches the view. *)
Definition output_calls (e : App.Event) : list App.OutputItem :=
  match e with
  | App.ReadyReadStdout data => [App.InsertPlainText data]
  | App.ReadyReadStderr data => [App.InsertHtml (App.stderr_html data)]
  | App.ProcessFinished => [App.FinishedBanner]
  | _ => []
  end.

(** What the running program writes: [1] and a line end on its standard
    output, then [E] on its standard error; then it ends. *)
Definition program_events : list App.Event :=
  [App.ReadyReadStdout [49; 10]; App.ReadyReadStderr [69];
   App.ProcessFinished].

Definition finished_program : App.State :=
  App.handle posix App.ProcessFinished
    (App.handle posix (App.ReadyReadStderr [69])
       (App.handle posix (App.ReadyReadStdout [49; 10]) running_program)).

(** ** Chunks of output *)

(** The bytes of an [n] and of an [e] with an acute accent (U+00E9), cut
    by the pipe between the two bytes of the second letter. *)
Definition first_chunk : list Z := [110; 195].
Definition second_chunk : list Z := [169].

(* ===================================================================== *)
(** * Properties *)
(* ===================================================================== *)

(** Split a conjunction that is written as one, leaving definitions
    folded. *)
Ltac split_and := match goal with |- _ /\ _ => split end.

(** ** [str.find] *)

Section FindFacts.

Lemma len_nonneg (s : str) : 0 <= len s.
Proof. unfold len. lia. Qed.

Lemma len_cons (c : Z) (s : str) : len (c :: s) = len s + 1.
Proof. unfold len. cbn [List.length]. lia. Qed.

Lemma startswith_length (t sub : str) :
  startswith t sub = true -> len sub <= len t.
Proof.
  revert t. induction sub as [|c sub IH]; intros t H.
  - apply len_nonneg.
  - destruct t as [|d t]; cbn in H; [discriminate|].
    apply andb_prop in H. destruct H as [_ H]. apply IH in H.
    rewrite !len_cons. lia.
Qed.

Lemma skipn_succ_tail (c : Z) (t : str) (k : Z) :
  0 <= k -> skipn (Z.to_nat (k + 1)) (c :: t) = skipn (Z.to_nat k) t.
Proof.
  intros Hk. replace (Z.to_nat (k + 1)) with (S (Z.to_nat k)) by lia.
  reflexivity.
Qed.

(** What [find_from] returns: [-1] when [sub] starts nowhere in [t], and
    otherwise the first place where it does. *)
Lemma find_from_spec (sub t : str) (i : Z) :
  0 <= i ->
  let e := find_from t sub i in
  (e = -1 /\ forall k, 0 <= k ->
               startswith (skipn (Z.to_nat k) t) sub = false)
  \/ (i <= e /\ e + len sub <= i + len t
      /\ startswith (skipn (Z.to_nat (e - i)) t) sub = true
      /\ forall k, 0 <= k < e - i ->
           startswith (skipn (Z.to_nat k) t) sub = false).
Proof.
  revert i. induction t as [|c t IH]; intros i Hi; cbn zeta.
  - cbn [find_from]. destruct (startswith [] sub) eqn:E.
    + right. pose proof (startswith_length _ _ E) as Hl.
      rewrite Z.sub_diag. cbn [Z.to_nat skipn]. repeat split; try lia.
      assumption.
    + left. split; [reflexivity|]. intros k _.
      rewrite skipn_nil. assumption.
  - cbn [find_from]. destruct (startswith (c :: t) sub) eqn:E.
    + right. pose proof (startswith_length _ _ E) as Hl.
      rewrite Z.sub_diag. cbn [Z.to_nat skipn]. repeat split; try lia.
      assumption.
    + specialize (IH (i + 1) ltac:(lia)). cbn zeta in IH.
      destruct IH as [[He Hno] | (Hle & Hfit & Hocc & Hfirst)].
      * left. split; [assumption|]. intros k Hk.
        destruct (Z.eq_dec k 0) as [->|Hk0]; [assumption|].
        replace k with ((k - 1) + 1) by lia.
        rewrite skipn_succ_tail by lia. apply Hno. lia.
      * right. rewrite len_cons. repeat split; try lia.
        -- replace (find_from t sub (i + 1) - i)
             with ((find_from t sub (i + 1) - (i + 1)) + 1) by lia.
           rewrite skipn_succ_tail by lia. assumption.
        -- intros k Hk.
           destruct (Z.eq_dec k 0) as [->|Hk0]; [assumption|].
           replace k with ((k - 1) + 1) by lia.
           rewrite skipn_succ_tail by lia. apply Hfirst. lia.
Qed.

Lemma skipn_skipn_Z (t : str) (a b : Z) :
  0 <= a -> 0 <= b ->
  skipn (Z.to_nat b) (skipn (Z.to_nat a) t) = skipn (Z.to_nat (a + b)) t.
Proof.
  intros Ha Hb. rewrite skipn_skipn. f_equal. lia.
Qed.

(** [text.find(sub, start)] for [start >= 0]: either [-1] and [sub] occurs
    nowhere from [start] on, or the first occurrence at or after [start]. *)
Lemma find_spec (text sub : str) (start : Z) :
  0 <= start ->
  let e := find text sub start in
  (e = -1 /\ forall j, start <= j -> ~ occurs_at text sub j)
  \/ (start <= e /\ e + len sub <= len text /\ occurs_at text sub e
      /\ forall j, start <= j < e -> ~ occurs_at text sub j).
Proof.
  intros Hs. cbn zeta. unfold find.
  destruct (start <? 0) eqn:Eneg; [apply Z.ltb_lt in Eneg; lia|].
  destruct (len text <? start) eqn:Elen.
  - left. split; [reflexivity|]. apply Z.ltb_lt in Elen.
    intros j Hj [Hr _]. lia.
  - apply Z.ltb_ge in Elen.
    assert (Hsk : len (skipn (Z.to_nat start) text) = len text - start).
    { unfold len in *. rewrite length_skipn. lia. }
    destruct (find_from_spec sub (skipn (Z.to_nat start) text) start Hs)
      as [[He Hno] | (Hle & Hfit & Hocc & Hfirst)].
    + left. split; [assumption|]. intros j Hj [_ Hocc].
      specialize (Hno (j - start) ltac:(lia)).
      rewrite skipn_skipn_Z in Hno by lia.
      replace (start + (j - start)) with j in Hno by lia. congruence.
    + right. rewrite skipn_skipn_Z in Hocc by lia.
      replace (start + (find_from (skipn (Z.to_nat start) text) sub start
                        - start))
        with (find_from (skipn (Z.to_nat start) text) sub start) in Hocc
        by lia.
      pose proof (len_nonneg sub).
      repeat split; try lia; try assumption.
      intros j Hj [_ Hoj].
      specialize (Hfirst (j - start) ltac:(lia)).
      rewrite skipn_skipn_Z in Hfirst by lia.
      replace (start + (j - start)) with j in Hfirst by lia. congruence.
Qed.

(** A successful [find] from a non-negative [start] returns an index in
    [[start, len text - len sub]]. *)
Lemma find_bounds (text sub : str) (start : Z) :
  0 <= start -> find text sub start <> -1 ->
  start <= find text sub start
  /\ find text sub start + len sub <= len text.
Proof.
  intros Hs Hne. destruct (find_spec text sub start Hs) as [[He _]|H].
  - contradiction.
  - destruct H as (H1 & H2 & _). split; assumption.
Qed.

End FindFacts.

(** ** UTF-16 code units *)

Section Utf16Facts.

Lemma len_app (s t : str) : len (s ++ t) = len s + len t.
Proof. unfold len. rewrite length_app. lia. Qed.

(** A text has at least as many code units as code points. *)
Lemma len_units (text : str) : len text <= len (Utf16.units text).
Proof.
  induction text as [|c text IH]; [reflexivity|].
  cbn [Utf16.units flat_map]. fold (Utf16.units text).
  rewrite len_app, len_cons. unfold Utf16.units_of.
  destruct (c <? 65536); unfold len in *; cbn [List.length]; lia.
Qed.

(** A text of the Basic Multilingual Plane is its own code units. *)
Lemma units_bmp (text : str) :
  forallb Utf16.bmp text = true -> Utf16.units text = text.
Proof.
  induction text as [|c text IH]; [reflexivity|].
  cbn [forallb]. rewrite andb_true_iff. intros [Hc Ht].
  cbn [Utf16.units flat_map]. fold (Utf16.units text).
  rewrite (IH Ht). unfold Utf16.units_of. unfold Utf16.bmp in Hc.
  now rewrite Hc.
Qed.

End Utf16Facts.

(** ** The regular-expression matcher: its bounds are never reached *)

Section MatcherFacts.

Import Regex.

Variable text : str.

Lemma startswith_fits (i : nat) (s : str) :
  (i <= List.length text)%nat -> startswith (skipn i text) s = true ->
  (i + List.length s <= List.length text)%nat.
Proof.
  intros Hi H. apply startswith_length in H. unfold len in H.
  rewrite length_skipn in H. lia.
Qed.

Lemma one_char_local p : local text (one_char text p).
Proof.
  intros i k k' Hi Hk. unfold one_char.
  destruct (nth_error text i) as [c|] eqn:E; [|reflexivity].
  destruct (p c); [|reflexivity].
  apply Hk.
  assert (i < List.length text)%nat by (apply nth_error_Some; congruence).
  lia.
Qed.

Lemma one_char_forward p : forward text (one_char text p).
Proof.
  intros i k e Hi. unfold one_char.
  destruct (nth_error text i) as [c|] eqn:E; [|discriminate].
  destruct (p c); [|discriminate].
  intros H. exists (S i). split; [|assumption].
  assert (i < List.length text)%nat by (apply nth_error_Some; congruence).
  lia.
Qed.

Lemma repeat_match_local greedy m n :
  local text m -> local text (fun i k => repeat_match greedy m k n i).
Proof.
  intros Hm. induction n as [|n IH]; intros i k k' Hi Hk;
    cbn [repeat_match].
  - apply Hk. lia.
  - assert (Hagain :
      m i (fun j => if (i <? j)%nat then repeat_match greedy m k n j
                    else k j)
      = m i (fun j => if (i <? j)%nat then repeat_match greedy m k' n j
                      else k' j)).
    { apply Hm; [assumption|]. intros j Hj.
      destruct (Nat.ltb_spec i j).
      - apply IH; [lia|]. intros j' Hj'. apply Hk. lia.
      - apply Hk. lia. }
    rewrite Hagain, (Hk i) by lia. reflexivity.
Qed.

Lemma repeat_match_forward greedy m n :
  forward text m -> forward text (fun i k => repeat_match greedy m k n i).
Proof.
  intros Hm. induction n as [|n IH]; intros i k e Hi; cbn [repeat_match].
  - intros H. exists i. split; [lia | assumption].
  - set (again := m i _).
    assert (Hagain : again = Some e ->
              exists j, (i <= j <= List.length text)%nat /\ k j = Some e).
    { unfold again. intros H. apply Hm in H; [|assumption].
      destruct H as (j & Hj & H).
      destruct (Nat.ltb_spec i j).
      - apply IH in H; [|lia]. destruct H as (j' & Hj' & H).
        exists j'. split; [lia | assumption].
      - exists j. split; [lia | assumption]. }
    assert (Hk : k i = Some e ->
              exists j, (i <= j <= List.length text)%nat /\ k j = Some e)
      by (intros H; exists i; split; [lia | assumption]).
    destruct greedy; unfold or_else.
    + destruct again; [|exact Hk]. exact Hagain.
    + destruct (k i); [|exact Hagain]. exact Hk.
Qed.

(** Past the length of the line the bound of an iteration plays no role. *)
Lemma repeat_match_enough greedy m k :
  local text m ->
  forall n n' i,
    (i <= List.length text)%nat ->
    (List.length text - i < n)%nat -> (List.length text - i < n')%nat ->
    repeat_match greedy m k n i = repeat_match greedy m k n' i.
Proof.
  intros Hm. induction n as [|n IH]; intros n' i Hi Hn Hn'; [lia|].
  destruct n' as [|n']; [lia|]. cbn [repeat_match].
  assert (Hagain :
    m i (fun j => if (i <? j)%nat then repeat_match greedy m k n j
                  else k j)
    = m i (fun j => if (i <? j)%nat then repeat_match greedy m k n' j
                    else k j)).
  { apply Hm; [assumption|]. intros j Hj.
    destruct (Nat.ltb_spec i j); [|reflexivity].
    apply IH; lia. }
  rewrite Hagain. reflexivity.
Qed.

Lemma rmatch_local (r : regex) : local text (rmatch text r).
Proof.
  induction r as [s|c| |p| |r1 IHr1 r2 IHr2|r IHr|r IHr|r IHr|r IHr|r IHr
                 |w r IHr];
    intros i k k' Hi Hk; cbn [rmatch].
  - destruct (startswith (skipn i text) s) eqn:E; [|reflexivity].
    apply Hk. pose proof (startswith_fits i s Hi E). lia.
  - now apply one_char_local.
  - now apply one_char_local.
  - now apply one_char_local.
  - destruct (at_word_boundary text i); [|reflexivity]. apply Hk. lia.
  - apply IHr1; [assumption|]. intros j Hj.
    apply IHr2; [lia|]. intros j' Hj'. apply Hk. lia.
  - now apply (repeat_match_local true (rmatch text r) _ IHr).
  - now apply (repeat_match_local false (rmatch text r) _ IHr).
  - apply IHr; [assumption|]. intros j Hj.
    apply (repeat_match_local true (rmatch text r) _ IHr); [lia|].
    intros j' Hj'. apply Hk. lia.
  - rewrite (IHr i k k' Hi Hk), (Hk i) by lia. reflexivity.
  - rewrite (Hk i) by lia. reflexivity.
  - rewrite (Hk i) by lia. reflexivity.
Qed.

(** The bound [S (length text)] that [rmatch] gives to an iteration is as
    good as any larger one. *)
Lemma star_bound_unreached (r : regex) greedy k (n i : nat) :
  (i <= List.length text)%nat -> (List.length text < n)%nat ->
  repeat_match greedy (rmatch text r) k (S (List.length text)) i
  = repeat_match greedy (rmatch text r) k n i.
Proof.
  intros Hi Hn. apply repeat_match_enough; try lia.
  apply rmatch_local.
Qed.

Lemma rmatch_forward (r : regex) : forward text (rmatch text r).
Proof.
  induction r as [s|c| |p| |r1 IHr1 r2 IHr2|r IHr|r IHr|r IHr|r IHr|r IHr
                 |w r IHr];
    intros i k e Hi; cbn [rmatch].
  - destruct (startswith (skipn i text) s) eqn:E; [|discriminate].
    intros H. pose proof (startswith_fits i s Hi E).
    exists (i + List.length s)%nat. split; [lia | assumption].
  - now apply one_char_forward.
  - now apply one_char_forward.
  - now apply one_char_forward.
  - destruct (at_word_boundary text i); [|discriminate].
    intros H. exists i. split; [lia | assumption].
  - intros H. apply IHr1 in H; [|assumption]. destruct H as (j & Hj & H).
    apply IHr2 in H; [|lia]. destruct H as (j' & Hj' & H).
    exists j'. split; [lia | assumption].
  - now apply (repeat_match_forward true (rmatch text r) _ IHr).
  - now apply (repeat_match_forward false (rmatch text r) _ IHr).
  - intros H. apply IHr in H; [|assumption]. destruct H as (j & Hj & H).
    apply (repeat_match_forward true (rmatch text r) _ IHr) in H; [|lia].
    destruct H as (j' & Hj' & H). exists j'. split; [lia | assumption].
  - unfold or_else. destruct (rmatch text r i k) eqn:E.
    + intros H. rewrite <- H in *. now apply IHr.
    + intros H. exists i. split; [lia | assumption].
  - destruct (rmatch text r i _); [|discriminate].
    intros H. exists i. split; [lia | assumption].
  - destruct (w <=? i)%nat; [|discriminate].
    destruct (rmatch text r (i - w) _); [|discriminate].
    intros H. exists i. split; [lia | assumption].
Qed.

(** A match lies within the line and does not end before it starts. *)
Lemma match_at_range (r : regex) (i e : nat) :
  (i <= List.length text)%nat -> match_at text r i = Some e ->
  (i <= e <= List.length text)%nat.
Proof.
  intros Hi H. apply rmatch_forward in H; [|assumption].
  destruct H as (j & Hj & H). inversion H; subst. exact Hj.
Qed.

Lemma search_range (r : regex) (n pos s e : nat) :
  search text r n pos = Some (s, e) ->
  (pos <= s <= e)%nat /\ (e <= List.length text)%nat.
Proof.
  revert pos. induction n as [|n IH]; intros pos; cbn [search];
    [discriminate|].
  destruct (Nat.ltb_spec (List.length text) pos) as [Hlt|Hle];
    [discriminate|].
  destruct (match_at text r pos) as [e'|] eqn:E.
  - intros Heq; inversion Heq; subst.
    pose proof (match_at_range r s e ltac:(lia) E). lia.
  - intros Heq. apply IH in Heq. lia.
Qed.

Lemma search_enough (r : regex) (n n' pos : nat) :
  (List.length text - pos < n)%nat -> (List.length text - pos < n')%nat ->
  search text r n pos = search text r n' pos.
Proof.
  revert n' pos. induction n as [|n IH]; intros n' pos Hn Hn'; [lia|].
  destruct n' as [|n']; [lia|]. cbn [search].
  destruct (Nat.ltb_spec (List.length text) pos) as [Hlt|Hle];
    [reflexivity|].
  destruct (match_at text r pos); [reflexivity|].
  destruct (Nat.eq_dec pos (List.length text)) as [->|Hne].
  - (* the next position is past the end: both searches stop *)
    destruct n as [|n], n' as [|n']; cbn [search];
      try reflexivity;
      destruct (Nat.ltb_spec (List.length text) (S (List.length text)));
      try reflexivity; lia.
  - apply IH; lia.
Qed.

(** [globalMatch] finds every match: a larger bound on their number gives
    the same list. *)
Lemma globalMatch_from_enough (r : regex) (n n' pos : nat) :
  (S (List.length text) - pos < n)%nat ->
  (S (List.length text) - pos < n')%nat ->
  globalMatch_from text r n pos = globalMatch_from text r n' pos.
Proof.
  revert n' pos. induction n as [|n IH]; intros n' pos Hn Hn'; [lia|].
  destruct n' as [|n']; [lia|]. cbn [globalMatch_from].
  destruct (search text r (S (S (List.length text))) pos) as [[s e]|] eqn:E;
    [|reflexivity].
  pose proof (search_range _ _ _ _ _ E) as Hr.
  f_equal. destruct (Nat.ltb_spec s e); apply IH; lia.
Qed.

Lemma globalMatch_enough (r : regex) (n : nat) :
  (S (S (List.length text)) <= n)%nat ->
  globalMatch_from text r n 0 = globalMatch text r.
Proof.
  intros Hn. unfold globalMatch. apply globalMatch_from_enough; lia.
Qed.

(** Every match reported lies within the line. *)
Lemma globalMatch_from_in_line (r : regex) (n pos : nat) (m : Z * Z) :
  In m (globalMatch_from text r n pos) ->
  Z.of_nat pos <= fst m /\ 0 <= snd m /\ fst m + snd m <= len text.
Proof.
  revert pos. induction n as [|n IH]; intros pos; cbn [globalMatch_from];
    [intros []|].
  destruct (search text r (S (S (List.length text))) pos) as [[s e]|] eqn:E;
    [|intros []].
  pose proof (search_range _ _ _ _ _ E) as Hr.
  intros [<-|Hin].
  - cbn [fst snd]. unfold len. lia.
  - apply IH in Hin. destruct (Nat.ltb_spec s e); lia.
Qed.

Lemma globalMatch_in_line (r : regex) (m : Z * Z) :
  In m (globalMatch text r) ->
  0 <= fst m /\ 0 <= snd m /\ fst m + snd m <= len text.
Proof.
  unfold globalMatch. intros H.
  apply globalMatch_from_in_line in H. lia.
Qed.

End MatcherFacts.

(** The spans of the single-line rules lie within the block. *)
Lemma rule_spans_in_line rules text :
  Forall (fun sp => 0 <= span_start sp /\ 0 <= span_count sp
                    /\ span_start sp + span_count sp
                       <= len (Utf16.units text))
         (rule_spans rules text).
Proof.
  unfold rule_spans. apply Forall_forall. intros sp Hin.
  apply in_flat_map in Hin. destruct Hin as (rule & _ & Hin).
  apply in_map_iff in Hin. destruct Hin as (m & <- & Hm).
  cbn [span_start span_count]. unfold globalMatch_of in Hm. cbn zeta in Hm.
  destruct (Utf16.well_formed (Utf16.units text)); [|contradiction].
  exact (globalMatch_in_line (Utf16.units text) (fst rule) m Hm).
Qed.

(** ** Rendering of [setFormat] calls *)

Section RenderingFacts.

Lemma coversb_spec (sp : Span) (i : Z) :
  coversb sp i = true <-> covers sp i.
Proof.
  unfold coversb, covers. rewrite !andb_true_iff.
  rewrite !Z.leb_le, Z.ltb_lt. tauto.
Qed.

Lemma coversb_false (sp : Span) (i : Z) :
  coversb sp i = false <-> ~ covers sp i.
Proof.
  rewrite <- coversb_spec. destruct (coversb sp i); split; congruence.
Qed.

Lemma paint_from_length i start stop f buf :
  List.length (paint_from i start stop f buf) = List.length buf.
Proof.
  revert i. induction buf as [|x buf IH]; intros i; cbn; [reflexivity|].
  now rewrite IH.
Qed.

Lemma paint_length buf sp : List.length (paint buf sp) = List.length buf.
Proof.
  unfold paint.
  destruct ((span_start sp <? 0) || _); [reflexivity|].
  apply paint_from_length.
Qed.

Lemma nth_paint_from (k : nat) i start stop f buf d :
  (k < List.length buf)%nat ->
  nth k (paint_from i start stop f buf) d
  = if (start <=? i + Z.of_nat k) && (i + Z.of_nat k <? stop)
    then f else nth k buf d.
Proof.
  revert k i. induction buf as [|x buf IH]; intros k i Hk; cbn in Hk.
  - lia.
  - destruct k as [|k]; cbn [paint_from nth].
    + now rewrite Z.add_0_r.
    + rewrite IH by lia.
      replace (i + 1 + Z.of_nat k) with (i + Z.of_nat (S k)) by lia.
      reflexivity.
Qed.

(** One call of [setFormat] changes exactly the slots it covers. *)
Lemma nth_paint (buf : list QTextCharFormat) (sp : Span) (i : Z) d :
  0 <= i < Z.of_nat (List.length buf) ->
  nth (Z.to_nat i) (paint buf sp) d
  = if coversb sp i then span_format sp else nth (Z.to_nat i) buf d.
Proof.
  intros Hi. unfold paint, coversb.
  destruct (span_start sp <? 0) eqn:E0; cbn [orb].
  - apply Z.ltb_lt in E0.
    replace (0 <=? span_start sp) with false
      by (symmetry; apply Z.leb_gt; lia).
    reflexivity.
  - apply Z.ltb_ge in E0.
    replace (0 <=? span_start sp) with true
      by (symmetry; apply Z.leb_le; lia).
    cbn [andb].
    destruct (Z.of_nat (List.length buf) <=? span_start sp) eqn:E1.
    + apply Z.leb_le in E1.
      replace (span_start sp <=? i) with false
        by (symmetry; apply Z.leb_gt; lia).
      reflexivity.
    + rewrite nth_paint_from by lia.
      rewrite Z2Nat.id by lia. cbn [Z.add].
      destruct (span_start sp <=? i); cbn [andb]; [|reflexivity].
      destruct (i <? span_start sp + span_count sp) eqn:E2.
      * replace (i <? Z.min (span_start sp + span_count sp)
                            (Z.of_nat (List.length buf))) with true
          by (symmetry; apply Z.ltb_lt; apply Z.ltb_lt in E2; lia).
        reflexivity.
      * replace (i <? Z.min (span_start sp + span_count sp)
                            (Z.of_nat (List.length buf))) with false
          by (symmetry; apply Z.ltb_ge; apply Z.ltb_ge in E2; lia).
        reflexivity.
Qed.

Lemma fold_paint_length calls buf :
  List.length (fold_left paint calls buf) = List.length buf.
Proof.
  revert buf. induction calls as [|sp calls IH]; intros buf; cbn.
  - reflexivity.
  - rewrite IH. apply paint_length.
Qed.

Lemma nth_fold_paint calls buf (i : Z) d :
  0 <= i < Z.of_nat (List.length buf) ->
  nth (Z.to_nat i) (fold_left paint calls buf) d
  = overlay calls i (nth (Z.to_nat i) buf d).
Proof.
  revert buf. induction calls as [|sp calls IH]; intros buf Hi; cbn.
  - reflexivity.
  - rewrite IH by (rewrite paint_length; assumption).
    rewrite nth_paint by assumption. reflexivity.
Qed.

(** Qt's buffer of format changes shows, at every offset of the block, the
    overlay of the calls over the default format. *)
Lemma format_at_overlay (text : str) (calls : list Span) (i : Z) :
  0 <= i < len (Utf16.units text) ->
  format_at text calls i = overlay calls i default_format.
Proof.
  intros Hi. unfold format_at, formatChanges.
  rewrite nth_fold_paint by (rewrite repeat_length; exact Hi).
  f_equal. apply nth_repeat_lt. unfold len in Hi. lia.
Qed.

Lemma overlay_app l1 l2 i f :
  overlay (l1 ++ l2) i f = overlay l2 i (overlay l1 i f).
Proof. unfold overlay. apply fold_left_app. Qed.

Lemma overlay_uncovered calls i f :
  Forall (fun sp => ~ covers sp i) calls -> overlay calls i f = f.
Proof.
  revert f. induction calls as [|sp calls IH]; intros f H; cbn.
  - reflexivity.
  - apply Forall_cons_iff in H. destruct H as [Hsp Hrest].
    apply coversb_false in Hsp. rewrite Hsp. now apply IH.
Qed.

(** Last write wins: the last call that covers [i] decides its format. *)
Lemma overlay_last_write l1 sp l2 i f :
  covers sp i -> Forall (fun s => ~ covers s i) l2 ->
  overlay (l1 ++ sp :: l2) i f = span_format sp.
Proof.
  intros Hc Hl2. rewrite overlay_app. cbn.
  apply coversb_spec in Hc. change (fold_left _ l2 ?x) with (overlay l2 i x).
  rewrite Hc. now apply overlay_uncovered.
Qed.

(** Calls that all write the format [g] leave [g] wherever it already is. *)
Lemma overlay_same_format calls i g :
  Forall (fun sp => span_format sp = g) calls -> overlay calls i g = g.
Proof.
  induction calls as [|sp calls IH]; intros H; cbn.
  - reflexivity.
  - apply Forall_cons_iff in H. destruct H as [Hsp Hrest].
    rewrite Hsp. destruct (coversb sp i); now apply IH.
Qed.

Lemma overlay_covered_same_format l1 sp l2 i f :
  covers sp i ->
  Forall (fun s => span_format s = span_format sp) l2 ->
  overlay (l1 ++ sp :: l2) i f = span_format sp.
Proof.
  intros Hc Hl2. rewrite overlay_app. cbn.
  apply coversb_spec in Hc. rewrite Hc.
  change (fold_left _ l2 ?x) with (overlay l2 i x).
  now apply overlay_same_format.
Qed.

End RenderingFacts.

(** ** The multi-line string scanner *)

Section ScanFacts.

Lemma len_triple_single : len triple_single = 3.
Proof. reflexivity. Qed.

Lemma len_triple_double : len triple_double = 3.
Proof. reflexivity. Qed.

(** One iteration of the loop, in terms of [next_opener]. *)
Lemma scan_multiline_S fuel text start_index st :
  scan_multiline (S fuel) text start_index st
  = if start_index <? len text then
      match next_opener text start_index with
      | None => Some st
      | Some (opener, delimiter, state) =>
          let end_index := find text delimiter (opener + 3) in
          if end_index =? -1 then
            Some (setFormat opener (len text - opener) string_format
                    (setCurrentBlockState state st))
          else
            scan_multiline fuel text (end_index + 3)
              (setFormat opener (end_index - opener + 3) string_format st)
      end
    else Some st.
Proof.
  cbn [scan_multiline]. unfold next_opener.
  destruct (start_index <? len text); [|reflexivity].
  destruct ((find text triple_single start_index =? -1)
            && (find text triple_double start_index =? -1));
    [reflexivity|].
  destruct ((find text triple_double start_index =? -1)
            || (negb (find text triple_single start_index =? -1)
                && (find text triple_single start_index
                    <? find text triple_double start_index)));
    cbn zeta; rewrite ?len_triple_single, ?len_triple_double;
    match goal with
    | |- context [find text ?d (?o + 3) =? -1] =>
        destruct (find text d (o + 3) =? -1); [reflexivity|];
        replace (o + (find text d (o + 3) - o + 3))
          with (find text d (o + 3) + 3) by lia; reflexivity
    end.
Qed.

(** The opener chosen is the earliest triple quote at or after
    [start_index], and its state tells which delimiter it is. *)
Lemma next_opener_some text start_index opener delimiter state :
  0 <= start_index ->
  next_opener text start_index = Some (opener, delimiter, state) ->
  ((delimiter = triple_single /\ state = 1)
   \/ (delimiter = triple_double /\ state = 2))
  /\ opener = find text delimiter start_index
  /\ start_index <= opener /\ opener + 3 <= len text
  /\ occurs_at text delimiter opener
  /\ forall j, start_index <= j < opener ->
       ~ occurs_at text triple_single j /\ ~ occurs_at text triple_double j.
Proof.
  intros Hs. unfold next_opener.
  destruct (find_spec text triple_single start_index Hs)
    as [[Es Ns] | (Ls & Fs & Os & Ps)];
  destruct (find_spec text triple_double start_index Hs)
    as [[Ed Nd] | (Ld & Fd & Od & Pd)];
  rewrite ?len_triple_single, ?len_triple_double in *.
  - rewrite Es, Ed. cbn. discriminate.
  - rewrite Es. cbn [Z.eqb andb negb orb].
    destruct (find text triple_double start_index =? -1) eqn:E;
      [apply Z.eqb_eq in E; lia|]. cbn.
    intros H; inversion H; subst; clear H.
    repeat split_and; auto; try lia.
    intros j Hj; split; [apply Ns | apply Pd]; lia.
  - rewrite Ed.
    destruct (find text triple_single start_index =? -1) eqn:E;
      [apply Z.eqb_eq in E; lia|]. cbn.
    intros H; inversion H; subst; clear H.
    repeat split_and; auto; try lia.
    intros j Hj; split; [apply Ps | apply Nd]; lia.
  - destruct (find text triple_single start_index =? -1) eqn:E1;
      [apply Z.eqb_eq in E1; lia|].
    destruct (find text triple_double start_index =? -1) eqn:E2;
      [apply Z.eqb_eq in E2; lia|].
    cbn [andb negb orb].
    destruct (find text triple_single start_index
              <? find text triple_double start_index) eqn:E3;
      intros H; inversion H; subst; clear H;
      [apply Z.ltb_lt in E3 | apply Z.ltb_ge in E3];
      (repeat split_and; auto; try lia;
       intros j Hj; split; [apply Ps | apply Pd]; lia).
Qed.

Lemma next_opener_none text start_index :
  0 <= start_index ->
  (next_opener text start_index = None
   <-> find text triple_single start_index = -1
       /\ find text triple_double start_index = -1).
Proof.
  intros Hs. unfold next_opener.
  destruct (Z.eqb_spec (find text triple_single start_index) (-1)) as [E1|E1];
  destruct (Z.eqb_spec (find text triple_double start_index) (-1)) as [E2|E2];
  cbn [andb orb negb].
  - tauto.
  - split; [discriminate | tauto].
  - split; [discriminate | tauto].
  - destruct (_ <? _); split; try discriminate; tauto.
Qed.

(** The closing delimiter of a chosen opener lies after it, so the next
    scan position is past the current one and within the line. *)
Lemma closer_advances text start_index opener delimiter state :
  0 <= start_index ->
  next_opener text start_index = Some (opener, delimiter, state) ->
  find text delimiter (opener + 3) <> -1 ->
  start_index < find text delimiter (opener + 3) + 3 <= len text.
Proof.
  intros Hs Ho Hc.
  destruct (next_opener_some _ _ _ _ _ Hs Ho)
    as (Hd & _ & Hle & _ & _ & _).
  assert (Hl : len delimiter = 3)
    by (destruct Hd as [[-> _]|[-> _]]; reflexivity).
  destruct (find_bounds text delimiter (opener + 3) ltac:(lia) Hc) as [H1 H2].
  lia.
Qed.

(** The loop ends within [fuel] iterations as soon as [fuel] exceeds the
    number of characters left. *)
Lemma scan_multiline_terminates fuel text start_index st :
  0 <= start_index ->
  (Z.to_nat (len text - start_index) < fuel)%nat ->
  exists r, scan_multiline fuel text start_index st = Some r.
Proof.
  revert start_index st.
  induction fuel as [|fuel IH]; intros start_index st Hs Hf; [lia|].
  rewrite scan_multiline_S.
  destruct (start_index <? len text) eqn:E; [|eauto].
  apply Z.ltb_lt in E.
  destruct (next_opener text start_index) as [[[opener delimiter] state]|]
    eqn:Ho; [|eauto].
  cbn zeta.
  destruct (find text delimiter (opener + 3) =? -1) eqn:Ec; [eauto|].
  apply Z.eqb_neq in Ec.
  pose proof (closer_advances _ _ _ _ _ Hs Ho Ec) as Hadv.
  apply IH; lia.
Qed.

(** More fuel does not change a result. *)
Lemma scan_multiline_mono n m text start_index st r :
  scan_multiline n text start_index st = Some r -> (n <= m)%nat ->
  scan_multiline m text start_index st = Some r.
Proof.
  revert m start_index st.
  induction n as [|n IH]; intros m start_index st H Hm; [discriminate|].
  destruct m as [|m]; [lia|].
  rewrite scan_multiline_S in *.
  destruct (start_index <? len text); [|assumption].
  destruct (next_opener text start_index) as [[[opener delimiter] state]|];
    [|assumption].
  cbn zeta in *.
  destruct (find text delimiter (opener + 3) =? -1); [assumption|].
  apply IH; [assumption | lia].
Qed.

(** With enough fuel the result does not depend on the fuel. *)
Lemma scan_multiline_enough n text start_index st :
  0 <= start_index ->
  (Z.to_nat (len text - start_index) < n)%nat ->
  scan_multiline n text start_index st
  = scan_multiline (enough text) text start_index st.
Proof.
  intros Hs Hn.
  destruct (scan_multiline_terminates n text start_index st Hs Hn)
    as [r Hr].
  assert (He : (Z.to_nat (len text - start_index) < enough text)%nat)
    by (unfold enough, len; lia).
  destruct (scan_multiline_terminates _ text start_index st Hs He)
    as [r' Hr'].
  rewrite Hr, Hr'.
  destruct (Nat.le_ge_cases n (enough text)) as [Hle|Hle].
  - rewrite (scan_multiline_mono _ _ _ _ _ _ Hr Hle) in Hr'. assumption.
  - rewrite (scan_multiline_mono _ _ _ _ _ _ Hr' Hle) in Hr.
    symmetry. assumption.
Qed.

(** The scanner only appends calls, all with the string format. *)
Lemma scan_multiline_spans fuel text start_index st r :
  scan_multiline fuel text start_index st = Some r ->
  exists added,
    spans r = spans st ++ added
    /\ Forall (fun sp => span_format sp = string_format) added.
Proof.
  revert start_index st.
  induction fuel as [|fuel IH]; intros start_index st H; [discriminate|].
  rewrite scan_multiline_S in H.
  assert (Hnone : Some st = Some r -> exists added,
             spans r = spans st ++ added
             /\ Forall (fun sp => span_format sp = string_format) added).
  { intros E; inversion E; subst. exists []. rewrite app_nil_r. auto. }
  destruct (start_index <? len text); [|auto].
  destruct (next_opener text start_index) as [[[opener delimiter] state]|];
    [|auto].
  cbn zeta in H.
  destruct (find text delimiter (opener + 3) =? -1).
  - inversion H; subst. cbn. eexists. split; [reflexivity|].
    constructor; [reflexivity | constructor].
  - apply IH in H. destruct H as (added & Hsp & Hall). cbn in Hsp.
    rewrite <- app_assoc in Hsp. cbn in Hsp.
    eexists. split; [exact Hsp|].
    constructor; [reflexivity | assumption].
Qed.

End ScanFacts.

(** ** [highlightBlock] *)

Section HighlightFacts.

Lemma apply_rule_spans text st rule :
  apply_rule text st rule
  = mkBlock (spans st ++ rule_spans [rule] text) (currentBlockState st).
Proof.
  destruct rule as [pattern format_rule]. unfold apply_rule, rule_spans.
  cbn [flat_map fst snd]. rewrite app_nil_r.
  generalize (globalMatch_of text pattern) as ms.
  intros ms. revert st. induction ms as [|m ms IH]; intros st; cbn.
  - rewrite app_nil_r. now destruct st.
  - rewrite IH. cbn. now rewrite <- app_assoc.
Qed.

(** The single-line pass appends the rules' spans in registration order and
    leaves the block state alone. *)
Lemma apply_rules_spans rules text st :
  apply_rules rules text st
  = mkBlock (spans st ++ rule_spans rules text) (currentBlockState st).
Proof.
  unfold apply_rules. revert st.
  induction rules as [|rule rules IH]; intros st; cbn [fold_left].
  - cbn. rewrite app_nil_r. now destruct st.
  - rewrite IH, apply_rule_spans. cbn [spans currentBlockState].
    rewrite <- app_assoc. f_equal. f_equal.
    unfold rule_spans. cbn [flat_map]. now rewrite app_nil_r.
Qed.

Lemma rule_spans_app rules1 rules2 text :
  rule_spans (rules1 ++ rules2) text
  = rule_spans rules1 text ++ rule_spans rules2 text.
Proof. unfold rule_spans. apply flat_map_app. Qed.

Lemma highlightBlock_unfold fuel text prev st :
  highlightBlock fuel text prev st
  = let delimiter :=
      if prev =? 1 then triple_single
      else if prev =? 2 then triple_double else [] in
    if 0 <? prev then
      if find text delimiter 0 =? -1 then
        Some (setFormat 0 (len text) string_format
                (setCurrentBlockState prev (after_rules text st)))
      else
        scan_multiline fuel text (find text delimiter 0 + len delimiter)
          (setFormat 0 (find text delimiter 0 + len delimiter) string_format
             (after_rules text st))
    else scan_multiline fuel text 0 (after_rules text st).
Proof.
  unfold highlightBlock. rewrite apply_rules_spans. reflexivity.
Qed.

(** The scan position after a continued string is closed is not negative. *)
Lemma resume_nonneg text prev :
  let delimiter :=
    if prev =? 1 then triple_single
    else if prev =? 2 then triple_double else [] in
  find text delimiter 0 <> -1 -> 0 <= find text delimiter 0 + len delimiter.
Proof.
  cbn zeta. intros E.
  destruct (find_bounds _ _ 0 ltac:(lia) E) as [H0 _].
  pose proof (len_nonneg (if prev =? 1 then triple_single
                          else if prev =? 2 then triple_double else [])).
  lia.
Qed.

(** Beyond [enough text] iterations the fuel plays no role. *)
Lemma highlightBlock_enough fuel text prev st :
  (enough text <= fuel)%nat ->
  highlightBlock fuel text prev st
  = highlightBlock (enough text) text prev st.
Proof.
  intros Hf. rewrite !highlightBlock_unfold. cbn zeta.
  assert (Hfuel : forall s, 0 <= s -> (Z.to_nat (len text - s) < fuel)%nat)
    by (intros s Hs; unfold enough, len in *; lia).
  destruct (0 <? prev).
  - destruct (find text _ 0 =? -1) eqn:E; [reflexivity|].
    apply Z.eqb_neq in E. pose proof (resume_nonneg text prev E) as H0.
    cbn zeta in H0. apply scan_multiline_enough; auto.
  - apply scan_multiline_enough; [lia | apply Hfuel; lia].
Qed.

(** [highlightBlock] returns within [enough text] iterations of its loop. *)
Lemma highlightBlock_returns text prev st :
  exists r, highlightBlock (enough text) text prev st = Some r.
Proof.
  rewrite highlightBlock_unfold. cbn zeta.
  assert (Hfuel : forall s, 0 <= s ->
            (Z.to_nat (len text - s) < enough text)%nat)
    by (intros s Hs; unfold enough, len in *; lia).
  destruct (0 <? prev).
  - destruct (find text _ 0 =? -1) eqn:E; [eauto|].
    apply Z.eqb_neq in E. pose proof (resume_nonneg text prev E) as H0.
    cbn zeta in H0. apply scan_multiline_terminates; auto.
  - apply scan_multiline_terminates; [lia | apply Hfuel; lia].
Qed.

End HighlightFacts.

(** ** The highlighter on sample lines *)

(** Scenario A of the specification: on [x = 1  # comment] the comment rule
    styles [# comment], the number rule, registered after it, styles [1],
    and the line leaves state 0. *)
Example scenario_A :
  rehighlight plain_line (-1) (-1)
  = Some (mkBlock [mkSpan 7 9 comment_format; mkSpan 4 1 number_format] 0).
Proof. vm_compute. reflexivity. Qed.

(** One line can close a multi-line string and open another one that it
    leaves open. *)
Example two_strings_on_one_line :
  rehighlight two_strings 0 (-1)
  = Some (mkBlock [mkSpan 8 2 string_format; mkSpan 0 2 string_format;
                   mkSpan 2 3 string_format; mkSpan 5 2 string_format;
                   mkSpan 0 7 string_format; mkSpan 8 4 string_format] 2).
Proof. vm_compute. reflexivity. Qed.

(** The number rule backtracks: [3.] is a number in [3.x], and [1a] holds
    none. *)
Example number_pattern_backtracks :
  Regex.globalMatch (of_string "3.x + 1a + 12.5") number_pattern
  = [(0, 2); (11, 4)].
Proof. vm_compute. reflexivity. Qed.

(** [str.find] on the cases the scanner meets. *)
Example find_examples :
  find line1 triple_single 0 = 4
  /\ find line1 triple_single 7 = -1
  /\ find line2 triple_single 0 = 3
  /\ find (of_string "''''''") triple_single 3 = 3
  /\ find (of_string "'''''") triple_single 3 = -1
  /\ find [] [] 0 = 0
  /\ find (of_string "abc") [] 4 = -1.
Proof. repeat split_and; reflexivity. Qed.

(** ** Totality and determinism of the highlighter *)

(** One iteration of the scanning loop either ends the loop, whatever
    fuel is left, or continues strictly further right, within the line. *)
Lemma scan_multiline_advances text start_index st :
  0 <= start_index ->
  (exists r, forall fuel,
      scan_multiline (S fuel) text start_index st = Some r)
  \/ (exists next st',
        start_index < next <= len text
        /\ forall fuel,
             scan_multiline (S fuel) text start_index st
             = scan_multiline fuel text next st').
Proof.
  intros Hs.
  destruct (start_index <? len text) eqn:E.
  - destruct (next_opener text start_index)
      as [[[opener delimiter] state]|] eqn:Ho.
    + destruct (find text delimiter (opener + 3) =? -1) eqn:Ec.
      * left. eexists. intros fuel.
        rewrite scan_multiline_S, E, Ho. cbn zeta. rewrite Ec. reflexivity.
      * right. pose proof Ec as Hc. apply Z.eqb_neq in Hc.
        pose proof (closer_advances _ _ _ _ _ Hs Ho Hc) as Hadv.
        do 2 eexists. split; [exact Hadv|]. intros fuel.
        rewrite scan_multiline_S, E, Ho. cbn zeta. rewrite Ec. reflexivity.
    + left. exists st. intros fuel. now rewrite scan_multiline_S, E, Ho.
  - left. exists st. intros fuel. now rewrite scan_multiline_S, E.
Qed.

(** C7: the per-line highlighting computation is total.  For every line
    text, every incoming state [previousBlockState] and every block,
    [highlightBlock] returns a block (spans and outgoing state) within
    [enough text] iterations of its scanning loop, and any larger number of
    iterations gives the same block; there is no error result.  The loop
    cannot stall: an iteration either ends the loop, whatever fuel is left,
    or goes on from a position strictly further right and not beyond the
    end of the line. *)
Theorem C7_highlighting_is_total :
  (forall (text : str) (previousBlockState : Z) (st : Block),
      exists r,
        highlightBlock (enough text) text previousBlockState st = Some r
        /\ forall fuel, (enough text <= fuel)%nat ->
             highlightBlock fuel text previousBlockState st = Some r)
  /\ (forall (text : str) (start_index : Z) (st : Block),
        0 <= start_index ->
        (exists r, forall fuel,
            scan_multiline (S fuel) text start_index st = Some r)
        \/ (exists next st',
              start_index < next <= len text
              /\ forall fuel,
                   scan_multiline (S fuel) text start_index st
                   = scan_multiline fuel text next st')).
Proof.
  split.
  - intros text prev st.
    destruct (highlightBlock_returns text prev st) as [r Hr].
    exists r. split; [assumption|]. intros fuel Hf.
    now rewrite highlightBlock_enough.
  - intros text start_index st Hs.
    now apply scan_multiline_advances.
Qed.

(** C9: highlighting a line is deterministic and idempotent.  The block
    computed for a line depends only on its text and on the incoming state:
    the state that an earlier highlighting left in the block plays no role,
    so highlighting the line again, with the state of the first result
    stored in the block, gives exactly the same spans and the same outgoing
    state. *)
Theorem C9_highlighting_is_idempotent :
  forall (text : str) (previousBlockState userState : Z),
    (forall userState',
        rehighlight text previousBlockState userState'
        = rehighlight text previousBlockState userState)
    /\ exists r,
        rehighlight text previousBlockState userState = Some r
        /\ rehighlight text previousBlockState (currentBlockState r)
           = Some r.
Proof.
  intros text prev userState.
  assert (Hind : forall u u',
             rehighlight text prev u' = rehighlight text prev u).
  { intros u u'. unfold rehighlight.
    rewrite !highlightBlock_unfold. reflexivity. }
  split; [apply Hind|].
  destruct (highlightBlock_returns text prev (fresh_block userState))
    as [r Hr].
  exists r. split; [exact Hr|]. rewrite (Hind userState). exact Hr.
Qed.

(** ** The multi-line string state machine *)

(** What the scanner finds styled as a string stays styled as a string. *)
Lemma scan_multiline_keeps_string fuel text start_index st r i :
  scan_multiline fuel text start_index st = Some r ->
  0 <= i < len (Utf16.units text) ->
  format_at text (spans st) i = string_format ->
  format_at text (spans r) i = string_format.
Proof.
  intros Hr Hi Hst.
  destruct (scan_multiline_spans _ _ _ _ _ Hr) as (added & Hsp & Hall).
  rewrite format_at_overlay in * by assumption.
  rewrite Hsp, overlay_app, Hst. now apply overlay_same_format.
Qed.

(** A call of [setFormat] with the string format styles what it covers. *)
Lemma setFormat_styles text st start count i :
  0 <= start <= i -> i < start + count -> i < len (Utf16.units text) ->
  format_at text (spans (setFormat start count string_format st)) i
  = string_format.
Proof.
  intros H1 H2 H3. rewrite format_at_overlay by lia.
  cbn [setFormat spans].
  apply (overlay_last_write (spans st) (mkSpan start count string_format) []).
  - unfold covers. cbn. lia.
  - constructor.
Qed.

(** C1: a line entered inside a multi-line string (state 1, [InSingle], or
    2, [InDouble]).  The closing delimiter is searched from the start of the
    line.  When it is absent, the only call added to those of the
    single-line rules is [setFormat(0, len(text), string_format)], and the
    outgoing state is the incoming one.  When it is found, [e] is its first
    occurrence, the call is [setFormat(0, e + 3, string_format)], and the
    result is that of the scan for newly opening strings, started at
    offset [e + 3] on a block in state 0 ([Clean]).  The states are as the
    claim says.  The styling is not: [len(text)] and [e] count code
    points, and Qt reads them as UTF-16 code units, so what is shown as a
    string is the first [len(text)] (or [e + 3]) code units of the block.
    That is the entire line (or the line up to the closing delimiter)
    when the line has no character above U+FFFF, where the two counts
    agree; on [emoji_line] inside a triple double-quoted string, the
    block has four code units, the call covers three, and the last
    character of the line keeps the format of a number.  Scenario B:
    line 1 entered in state [Clean] (0, or -1 for a first line) leaves
    state 1; line 2, entered in that state, is styled as a string on
    offsets 0 to 5, the closing delimiter included, not at offset 6, and
    leaves state 0. *)
Theorem C1_continued_multiline_string :
  (forall (text : str) (previousBlockState userState : Z),
      previousBlockState = 1 \/ previousBlockState = 2 ->
      let delimiter := closing_delimiter previousBlockState in
      let e := find text delimiter 0 in
      let st := after_rules text (fresh_block userState) in
      (e = -1 ->
         (forall j, ~ occurs_at text delimiter j)
         /\ exists r,
             rehighlight text previousBlockState userState = Some r
             /\ currentBlockState r = previousBlockState
             /\ spans r = rule_spans highlighting_rules text
                          ++ [mkSpan 0 (len text) string_format]
             /\ forall i, 0 <= i < len text ->
                  format_at text (spans r) i = string_format)
      /\ (e <> -1 ->
            occurs_at text delimiter e
            /\ (forall j, 0 <= j < e -> ~ occurs_at text delimiter j)
            /\ e + 3 <= len text
            /\ exists r,
                rehighlight text previousBlockState userState = Some r
                /\ scan_multiline (enough text) text (e + 3)
                     (setFormat 0 (e + 3) string_format st) = Some r
                /\ currentBlockState st = 0
                /\ forall i, 0 <= i < e + 3 ->
                     format_at text (spans r) i = string_format))
  /\ (option_map currentBlockState (rehighlight line1 0 (-1)) = Some 1
      /\ option_map currentBlockState (rehighlight line1 (-1) (-1)) = Some 1
      /\ option_map currentBlockState (rehighlight line2 1 (-1)) = Some 0
      /\ option_map (fun r2 => map (format_at line2 (spans r2))
                                   [0; 1; 2; 3; 4; 5; 6])
                    (rehighlight line2 1 (-1))
         = Some (repeat string_format 6 ++ [default_format]))
  /\ (forall text : str,
        forallb Utf16.bmp text = true -> Utf16.units text = text)
  /\ (len emoji_line = 3 /\ len (Utf16.units emoji_line) = 4
      /\ option_map (fun r => (currentBlockState r, spans r,
                               map (format_at emoji_line (spans r))
                                   [0; 1; 2; 3]))
                    (rehighlight emoji_line 2 (-1))
         = Some (2,
                 [mkSpan 3 1 number_format; mkSpan 0 3 string_format],
                 [string_format; string_format; string_format;
                  number_format])).
Proof.
  split; [|split; [|split]].
  - intros text prev userState Hprev delimiter e st.
    pose proof (len_units text) as Hunits.
    assert (Hd : delimiter = (if prev =? 1 then triple_single
                              else if prev =? 2 then triple_double else [])).
    { unfold delimiter, closing_delimiter.
      destruct Hprev as [-> | ->]; reflexivity. }
    assert (Hl : len delimiter = 3).
    { unfold delimiter, closing_delimiter.
      destruct Hprev as [-> | ->]; reflexivity. }
    assert (Hpos : (0 <? prev) = true) by (apply Z.ltb_lt; lia).
    pose proof (find_spec text delimiter 0 ltac:(lia)) as Hfind.
    cbn zeta in Hfind. fold e in Hfind.
    unfold rehighlight. rewrite highlightBlock_unfold. cbn zeta.
    rewrite Hpos, <- Hd. fold e. fold st.
    split; intros He.
    + destruct Hfind as [[_ Hno] | (H0 & _)]; [|lia].
      split.
      { intros j Hj. destruct (Z_le_gt_dec 0 j) as [Hj0|Hj0].
        - now apply (Hno j).
        - destruct Hj as [Hr _]. lia. }
      rewrite He. cbn [Z.eqb Pos.eqb].
      eexists. split; [reflexivity|].
      repeat split_and; try reflexivity.
      intros i Hi. apply setFormat_styles; lia.
    + destruct Hfind as [[He' _] | (H0 & Hfit & Hocc & Hfirst)];
        [contradiction|].
      rewrite Hl in *.
      repeat split_and; try assumption.
      destruct (Z.eqb_spec e (-1)) as [|_]; [contradiction|].
      destruct (scan_multiline_terminates (enough text) text (e + 3)
                  (setFormat 0 (e + 3) string_format st)) as [r Hr];
        [lia | unfold enough, len; lia |].
      exists r. repeat split_and; try assumption; try reflexivity.
      intros i Hi.
      apply (scan_multiline_keeps_string _ _ _ _ _ _ Hr); [lia|].
      apply setFormat_styles; lia.
  - repeat split_and; vm_compute; reflexivity.
  - exact units_bmp.
  - repeat split_and; vm_compute; reflexivity.
Qed.

(** The scanning loop when an opening delimiter was chosen: the two ways
    the iteration goes on, and what is styled in the end. *)
Lemma scan_multiline_opener text start_index st opener delimiter state :
  0 <= start_index < len text ->
  next_opener text start_index = Some (opener, delimiter, state) ->
  let e := find text delimiter (opener + 3) in
  (e = -1 ->
     (forall j, opener + 3 <= j -> ~ occurs_at text delimiter j)
     /\ scan_multiline (enough text) text start_index st
        = Some (setFormat opener (len text - opener) string_format
                  (setCurrentBlockState state st)))
  /\ (e <> -1 ->
        opener + 3 <= e /\ e + 3 <= len text
        /\ occurs_at text delimiter e
        /\ (forall j, opener + 3 <= j < e -> ~ occurs_at text delimiter j)
        /\ scan_multiline (enough text) text start_index st
           = scan_multiline (enough text) text (e + 3)
               (setFormat opener (e - opener + 3) string_format st))
  /\ (forall r,
        scan_multiline (enough text) text start_index st = Some r ->
        forall i,
          opener <= i < (if e =? -1 then len text else e + 3) ->
          format_at text (spans r) i = string_format).
Proof.
  intros Hs Ho e. pose proof (len_units text) as Hunits.
  destruct (next_opener_some _ _ _ _ _ (proj1 Hs) Ho)
    as (Hd & _ & Hle & Hfit & _ & _).
  assert (Hl : len delimiter = 3)
    by (destruct Hd as [[-> _]|[-> _]]; reflexivity).
  pose proof (find_spec text delimiter (opener + 3) ltac:(lia)) as Hfind.
  cbn zeta in Hfind. fold e in Hfind. rewrite Hl in Hfind.
  assert (Hunfold :
    scan_multiline (enough text) text start_index st
    = if e =? -1
      then Some (setFormat opener (len text - opener) string_format
                   (setCurrentBlockState state st))
      else scan_multiline (List.length text) text (e + 3)
             (setFormat opener (e - opener + 3) string_format st)).
  { unfold enough. rewrite scan_multiline_S, Ho.
    replace (start_index <? len text) with true
      by (symmetry; apply Z.ltb_lt; lia).
    reflexivity. }
  repeat split_and.
  - intros He. destruct Hfind as [[_ Hno]|(H1 & _)]; [|lia].
    split; [exact Hno|]. rewrite Hunfold, He. reflexivity.
  - intros He. destruct Hfind as [[He' _]|(H1 & H2 & H3 & H4)];
      [contradiction|].
    repeat split_and; try assumption.
    rewrite Hunfold. destruct (Z.eqb_spec e (-1)); [contradiction|].
    apply scan_multiline_enough; [lia | unfold len in *; lia].
  - intros r Hr i Hi. rewrite Hunfold in Hr.
    destruct (Z.eqb_spec e (-1)) as [He|He].
    + inversion Hr; subst r. apply setFormat_styles; lia.
    + destruct Hfind as [[He' _]|(H1 & H2 & _)]; [contradiction|].
      apply (scan_multiline_keeps_string _ _ _ _ _ _ Hr); [lia|].
      apply setFormat_styles; lia.
Qed.

(** C2: the scan for newly opening multi-line strings, from a position
    [start_index] of the line, on a block [st] (in state 0 when the line is
    entered [Clean] or a continued string has just been closed).  When
    nothing is left to scan or neither delimiter occurs from [start_index]
    on, the scan stops and the block is unchanged.  Otherwise the opener is
    the earliest occurrence of either delimiter.  When its closing delimiter,
    searched from [opener + 3], is absent, the call is
    [setFormat(opener, len(text) - opener, string_format)], the outgoing
    state is 1 or 2 according to the opener, and the loop stops.  When it
    is found at [e], the call is
    [setFormat(opener, e - opener + 3, string_format)], the state of the
    block is not touched, and the scan repeats from [e + 3].  Hence a line
    without triple quotes entered in state [Clean] (0, or -1 for a first
    line) leaves state 0 and gets no span besides those of the single-line
    rules.  The choice of the opener, the repetition and the states are
    as the claim says.  The styling is not: [opener], [e] and [len(text)]
    count code points, and Qt reads them as UTF-16 code units, so what is
    shown as a string is the code units from [opener] up to [len(text)]
    (or [e + 3]).  That is the text from the opener to the end of the
    line (or through the closer) when the line has no character above
    U+FFFF; on [opened_emoji_line] the block has eleven code units, the
    call covers offsets 4 to 9, and the last character of the line keeps
    the format of a number. *)
Theorem C2_opening_multiline_strings :
  (forall (text : str) (start_index : Z) (st : Block),
      0 <= start_index ->
      let start_s := find text triple_single start_index in
      let start_d := find text triple_double start_index in
      (len text <= start_index \/ (start_s = -1 /\ start_d = -1) ->
         scan_multiline (enough text) text start_index st = Some st)
      /\ (start_index < len text -> start_s <> -1 \/ start_d <> -1 ->
            exists opener delimiter state,
              ((delimiter = triple_single /\ state = 1)
               \/ (delimiter = triple_double /\ state = 2))
              /\ start_index <= opener
              /\ occurs_at text delimiter opener
              /\ (forall j, start_index <= j < opener ->
                    ~ occurs_at text triple_single j
                    /\ ~ occurs_at text triple_double j)
              /\ let e := find text delimiter (opener + 3) in
                 (e = -1 ->
                    (forall j, opener + 3 <= j -> ~ occurs_at text delimiter j)
                    /\ scan_multiline (enough text) text start_index st
                       = Some (setFormat opener (len text - opener)
                                 string_format
                                 (setCurrentBlockState state st)))
                 /\ (e <> -1 ->
                       opener + 3 <= e /\ e + 3 <= len text
                       /\ occurs_at text delimiter e
                       /\ (forall j, opener + 3 <= j < e ->
                             ~ occurs_at text delimiter j)
                       /\ scan_multiline (enough text) text start_index st
                          = scan_multiline (enough text) text (e + 3)
                              (setFormat opener (e - opener + 3)
                                 string_format st))
                 /\ (forall r,
                       scan_multiline (enough text) text start_index st
                       = Some r ->
                       forall i,
                         opener <= i
                                < (if e =? -1 then len text else e + 3) ->
                         format_at text (spans r) i = string_format)))
  /\ (forall (text : str) (previousBlockState userState : Z),
        previousBlockState <= 0 ->
        (forall j, ~ occurs_at text triple_single j) ->
        (forall j, ~ occurs_at text triple_double j) ->
        exists r,
          rehighlight text previousBlockState userState = Some r
          /\ currentBlockState r = 0
          /\ spans r = rule_spans highlighting_rules text)
  /\ (forall text : str,
        forallb Utf16.bmp text = true -> Utf16.units text = text)
  /\ (len opened_emoji_line = 10
      /\ len (Utf16.units opened_emoji_line) = 11
      /\ find opened_emoji_line triple_single 0 = 4
      /\ option_map (fun r => (currentBlockState r, spans r,
                               map (format_at opened_emoji_line (spans r))
                                   [4; 5; 6; 7; 8; 9; 10]))
                    (rehighlight opened_emoji_line 0 (-1))
         = Some (1,
                 [mkSpan 4 2 string_format; mkSpan 10 1 number_format;
                  mkSpan 4 6 string_format],
                 repeat string_format 6 ++ [number_format])).
Proof.
  split; [|split; [|split]].
  - intros text start_index st Hs start_s start_d. split.
    + intros Hstop. unfold enough. rewrite scan_multiline_S.
      destruct (Z.ltb_spec start_index (len text)) as [Hlt|Hge];
        [|reflexivity].
      destruct Hstop as [Hstop|Hnone]; [lia|].
      apply (next_opener_none text start_index Hs) in Hnone.
      now rewrite Hnone.
    + intros Hlt Hsome.
      destruct (next_opener text start_index)
        as [[[opener delimiter] state]|] eqn:Ho.
      * destruct (next_opener_some _ _ _ _ _ Hs Ho)
          as (Hd & _ & Hle & _ & Hocc & Hfirst).
        exists opener, delimiter, state.
        repeat split_and; try assumption.
        apply scan_multiline_opener; [lia | assumption].
      * apply (next_opener_none text start_index Hs) in Ho.
        unfold start_s, start_d in Hsome. tauto.
  - intros text prev userState Hprev Hns Hnd.
    unfold rehighlight. rewrite highlightBlock_unfold. cbn zeta.
    replace (0 <? prev) with false by (symmetry; apply Z.ltb_ge; lia).
    unfold enough. rewrite scan_multiline_S.
    assert (Hnone : next_opener text 0 = None).
    { apply next_opener_none; [lia|].
      split.
      - destruct (find_spec text triple_single 0 ltac:(lia))
          as [[E _]|(_ & _ & Hocc & _)]; [exact E|].
        exfalso. exact (Hns _ Hocc).
      - destruct (find_spec text triple_double 0 ltac:(lia))
          as [[E _]|(_ & _ & Hocc & _)]; [exact E|].
        exfalso. exact (Hnd _ Hocc). }
    rewrite Hnone.
    exists (after_rules text (fresh_block userState)).
    split; [destruct (0 <? len text); reflexivity|].
    split; reflexivity.
  - exact units_bmp.
  - repeat split_and; vm_compute; reflexivity.
Qed.

(** ** Ordered overlay of the rules *)

(** Every block that [highlightBlock] returns carries the spans of the
    single-line rules first, and then spans that all have the string
    format. *)
Lemma highlightBlock_spans fuel text prev st r :
  highlightBlock fuel text prev st = Some r ->
  exists multiline,
    spans r = spans st ++ rule_spans highlighting_rules text ++ multiline
    /\ Forall (fun sp => span_format sp = string_format) multiline.
Proof.
  rewrite highlightBlock_unfold. cbn zeta.
  assert (Hscan : forall s b,
            spans b = spans (after_rules text st)
                      ++ skipn (List.length (spans (after_rules text st)))
                               (spans b) ->
            Forall (fun sp => span_format sp = string_format)
                   (skipn (List.length (spans (after_rules text st)))
                          (spans b)) ->
            scan_multiline fuel text s b = Some r ->
            exists multiline,
              spans r = spans st ++ rule_spans highlighting_rules text
                        ++ multiline
              /\ Forall (fun sp => span_format sp = string_format)
                        multiline).
  { intros s b Hb Hall Hr.
    destruct (scan_multiline_spans _ _ _ _ _ Hr) as (added & Hsp & Hadd).
    eexists. split.
    - rewrite Hsp, Hb. cbn [after_rules spans].
      rewrite <- !app_assoc. reflexivity.
    - apply Forall_app. split; assumption. }
  destruct (0 <? prev).
  - destruct (find text _ 0 =? -1).
    + intros H; inversion H; subst r. cbn.
      eexists. split; [rewrite <- app_assoc; reflexivity|].
      constructor; [reflexivity | constructor].
    + apply Hscan; cbn [setFormat after_rules spans].
      * rewrite skipn_app, skipn_all, Nat.sub_diag. reflexivity.
      * rewrite skipn_app, skipn_all, Nat.sub_diag. cbn.
        constructor; [reflexivity | constructor].
  - apply Hscan.
    + rewrite skipn_all, app_nil_r. reflexivity.
    + rewrite skipn_all. constructor.
Qed.

(** C5: ordered overlay, the last write winning.  Highlighting a line
    makes the calls of the single-line rules in registration order (the
    spans of a list of rules are those of its first rules followed by those
    of the later ones), and after them the multi-line string spans.  At
    every offset of the line the format shown is that of the last call that
    covers it (the offsets are those of the block, in UTF-16 code units, as
    Qt reads the calls); so a later rule overwrites an earlier one, and a
    multi-line span overrides every single-line rule where it overlaps.
    On the line
    [def foo(x):] the rule for a name before a parenthesis and the rule for
    a name after [def] both match [foo] (offset 4, length 3); the [def] rule
    is registered last and its format is shown on offsets 4 to 6. *)
Theorem C5_ordered_overlay :
  (forall (text : str) (previousBlockState userState : Z) (r : Block),
      rehighlight text previousBlockState userState = Some r ->
      exists multiline,
        spans r = rule_spans highlighting_rules text ++ multiline
        /\ Forall (fun sp => span_format sp = string_format) multiline
        /\ (forall i before sp after,
              0 <= i < len (Utf16.units text) ->
              spans r = before ++ sp :: after ->
              covers sp i ->
              Forall (fun later => ~ covers later i) after ->
              format_at text (spans r) i = span_format sp)
        /\ (forall i sp,
              0 <= i < len (Utf16.units text) ->
              In sp multiline -> covers sp i ->
              format_at text (spans r) i = string_format))
  /\ (forall rules1 rules2 text,
        rule_spans (rules1 ++ rules2) text
        = rule_spans rules1 text ++ rule_spans rules2 text)
  /\ (Regex.globalMatch def_line call_pattern = [(4, 3)]
      /\ Regex.globalMatch def_line def_pattern = [(4, 3)]
      /\ (exists earlier,
            highlighting_rules
            = earlier ++ [(call_pattern, function_format);
                          (class_pattern, function_format);
                          (def_pattern, function_format)])
      /\ option_map spans (rehighlight def_line 0 (-1))
         = Some [mkSpan 0 3 keyword_format;
                 mkSpan 4 3 function_format;
                 mkSpan 4 3 function_format]
      /\ option_map (fun r => map (format_at def_line (spans r)) [4; 5; 6])
                    (rehighlight def_line 0 (-1))
         = Some [function_format; function_format; function_format]).
Proof.
  repeat split_and.
  - intros text prev userState r Hr.
    destruct (highlightBlock_spans _ _ _ _ _ Hr) as (multiline & Hsp & Hall).
    cbn [fresh_block spans app] in Hsp.
    exists multiline. repeat split_and; try assumption.
    + intros i before sp after Hi Hsplit Hc Hafter.
      rewrite format_at_overlay by assumption. rewrite Hsplit.
      now apply overlay_last_write.
    + intros i sp Hi Hin Hc.
      apply in_split in Hin. destruct Hin as (m1 & m2 & Hm).
      rewrite format_at_overlay by assumption.
      rewrite Hsp, Hm, app_assoc.
      assert (Hf : span_format sp = string_format).
      { rewrite Hm in Hall. apply Forall_app in Hall.
        destruct Hall as [_ Hall]. now apply Forall_cons_iff in Hall. }
      rewrite <- Hf. apply overlay_covered_same_format; [assumption|].
      rewrite Hm in Hall. apply Forall_app in Hall.
      destruct Hall as [_ Hall]. apply Forall_cons_iff in Hall.
      destruct Hall as [_ Hall]. rewrite Hf. assumption.
  - apply rule_spans_app.
  - vm_compute. reflexivity.
  - vm_compute. reflexivity.
  - unfold highlighting_rules. eexists.
    rewrite !app_assoc.
    change [(word_pattern "self", self_format);
            (quoted_pattern dquote, string_format);
            (quoted_pattern squote, string_format);
            (comment_pattern, comment_format);
            (number_pattern, number_format);
            (call_pattern, function_format);
            (class_pattern, function_format);
            (def_pattern, function_format)]
      with ([(word_pattern "self", self_format);
             (quoted_pattern dquote, string_format);
             (quoted_pattern squote, string_format);
             (comment_pattern, comment_format);
             (number_pattern, number_format)]
            ++ [(call_pattern, function_format);
                (class_pattern, function_format);
                (def_pattern, function_format)]).
    rewrite app_assoc. reflexivity.
  - vm_compute. reflexivity.
  - vm_compute. reflexivity.
Qed.

(** ** The gutter width *)

Section GutterFacts.

Import Gutter.

(** The digit-counting loop adds, to the digits counted so far, the number
    of decimal digits of [count] minus one. *)
Lemma count_digits_spec (count digits : Z) :
  1 <= count ->
  exists d, decimal_digits count d
            /\ count_digits count digits = digits + d - 1.
Proof.
  funelim (count_digits count digits); intros Hc.
  - (* count >= 10: one more round *)
    assert (H1 : 1 <= count / 10)
      by (apply Z.div_le_lower_bound; lia).
    match goal with
    | IH : 1 <= count / 10 -> _ |- _ =>
        destruct (IH H1) as (d & (Hd1 & Hlo & Hhi) & Hcount)
    end.
    exists (d + 1). split.
    + unfold decimal_digits.
      replace (d + 1 - 1) with d by lia.
      assert (Hp : 10 ^ d = 10 * 10 ^ (d - 1)).
      { replace d with (Z.succ (d - 1)) at 1 by lia.
        apply Z.pow_succ_r. lia. }
      assert (Hp' : 10 ^ (d + 1) = 10 * 10 ^ d).
      { apply Z.pow_succ_r. lia. }
      pose proof (Z.div_mod count 10 ltac:(lia)) as Hdm.
      pose proof (Z.mod_pos_bound count 10 ltac:(lia)) as Hm.
      repeat split; lia.
    + rewrite Hcount. lia.
  - (* count < 10: the loop ends *)
    exists 1. split; [|lia].
    unfold decimal_digits. cbn. lia.
Qed.

(** The number of decimal digits of a number is unique. *)
Lemma decimal_digits_unique (n d d' : Z) :
  decimal_digits n d -> decimal_digits n d' -> d = d'.
Proof.
  intros (H1 & Hlo & Hhi) (H1' & Hlo' & Hhi').
  destruct (Z.lt_trichotomy d d') as [Hlt|[Heq|Hgt]]; [|assumption|].
  - assert (10 ^ d <= 10 ^ (d' - 1))
      by (apply Z.pow_le_mono_r; lia).
    lia.
  - assert (10 ^ d' <= 10 ^ (d - 1))
      by (apply Z.pow_le_mono_r; lia).
    lia.
Qed.

End GutterFacts.

(** C4, as the code has it: for every total line count [n >= 1] and digit
    width [w], the reserved margin is the fixed padding plus [w] times the
    number of decimal digits of [n].  Growing from 9 to 10 lines therefore
    widens the margin by exactly one digit width; the padding is part of
    both widths and does not grow. *)
Theorem C4_gutter_width :
  forall (n w : Z),
    1 <= n ->
    (exists d,
        Gutter.decimal_digits n d
        /\ Gutter.lineNumberAreaWidth n w = Gutter.padding + w * d)
    /\ Gutter.lineNumberAreaWidth 10 w = Gutter.lineNumberAreaWidth 9 w + w.
Proof.
  intros n w Hn. split.
  - unfold Gutter.lineNumberAreaWidth. cbn zeta.
    rewrite Z.max_r by lia.
    destruct (count_digits_spec n 1 Hn) as (d & Hd & Heq).
    exists d. split; [assumption|]. rewrite Heq. unfold Gutter.padding.
    f_equal. f_equal. lia.
  - unfold Gutter.lineNumberAreaWidth. cbn zeta.
    change (Z.max 1 10) with 10. change (Z.max 1 9) with 9.
    destruct (count_digits_spec 10 1 ltac:(lia)) as (d & Hd & ->).
    destruct (count_digits_spec 9 1 ltac:(lia)) as (d' & Hd' & ->).
    assert (d = 2)
      by (apply (decimal_digits_unique 10); [assumption|];
          unfold Gutter.decimal_digits; cbn; lia).
    assert (d' = 1)
      by (apply (decimal_digits_unique 9); [assumption|];
          unfold Gutter.decimal_digits; cbn; lia).
    subst. lia.
Qed.

(** A witness of C4: a document of 120 lines with digits 8 pixels wide. *)
Lemma C4_gutter_width_witness :
  1 <= 120
  /\ (exists d,
         Gutter.decimal_digits 120 d
         /\ Gutter.lineNumberAreaWidth 120 8 = Gutter.padding + 8 * d)
  /\ Gutter.lineNumberAreaWidth 10 8 = Gutter.lineNumberAreaWidth 9 8 + 8.
Proof.
  split; [lia|]. apply (C4_gutter_width 120 8). lia.
Defined.

(** The claim of C4 as stated fails: from 9 to 10 lines, with digits 8
    pixels wide, the margin grows by 8, which is not one digit width plus
    the fixed padding. *)
Lemma C4_growth_is_not_digit_plus_padding :
  Gutter.lineNumberAreaWidth 9 8 = 18
  /\ Gutter.lineNumberAreaWidth 10 8 = 26
  /\ Gutter.lineNumberAreaWidth 10 8 - Gutter.lineNumberAreaWidth 9 8
     <> 8 + Gutter.padding.
Proof.
  repeat split_and; try reflexivity.
  vm_compute. discriminate.
Qed.
(** ** Text files *)

Section Utf8Facts.

Import Utf8.

Ltac decide_conditions :=
  repeat (match goal with
          | |- context [?a <=? ?b] =>
              destruct (Z.leb_spec a b); try (exfalso; lia)
          | |- context [?a <? ?b] =>
              destruct (Z.ltb_spec a b); try (exfalso; lia)
          end; cbn [andb orb negb]).

(** Decoding the bytes of one code point gives the code point back. *)
Lemma decode_encode_char (c : Z) (rest : list Z) :
  match encode_char c with
  | Some bs => decode (bs ++ rest) = option_map (cons c) (decode rest)
  | None => True
  end.
Proof.
  unfold encode_char, is_surrogate.
  destruct (Z.ltb_spec c 0); [exact I|].
  destruct (Z.ltb_spec c 0x80).
  { cbn [app decode]. decide_conditions. reflexivity. }
  pose proof (Z.div_mod c 64 ltac:(lia)) as D1.
  pose proof (Z.mod_pos_bound c 64 ltac:(lia)) as M1.
  destruct (Z.ltb_spec c 0x800).
  { cbn [app decode]. unfold is_cont.
    set (q := c / 64) in *. set (r := c mod 64) in *. clearbody q r.
    decide_conditions. do 2 f_equal. lia. }
  pose proof (Z.div_mod (c / 64) 64 ltac:(lia)) as D2.
  pose proof (Z.mod_pos_bound (c / 64) 64 ltac:(lia)) as M2.
  replace (c / 4096) with (c / 64 / 64)
    by (rewrite Z.div_div by lia; reflexivity).
  destruct (Z.ltb_spec c 0x10000).
  { destruct (Z.leb_spec 0xD800 c); destruct (Z.leb_spec c 0xDFFF);
      cbn [andb]; try exact I;
      cbn [app decode]; unfold is_cont, is_surrogate;
      set (q := c / 64) in *; set (r := c mod 64) in *;
      set (q2 := q / 64) in *; set (r2 := q mod 64) in *;
      clearbody q2 r2; clearbody q r;
      decide_conditions; do 2 f_equal; lia. }
  pose proof (Z.div_mod (c / 64 / 64) 64 ltac:(lia)) as D3.
  pose proof (Z.mod_pos_bound (c / 64 / 64) 64 ltac:(lia)) as M3.
  replace (c / 262144) with (c / 64 / 64 / 64)
    by (rewrite !Z.div_div by lia; reflexivity).
  destruct (Z.ltb_spec c 0x110000); [|exact I].
  cbn [app decode]. unfold is_cont.
  set (q := c / 64) in *. set (r := c mod 64) in *.
  set (q2 := q / 64) in *. set (r2 := q mod 64) in *.
  set (q3 := q2 / 64) in *. set (r3 := q2 mod 64) in *.
  clearbody q3 r3. clearbody q2 r2. clearbody q r.
  decide_conditions. do 2 f_equal. lia.
Qed.

(** [decode] inverts [encode]. *)
Lemma decode_encode (s : str) (bytes : list Z) :
  encode s = Some bytes -> decode bytes = Some s.
Proof.
  revert bytes. induction s as [|c s IH]; intros bytes; cbn [encode].
  - intros E; inversion E. reflexivity.
  - pose proof (decode_encode_char c) as Hc.
    destruct (encode_char c) as [b|]; [|discriminate].
    destruct (encode s) as [bs|]; [|discriminate].
    intros E. apply (f_equal (fun o => match o with
                                        | Some x => x | None => [] end)) in E.
    cbn beta iota in E. subst bytes.
    rewrite Hc, (IH bs eq_refl). reflexivity.
Qed.

(** Exactly the scalar values can be encoded. *)
Lemma encode_char_scalar (c : Z) :
  scalar_value c <-> exists bs, encode_char c = Some bs.
Proof.
  unfold scalar_value, encode_char, is_surrogate.
  destruct (Z.ltb_spec c 0); [split; [lia | intros [? ?]; discriminate]|].
  destruct (Z.ltb_spec c 0x80); [split; [eauto | lia]|].
  destruct (Z.ltb_spec c 0x800); [split; [eauto | lia]|].
  destruct (Z.ltb_spec c 0x10000).
  - destruct (Z.leb_spec 0xD800 c); destruct (Z.leb_spec c 0xDFFF);
      cbn [andb]; split; eauto; try lia; intros [? ?]; discriminate.
  - destruct (Z.ltb_spec c 0x110000);
      split; eauto; try lia; intros [? ?]; discriminate.
Qed.

Lemma encode_scalar (s : str) :
  Forall scalar_value s -> exists bytes, encode s = Some bytes.
Proof.
  induction s as [|c s IH]; intros H; cbn [encode]; [eauto|].
  apply Forall_cons_iff in H. destruct H as [Hc Hs].
  apply encode_char_scalar in Hc. destruct Hc as [b ->].
  destruct (IH Hs) as [bs ->]. eauto.
Qed.

End Utf8Facts.

Section TextIOFacts.

Import TextIO.

(** Reading undoes the newline translation of writing, on text that has no
    carriage return of its own. *)
Lemma universal_newlines_translate (windows : bool) (s : str) :
  Forall (fun c => c <> CR) s ->
  universal_newlines (translate_on_write windows s) = s.
Proof.
  induction s as [|c s IH]; intros H; [reflexivity|].
  apply Forall_cons_iff in H. destruct H as [Hc Hs].
  specialize (IH Hs).
  unfold translate_on_write, linesep, CR, LF in *. cbn [flat_map].
  destruct (Z.eqb_spec c 10) as [->|Hlf].
  - destruct windows; cbn [app universal_newlines]; unfold CR, LF;
      cbn [Z.eqb Pos.eqb]; now rewrite IH.
  - cbn [app universal_newlines]. unfold CR, LF.
    destruct (Z.eqb_spec c 13) as [|_]; [contradiction|].
    now rewrite IH.
Qed.

(** What was written is what is read. *)
Lemma read_write_text (windows : bool) (s : str) (bytes : list Z) :
  Forall (fun c => c <> CR) s ->
  write_text windows s = Some bytes -> read_text bytes = Some s.
Proof.
  intros Hcr Hw. unfold write_text in Hw. unfold read_text.
  rewrite (decode_encode _ _ Hw). cbn [option_map].
  now rewrite universal_newlines_translate.
Qed.

(** Text made of scalar values can be written. *)
Lemma write_text_scalar (windows : bool) (s : str) :
  Forall Utf8.scalar_value s ->
  exists bytes, write_text windows s = Some bytes.
Proof.
  intros H. unfold write_text. apply encode_scalar.
  unfold translate_on_write. apply Forall_flat_map.
  apply Forall_forall. intros c Hc.
  rewrite Forall_forall in H. specialize (H c Hc).
  destruct (c =? LF); [|now constructor].
  unfold linesep, CR, LF, Utf8.scalar_value.
  destruct windows; repeat constructor; lia.
Qed.

End TextIOFacts.

(** ** The main window *)

Section AppFacts.

Import App.

Variable os : OS.

Lemma machinery_write file_path st :
  machinery (snd (_write_to_file os file_path st)) = machinery st.
Proof.
  unfold _write_to_file.
  destruct (writable os file_path); [|reflexivity].
  destruct (TextIO.write_text _ _); reflexivity.
Qed.

Lemma machinery_save_file_as u st :
  machinery (snd (save_file_as os u st)) = machinery st.
Proof.
  unfold save_file_as. destruct (truthy _); [|reflexivity].
  now rewrite machinery_write.
Qed.

Lemma machinery_save_file u st :
  machinery (snd (save_file os u st)) = machinery st.
Proof.
  unfold save_file. destruct (current_file_path st).
  - apply machinery_write.
  - apply machinery_save_file_as.
Qed.

Lemma machinery_maybe_save u st :
  machinery (snd (maybe_save os u st)) = machinery st.
Proof.
  unfold maybe_save. destruct (negb _); [reflexivity|].
  destruct (warning_answer u); try reflexivity.
  now rewrite machinery_save_file.
Qed.

Lemma machinery_new_file u st :
  machinery (new_file os u st) = machinery st.
Proof.
  unfold new_file. pose proof (machinery_maybe_save u st) as H.
  destruct (maybe_save os u st) as [ok st']. cbn [snd] in H.
  destruct ok; [|assumption]. rewrite <- H. reflexivity.
Qed.

Lemma machinery_open_file u st :
  machinery (open_file os u st) = machinery st.
Proof.
  unfold open_file. pose proof (machinery_maybe_save u st) as H.
  destruct (maybe_save os u st) as [ok st']. cbn [snd] in H.
  destruct ok; [|assumption]. rewrite <- H.
  destruct (truthy _); [|reflexivity].
  cbn [show files].
  destruct (files st' (open_file_name u)); [|reflexivity].
  destruct (TextIO.read_text _); reflexivity.
Qed.

(** [run_code] either leaves the run action and the process alone, or
    disables the action and starts (or fails to start) the interpreter. *)
Lemma run_code_cases u start_ok st :
  editor_point_size (run_code os u start_ok st) = editor_point_size st
  /\ output_point_size (run_code os u start_ok st) = output_point_size st
  /\ (machinery (run_code os u start_ok st) = machinery st
      \/ exists p saved,
           machinery saved = machinery st
           /\ fst (save_file os u st) = true
           /\ run_code os u start_ok st
              = process_start start_ok p
                  (with_run_action false
                     (with_output [RunningBanner p] saved))).
Proof.
  unfold run_code. pose proof (machinery_save_file u st) as H.
  destruct (save_file os u st) as [ok st']. cbn [snd fst] in *.
  assert (Hf : editor_point_size st' = editor_point_size st
               /\ output_point_size st' = output_point_size st)
    by (unfold machinery in H; split; congruence).
  destruct Hf as [Hf1 Hf2].
  destruct ok; cbn [negb].
  - destruct (current_file_path st') as [p|].
    + destruct (truthy p).
      * repeat split_and.
        -- unfold process_start. cbn [process_running with_run_action
             with_output]. destruct (process_running st'); [assumption|].
           destruct start_ok; assumption.
        -- unfold process_start. cbn [process_running with_run_action
             with_output]. destruct (process_running st'); [assumption|].
           destruct start_ok; assumption.
        -- right. exists p, st'. auto.
      * repeat split_and; auto.
    + repeat split_and; auto.
  - repeat split_and; auto.
Qed.

Lemma machinery_same_run st st' :
  machinery st' = machinery st -> same_run_state st st'.
Proof.
  unfold machinery, same_run_state. intros H.
  injection H as _ _ H1 H2 H3 H4 H5. auto.
Qed.

(** Every event other than a run or the end of the process leaves the run
    action and the process alone. *)
Lemma handle_other e st :
  (forall u ok, e <> Run u ok) -> e <> ProcessFinished ->
  same_run_state st (handle os e st).
Proof.
  intros Hrun Hfin.
  destruct e; cbn [handle].
  - repeat split.
  - apply machinery_same_run, machinery_new_file.
  - apply machinery_same_run, machinery_open_file.
  - apply machinery_same_run, machinery_save_file.
  - apply machinery_same_run, machinery_save_file_as.
  - apply machinery_same_run, machinery_maybe_save.
  - unfold increase_font_size. destruct (_ <? _); repeat split.
  - unfold decrease_font_size. destruct (_ <? _); repeat split.
  - exfalso. eapply Hrun. reflexivity.
  - repeat split.
  - repeat split.
  - contradiction.
Qed.

Lemma run_invariant_same st st' :
  same_run_state st st' -> run_invariant st -> run_invariant st'.
Proof.
  unfold run_invariant. intros (H1 & H2 & H3 & H4 & H5).
  rewrite H1, H2, H3, H4, H5. auto.
Qed.

Lemma run_invariant_step st e st' :
  run_invariant st -> step os st e st' -> run_invariant st'.
Proof.
  intros Hinv Hstep. inversion Hstep as [e' st0 Hcan];
    subst e' st0 st'. clear Hstep.
  destruct e;
    try solve [apply (run_invariant_same st); [|assumption];
               apply handle_other; [intros; discriminate | discriminate]].
  - (* Run *)
    destruct Hinv as (Himp & Hign & Hlen).
    cbn [can_occur] in Hcan. cbn [handle].
    assert (Hnot : process_running st = false).
    { destruct (process_running st) eqn:Er; [|reflexivity].
      rewrite (Himp eq_refl) in Hcan. discriminate. }
    destruct (run_code_cases u start_ok st) as (_ & _ & [Hsame | Hstart]).
    + apply (run_invariant_same st);
        [now apply machinery_same_run | repeat split; assumption].
    + destruct Hstart as (p & saved & Hsaved & _ & ->).
      apply machinery_same_run in Hsaved.
      destruct Hsaved as (H1 & H2 & H3 & H4 & H5).
      unfold process_start, run_invariant.
      cbn [process_running with_run_action with_output].
      rewrite H2, Hnot.
      destruct start_ok;
        cbn [process_running run_action_enabled ignored_starts started
             finished_runs with_process with_run_action with_output].
      * rewrite H4, H5, length_app, H3, Hlen, Hnot. cbn.
        repeat split; lia.
      * rewrite ?H2, ?H3, ?H4, ?H5, ?Hnot. rewrite Hnot in Hlen.
        repeat split; intros; try discriminate; try lia.
  - (* ProcessFinished *)
    destruct Hinv as (Himp & Hign & Hlen).
    cbn [can_occur] in Hcan. cbn [handle].
    unfold process_finished, run_invariant.
    cbn [process_running run_action_enabled ignored_starts started
         finished_runs with_process with_run_action with_output].
    rewrite Hcan in Hlen.
    repeat split; intros; try discriminate; try lia.
Qed.

Lemma run_invariant_reachable fs st :
  reachable os fs st -> run_invariant st.
Proof.
  induction 1 as [|st e st' _ IH Hstep].
  - unfold run_invariant. cbn. repeat split. discriminate.
  - eapply run_invariant_step; eassumption.
Qed.

End AppFacts.

Section AppClaims.

Import App.

Lemma machinery_fonts st st' :
  machinery st' = machinery st ->
  editor_point_size st' = editor_point_size st
  /\ output_point_size st' = output_point_size st.
Proof.
  unfold machinery. intros H. injection H as H1 H2 _ _ _ _ _. auto.
Qed.

(** Only the two font actions change a font. *)
Lemma handle_fonts os e st :
  e <> IncreaseFont -> e <> DecreaseFont ->
  editor_point_size (handle os e st) = editor_point_size st
  /\ output_point_size (handle os e st) = output_point_size st.
Proof.
  intros Hi Hd. destruct e; cbn [handle]; try contradiction.
  - split; reflexivity.
  - apply machinery_fonts, machinery_new_file.
  - apply machinery_fonts, machinery_open_file.
  - apply machinery_fonts, machinery_save_file.
  - apply machinery_fonts, machinery_save_file_as.
  - apply machinery_fonts, machinery_maybe_save.
  - destruct (run_code_cases os u start_ok st) as (H1 & H2 & _). auto.
  - split; reflexivity.
  - split; reflexivity.
  - split; reflexivity.
Qed.

(** From the initial fonts, the editor font stays between 5 and 73 points
    and the output font one point below it. *)
Lemma fonts_reachable os fs st :
  reachable os fs st ->
  5 <= editor_point_size st <= 73
  /\ output_point_size st = editor_point_size st - 1.
Proof.
  induction 1 as [|st e st' _ IH Hstep].
  - cbn. lia.
  - inversion Hstep as [e' st0 Hcan]; subst e' st0 st'. clear Hstep.
    destruct e;
      try solve [
        match goal with
        | |- context [handle os ?e st] =>
            destruct (handle_fonts os e st ltac:(discriminate)
                        ltac:(discriminate)) as [H1 H2]
        end; rewrite H1, H2; exact IH].
    + cbn [handle]. unfold increase_font_size.
      destruct (Z.ltb_spec (editor_point_size st) 72); [|exact IH].
      cbn [editor_point_size output_point_size with_fonts]. lia.
    + cbn [handle]. unfold decrease_font_size.
      destruct (Z.ltb_spec 6 (editor_point_size st)); [|exact IH].
      cbn [editor_point_size output_point_size with_fonts]. lia.
Qed.

End AppClaims.


Lemma typed_program_reachable :
  App.reachable posix no_files typed_program.
Proof.
  eapply App.reach_step; [apply App.reach_initial|].
  apply App.step_event. reflexivity.
Qed.


(** C6: at most one interpreter run is outstanding.  In every reachable
    state: the runs started and not finished number at most one, and
    exactly one when the process is running; while the process runs the
    run action is disabled, so no run event can occur;
    [process.start] was never called on a running process.  A step that
    starts the process is a run and leaves the action disabled, and a step
    that enables the action again is the [finished] signal. *)
Theorem C6_single_outstanding_run :
  forall (os : App.OS) (fs : string -> option (list Z)) (st : App.State),
    App.reachable os fs st ->
    (App.outstanding st <= 1)%nat
    /\ (App.outstanding st = 1%nat <-> App.process_running st = true)
    /\ (App.process_running st = true -> App.run_action_enabled st = false)
    /\ App.ignored_starts st = 0%nat
    /\ (App.process_running st = true ->
        forall u start_ok st', ~ App.step os st (App.Run u start_ok) st')
    /\ (forall e st',
          App.step os st e st' ->
          (App.process_running st = false ->
           App.process_running st' = true ->
           (exists u, e = App.Run u true)
           /\ App.run_action_enabled st' = false)
          /\ (App.run_action_enabled st = false ->
              App.run_action_enabled st' = true ->
              e = App.ProcessFinished)).
Proof.
  intros os fs st Hreach.
  pose proof (run_invariant_reachable os fs st Hreach) as (Himp & Hign & Hlen).
  unfold App.outstanding.
  repeat split_and.
  - destruct (App.process_running st); lia.
  - destruct (App.process_running st); split; intros; try lia;
      try reflexivity; discriminate.
  - exact Himp.
  - exact Hign.
  - intros Hrun u start_ok st' Hstep.
    inversion Hstep as [e' st0 Hcan]; subst. cbn [App.can_occur] in Hcan.
    rewrite (Himp Hrun) in Hcan. discriminate.
  - intros e st' Hstep.
    inversion Hstep as [e' st0 Hcan]; subst e' st0 st'. clear Hstep.
    assert (Hother : same_run_state st (App.handle os e st) ->
              (App.process_running st = false ->
               App.process_running (App.handle os e st) = true ->
               (exists u, e = App.Run u true)
               /\ App.run_action_enabled (App.handle os e st) = false)
              /\ (App.run_action_enabled st = false ->
                  App.run_action_enabled (App.handle os e st) = true ->
                  e = App.ProcessFinished)).
    { intros (H1 & H2 & _). rewrite H1, H2.
      split; intros; congruence. }
    destruct e;
      try solve [apply Hother, handle_other;
                 [intros; discriminate | discriminate]].
    + (* Run *)
      cbn [App.handle] in *.
      destruct (run_code_cases os u start_ok st)
        as (_ & _ & [Hsame | (p & saved & Hsaved & _ & Heq)]).
      * apply Hother. now apply machinery_same_run.
      * rewrite Heq. apply machinery_same_run in Hsaved.
        destruct Hsaved as (H1 & H2 & _).
        unfold App.process_start.
        cbn [App.process_running App.with_run_action App.with_output].
        rewrite H2.
        destruct (App.process_running st) eqn:Er;
          [split; intros; [discriminate | discriminate]|].
        destruct start_ok;
          cbn [App.process_running App.run_action_enabled App.with_process
               App.with_run_action App.with_output].
        -- split; intros; [split; [eexists; reflexivity | reflexivity]
                          | discriminate].
        -- rewrite H2, ?Er. split; intros; discriminate.
    + (* ProcessFinished *)
      cbn [App.handle]. unfold App.process_finished.
      cbn [App.process_running App.run_action_enabled App.with_process
           App.with_run_action App.with_output].
      split; intros; [discriminate | reflexivity].
Qed.

Lemma running_program_reachable :
  App.reachable posix no_files running_program.
Proof.
  eapply App.reach_step; [apply typed_program_reachable|].
  apply App.step_event. reflexivity.
Qed.

(** A witness of C6: while [prog.py] runs, one run is outstanding and the
    run action is disabled. *)
Lemma C6_single_outstanding_run_witness :
  App.reachable posix no_files running_program
  /\ App.process_running running_program = true
  /\ App.outstanding running_program = 1%nat
  /\ App.run_action_enabled running_program = false.
Proof.
  pose proof (C6_single_outstanding_run posix no_files running_program
                running_program_reachable) as (_ & Hone & Hdis & _).
  assert (Hrun : App.process_running running_program = true)
    by reflexivity.
  repeat split_and.
  - exact running_program_reachable.
  - exact Hrun.
  - exact (proj2 Hone Hrun).
  - exact (Hdis Hrun).
Defined.







(** ** Witnesses for the highlighter theorems *)

Lemma find_nowhere (text sub : str) :
  find text sub 0 = -1 -> forall j, ~ occurs_at text sub j.
Proof.
  intros E j Hocc.
  destruct (find_spec text sub 0 ltac:(lia)) as [[_ Hno]|(H0 & _)]; [|lia].
  destruct (Z_le_gt_dec 0 j) as [Hj|Hj].
  - exact (Hno j Hj Hocc).
  - destruct Hocc as [Hr _]. lia.
Qed.

(** A witness of C1: line 2 of scenario B, entered in state 1. *)
Lemma C1_continued_multiline_string_witness :
  (1 = 1 \/ 1 = 2)
  /\ find line2 (closing_delimiter 1) 0 = 3
  /\ exists r,
       rehighlight line2 1 (-1) = Some r
       /\ forall i, 0 <= i < 3 + 3 ->
            format_at line2 (spans r) i = string_format.
Proof.
  split; [left; reflexivity|]. split; [reflexivity|].
  pose proof (proj1 C1_continued_multiline_string line2 1 (-1)
                (or_introl eq_refl)) as H.
  cbn zeta in H. destruct H as [_ Hfound].
  destruct Hfound as (_ & _ & _ & r & Hr & _ & _ & Hstyle).
  { vm_compute. discriminate. }
  exists r. split; [exact Hr | exact Hstyle].
Defined.

(** A witness of C2: the scan of [two_strings] from its start, and the
    highlighting of [plain_line] entered in state 0. *)
Lemma C2_opening_multiline_strings_witness :
  0 <= 0
  /\ 0 < len two_strings
  /\ (exists opener delimiter state,
         ((delimiter = triple_single /\ state = 1)
          \/ (delimiter = triple_double /\ state = 2))
         /\ 0 <= opener
         /\ occurs_at two_strings delimiter opener)
  /\ (exists r,
         rehighlight plain_line 0 (-1) = Some r
         /\ currentBlockState r = 0
         /\ spans r = rule_spans highlighting_rules plain_line).
Proof.
  split; [lia|]. split; [reflexivity|]. split.
  - pose proof (proj1 C2_opening_multiline_strings two_strings 0
                  (fresh_block 0) ltac:(lia)) as H.
    cbn zeta in H. destruct H as [_ Hopen].
    destruct Hopen as (opener & delimiter & state & Hd & Hle & Hocc & _).
    + reflexivity.
    + left. vm_compute. discriminate.
    + exists opener, delimiter, state. auto.
  - apply (proj1 (proj2 C2_opening_multiline_strings) plain_line 0 (-1)).
    + lia.
    + apply find_nowhere. reflexivity.
    + apply find_nowhere. reflexivity.
Defined.

(** A witness of C5: the line of scenario C. *)
Lemma C5_ordered_overlay_witness :
  rehighlight def_line 0 (-1) = Some def_line_block
  /\ exists multiline,
       spans def_line_block
       = rule_spans highlighting_rules def_line ++ multiline
       /\ Forall (fun sp => span_format sp = string_format) multiline.
Proof.
  assert (Hr : rehighlight def_line 0 (-1) = Some def_line_block)
    by (vm_compute; reflexivity).
  split; [exact Hr|].
  destruct (proj1 C5_ordered_overlay def_line 0 (-1) def_line_block Hr)
    as (multiline & Hsp & Hall & _).
  exists multiline. split; [exact Hsp | exact Hall].
Defined.

(** A witness of C7: the first iteration of the loop on [two_strings]. *)
Lemma C7_highlighting_is_total_witness :
  0 <= 0
  /\ ((exists r, forall fuel,
          scan_multiline (S fuel) two_strings 0 (fresh_block 0) = Some r)
      \/ (exists next st',
            0 < next <= len two_strings
            /\ forall fuel,
                 scan_multiline (S fuel) two_strings 0 (fresh_block 0)
                 = scan_multiline fuel two_strings next st')).
Proof.
  split; [lia|].
  apply (proj2 C7_highlighting_is_total two_strings 0 (fresh_block 0)).
  lia.
Defined.

(* ===================================================================== *)
(** * Further properties *)
(* ===================================================================== *)

(** ** The spans and states of a highlighted line *)

Lemma find_empty (text : str) : find text [] 0 = 0.
Proof.
  unfold find. cbn [Z.ltb Z.compare].
  destruct (Z.ltb_spec (len text) 0) as [H|_];
    [pose proof (len_nonneg text); lia|].
  cbn [Z.to_nat skipn]. now destruct text.
Qed.

(** The scanner adds its spans from left to right, from [start_index] on,
    and leaves the state it found or the state of a delimiter of the line. *)
Lemma scan_multiline_left_to_right fuel text start_index st r :
  0 <= start_index ->
  scan_multiline fuel text start_index st = Some r ->
  (exists added,
      spans r = spans st ++ added
      /\ left_to_right text start_index added)
  /\ (currentBlockState r = currentBlockState st
      \/ (currentBlockState r = 1
          /\ exists j, occurs_at text triple_single j)
      \/ (currentBlockState r = 2
          /\ exists j, occurs_at text triple_double j)).
Proof.
  revert start_index st.
  induction fuel as [|fuel IH]; intros start_index st Hs H; [discriminate|].
  rewrite scan_multiline_S in H.
  assert (Hstop : Some st = Some r ->
    (exists added,
        spans r = spans st ++ added
        /\ left_to_right text start_index added)
    /\ (currentBlockState r = currentBlockState st
        \/ (currentBlockState r = 1
            /\ exists j, occurs_at text triple_single j)
        \/ (currentBlockState r = 2
            /\ exists j, occurs_at text triple_double j))).
  { intros E; inversion E; subst r. split; [|now left].
    exists []. rewrite app_nil_r. split; [reflexivity | exact I]. }
  destruct (start_index <? len text); [|auto].
  destruct (next_opener text start_index)
    as [[[opener delimiter] state]|] eqn:Ho; [|auto].
  destruct (next_opener_some _ _ _ _ _ Hs Ho)
    as (Hd & _ & Hle & Hfit & Hocc & _).
  assert (Hl : len delimiter = 3)
    by (destruct Hd as [[-> _]|[-> _]]; reflexivity).
  cbn zeta in H.
  destruct (Z.eqb_spec (find text delimiter (opener + 3)) (-1)) as [Ec|Ec].
  - inversion H; subst r. cbn [setFormat setCurrentBlockState spans
                               currentBlockState]. split.
    + eexists. split; [reflexivity|].
      cbn [left_to_right span_start span_count]. repeat split; lia.
    + destruct Hd as [[-> ->]|[-> ->]]; [right; left | right; right];
        (split; [reflexivity | eauto]).
  - destruct (find_bounds text delimiter (opener + 3) ltac:(lia) Ec)
      as [H1 H2].
    apply IH in H; [|lia].
    destruct H as ((added & Hsp & Hchain) & Hstate).
    cbn [setFormat spans currentBlockState] in Hsp, Hstate.
    split; [|exact Hstate].
    rewrite <- app_assoc in Hsp. eexists. split; [exact Hsp|].
    cbn [app left_to_right span_start span_count].
    replace (opener + (find text delimiter (opener + 3) - opener + 3))
      with (find text delimiter (opener + 3) + 3) by lia.
    repeat split; try lia. exact Hchain.
Qed.

Lemma left_to_right_in_line text from l :
  0 <= from -> left_to_right text from l -> Forall (in_line text) l.
Proof.
  revert from. induction l as [|sp l IH]; intros from Hf H; [constructor|].
  cbn [left_to_right] in H. destruct H as (H1 & H2 & H3 & H4).
  constructor.
  - unfold in_line. lia.
  - apply (IH (span_start sp + span_count sp)); [lia | exact H4].
Qed.

(** What a highlighted line holds after the spans of the single-line
    rules: spans that go from left to right; and the state it leaves. *)
Lemma rehighlight_shape text prev userState :
  exists r multiline,
    rehighlight text prev userState = Some r
    /\ spans r = rule_spans highlighting_rules text ++ multiline
    /\ left_to_right text 0 multiline
    /\ ((currentBlockState r = 0)
        \/ (currentBlockState r = 1
            /\ (prev = 1 \/ exists j, occurs_at text triple_single j))
        \/ (currentBlockState r = 2
            /\ (prev = 2 \/ exists j, occurs_at text triple_double j))).
Proof.
  destruct (highlightBlock_returns text prev (fresh_block userState))
    as [r Hr].
  exists r. unfold rehighlight. rewrite Hr.
  rewrite highlightBlock_unfold in Hr. cbn zeta in Hr.
  assert (Hscan : forall s b,
    0 <= s -> currentBlockState b = 0 ->
    scan_multiline (enough text) text s b = Some r ->
    exists added,
      spans r = spans b ++ added /\ left_to_right text s added
      /\ ((currentBlockState r = 0)
          \/ (currentBlockState r = 1
              /\ (prev = 1 \/ exists j, occurs_at text triple_single j))
          \/ (currentBlockState r = 2
              /\ (prev = 2 \/ exists j, occurs_at text triple_double j)))).
  { intros s b Hs Hb H.
    destruct (scan_multiline_left_to_right _ _ _ _ _ Hs H)
      as ((added & Hsp & Hchain) & Hstate).
    exists added. repeat split_and; try assumption.
    rewrite Hb in Hstate.
    destruct Hstate as [H0|[[H1 Ho]|[H2 Ho]]]; auto. }
  destruct (Z.ltb_spec 0 prev) as [Hpos|Hneg].
  - destruct (Z.eqb_spec (find text
                (if prev =? 1 then triple_single
                 else if prev =? 2 then triple_double else []) 0) (-1))
      as [E|E].
    + (* the closing delimiter is absent: [prev] is 1 or 2 *)
      assert (Hprev : prev = 1 \/ prev = 2).
      { destruct (Z.eqb_spec prev 1); [auto|].
        destruct (Z.eqb_spec prev 2); [auto|].
        rewrite find_empty in E. discriminate. }
      inversion Hr; subst r.
      exists [mkSpan 0 (len text) string_format].
      cbn [setFormat setCurrentBlockState after_rules fresh_block spans
           currentBlockState app].
      pose proof (len_nonneg text).
      repeat split_and; try reflexivity.
      * cbn [left_to_right span_start span_count]. repeat split; lia.
      * destruct Hprev as [->| ->]; [right; left | right; right]; auto.
    + pose proof (resume_nonneg text prev E) as H0. cbn zeta in H0.
      destruct (find_bounds _ _ 0 ltac:(lia) E) as [Hlo Hhi].
      apply Hscan in Hr; [|lia|reflexivity].
      destruct Hr as (added & Hsp & Hchain & Hstate).
      cbn [setFormat after_rules fresh_block spans app] in Hsp.
      rewrite <- app_assoc in Hsp.
      eexists. split; [reflexivity|]. split; [exact Hsp|].
      split; [|exact Hstate].
      cbn [app left_to_right span_start span_count].
      pose proof (len_nonneg (if prev =? 1 then triple_single
                              else if prev =? 2 then triple_double else [])).
      repeat split; try lia. exact Hchain.
  - apply Hscan in Hr; [|lia|reflexivity].
    destruct Hr as (added & Hsp & Hchain & Hstate).
    cbn [after_rules fresh_block spans app] in Hsp.
    exists added. auto.
Qed.

(** X1: whatever the text of the line and whatever number comes in as the
    state of the block before (even one that is no state of the scanner),
    [highlightBlock] returns and leaves the block in state 0, 1 or 2; it
    leaves state 1 only if the block before was in state 1 or ['''] occurs
    in the line, and state 2 only if the block before was in state 2 or the
    triple double quote occurs in the line. *)
Theorem block_state_is_0_1_or_2 :
  forall (text : str) (previousBlockState userState : Z),
    exists r,
      rehighlight text previousBlockState userState = Some r
      /\ (currentBlockState r = 0
          \/ (currentBlockState r = 1
              /\ (previousBlockState = 1
                  \/ exists j, occurs_at text triple_single j))
          \/ (currentBlockState r = 2
              /\ (previousBlockState = 2
                  \/ exists j, occurs_at text triple_double j))).
Proof.
  intros text prev userState.
  destruct (rehighlight_shape text prev userState)
    as (r & multiline & Hr & _ & _ & Hstate).
  exists r. split; [exact Hr | exact Hstate].
Qed.

Lemma in_line_units text sp :
  in_line text sp -> in_line (Utf16.units text) sp.
Proof.
  unfold in_line. pose proof (len_units text). intros (H1 & H2 & H3).
  repeat split_and; lia.
Qed.

(** X2: every [setFormat] call of [highlightBlock] lies within the block
    as Qt measures it, in UTF-16 code units (start and count are not
    negative, start + count is at most the number of code units of the
    line), so Qt never clips or drops a call.  The calls for multi-line
    strings, which come after those of the single-line rules, go from left
    to right without overlap, and stay below [len(text)], the number of
    code points, which is the number of code units only for a line without
    characters outside the Basic Multilingual Plane. *)
Theorem spans_stay_within_the_line :
  forall (text : str) (previousBlockState userState : Z),
    exists r multiline,
      rehighlight text previousBlockState userState = Some r
      /\ Forall (in_line (Utf16.units text)) (spans r)
      /\ spans r = rule_spans highlighting_rules text ++ multiline
      /\ left_to_right text 0 multiline
      /\ len text <= len (Utf16.units text)
      /\ (forallb Utf16.bmp text = true -> Utf16.units text = text).
Proof.
  intros text prev userState.
  destruct (rehighlight_shape text prev userState)
    as (r & multiline & Hr & Hsp & Hchain & _).
  exists r, multiline. repeat split_and; try assumption.
  - rewrite Hsp. apply Forall_app. split.
    + exact (rule_spans_in_line highlighting_rules text).
    + eapply Forall_impl; [intros sp; apply in_line_units|].
      apply (left_to_right_in_line text 0); [lia | exact Hchain].
  - apply len_units.
  - apply units_bmp.
Qed.

(** ** Documents *)

Lemma highlight_lines_cons prev text rest :
  highlight_lines prev (text :: rest)
  = match rehighlight text prev (-1) with
    | None => None
    | Some b =>
        option_map (cons b) (highlight_lines (currentBlockState b) rest)
    end.
Proof. reflexivity. Qed.

(** The blocks of some lines, highlighted one after the other from any
    incoming state: a block is in state 1 or 2 only if that state came in
    or the delimiter occurs in its line or in a line before it. *)
Lemma highlight_lines_states prev lines :
  exists blocks,
    highlight_lines prev lines = Some blocks
    /\ List.length blocks = List.length lines
    /\ forall i b,
         nth_error blocks i = Some b ->
         currentBlockState b = 0
         \/ (currentBlockState b = 1
             /\ (prev = 1
                 \/ exists k text j,
                      (k <= i)%nat /\ nth_error lines k = Some text
                      /\ occurs_at text triple_single j))
         \/ (currentBlockState b = 2
             /\ (prev = 2
                 \/ exists k text j,
                      (k <= i)%nat /\ nth_error lines k = Some text
                      /\ occurs_at text triple_double j)).
Proof.
  revert prev. induction lines as [|text rest IH]; intros prev.
  - exists []. repeat split_and; try reflexivity.
    intros [|i] b H; discriminate.
  - destruct (rehighlight_shape text prev (-1))
      as (b0 & multiline & Hb0 & _ & _ & Hstate0).
    destruct (IH (currentBlockState b0)) as (blocks & Hrest & Hlen & Hst).
    exists (b0 :: blocks). rewrite highlight_lines_cons, Hb0, Hrest.
    repeat split_and; [reflexivity | cbn [List.length]; now rewrite Hlen |].
    intros [|i] b Hb; cbn [nth_error] in Hb.
    + inversion Hb; subst b.
      destruct Hstate0 as [H0|[[H1 [Hp|(j & Hj)]]|[H2 [Hp|(j & Hj)]]]]; auto.
      * right; left. split; [exact H1|]. right. exists 0%nat, text, j.
        repeat split_and; [lia | reflexivity | exact Hj].
      * right; right. split; [exact H2|]. right. exists 0%nat, text, j.
        repeat split_and; [lia | reflexivity | exact Hj].
    + destruct (Hst i b Hb)
        as [H0|[[H1 [Hp|(k & t & j & Hk & Ht & Hj)]]
               |[H2 [Hp|(k & t & j & Hk & Ht & Hj)]]]]; auto.
      * (* state 1 came in from the first line *)
        right; left. split; [exact H1|].
        rewrite Hp in Hstate0.
        destruct Hstate0 as [H|[[_ [Hq|(j & Hj)]]|[H _]]];
          try discriminate; auto.
        right. exists 0%nat, text, j.
        repeat split_and; [lia | reflexivity | exact Hj].
      * right; left. split; [exact H1|]. right. exists (S k), t, j.
        repeat split_and; [lia | exact Ht | exact Hj].
      * right; right. split; [exact H2|].
        rewrite Hp in Hstate0.
        destruct Hstate0 as [H|[[H _]|[_ [Hq|(j & Hj)]]]];
          try discriminate; auto.
        right. exists 0%nat, text, j.
        repeat split_and; [lia | reflexivity | exact Hj].
      * right; right. split; [exact H2|]. right. exists (S k), t, j.
        repeat split_and; [lia | exact Ht | exact Hj].
Qed.

(** X3: highlighting a whole document from its first line returns one
    block per line, each in state 0, 1 or 2; the block of line [i] is in
    state 1 only if ['''] occurs in one of the lines 0..i, and in state 2
    only if the triple double quote occurs in one of them.  So a document
    without triple quotes has every line in state 0. *)
Theorem document_states_come_from_delimiters :
  forall lines : list str,
    exists blocks,
      highlight_document lines = Some blocks
      /\ List.length blocks = List.length lines
      /\ forall i b,
           nth_error blocks i = Some b ->
           currentBlockState b = 0
           \/ (currentBlockState b = 1
               /\ exists k text j,
                    (k <= i)%nat /\ nth_error lines k = Some text
                    /\ occurs_at text triple_single j)
           \/ (currentBlockState b = 2
               /\ exists k text j,
                    (k <= i)%nat /\ nth_error lines k = Some text
                    /\ occurs_at text triple_double j).
Proof.
  intros lines. unfold highlight_document.
  destruct (highlight_lines_states (-1) lines) as (blocks & Hb & Hlen & Hst).
  exists blocks. repeat split_and; try assumption.
  intros i b Hi.
  destruct (Hst i b Hi) as [H0|[[H1 [Hp|H]]|[H2 [Hp|H]]]];
    try discriminate; auto.
Qed.

(** A line inside a multi-line string whose closing delimiter does not
    occur in it: the whole line is a string, and the state stays. *)
Lemma rehighlight_inside_string text prev userState :
  prev = 1 \/ prev = 2 ->
  (forall j, ~ occurs_at text (closing_delimiter prev) j) ->
  exists r,
    rehighlight text prev userState = Some r
    /\ currentBlockState r = prev
    /\ forall i, 0 <= i < len text ->
         format_at text (spans r) i = string_format.
Proof.
  intros Hprev Hno. unfold rehighlight.
  rewrite highlightBlock_unfold. cbn zeta.
  assert (Hd : (if prev =? 1 then triple_single
                else if prev =? 2 then triple_double else [])
               = closing_delimiter prev)
    by (destruct Hprev as [->| ->]; reflexivity).
  rewrite Hd.
  assert (Hpos : (0 <? prev) = true)
    by (destruct Hprev as [->| ->]; reflexivity).
  rewrite Hpos.
  destruct (find_spec text (closing_delimiter prev) 0 ltac:(lia))
    as [[He _]|(_ & _ & Hocc & _)]; [|now apply Hno in Hocc].
  cbn zeta in He. rewrite He. cbn [Z.eqb].
  eexists. repeat split_and; [reflexivity | reflexivity |].
  intros i Hi. pose proof (len_units text).
  apply setFormat_styles; lia.
Qed.

(** X4: the lines that follow an opened multi-line string, as long as its
    closing delimiter does not occur in them: every one is left in the
    state that came in, and its first [len(text)] UTF-16 code units are
    shown in the string format, whatever the single-line rules matched in
    them.  That is the whole line when it has no character outside the
    Basic Multilingual Plane; a line with such characters has more code
    units than [len(text)], and the last ones keep what the single-line
    rules gave them. *)
Theorem lines_inside_a_multiline_string :
  forall (previousBlockState : Z) (lines : list str),
    previousBlockState = 1 \/ previousBlockState = 2 ->
    Forall (fun text =>
              forall j,
                ~ occurs_at text (closing_delimiter previousBlockState) j)
           lines ->
    exists blocks,
      highlight_lines previousBlockState lines = Some blocks
      /\ List.length blocks = List.length lines
      /\ forall i b text,
           nth_error blocks i = Some b -> nth_error lines i = Some text ->
           currentBlockState b = previousBlockState
           /\ (forall k, 0 <= k < len text ->
                 format_at text (spans b) k = string_format)
           /\ (forallb Utf16.bmp text = true ->
               forall k, 0 <= k < len (Utf16.units text) ->
                 format_at text (spans b) k = string_format).
Proof.
  intros prev lines Hprev. induction lines as [|text rest IH]; intros Hall.
  - exists []. repeat split_and; try reflexivity.
    intros [|i] b t H; discriminate.
  - apply Forall_cons_iff in Hall. destruct Hall as [Hno Hrest].
    destruct (rehighlight_inside_string text prev (-1) Hprev Hno)
      as (b0 & Hb0 & Hs0 & Hf0).
    destruct (IH Hrest) as (blocks & Hb & Hlen & Hst).
    exists (b0 :: blocks). rewrite highlight_lines_cons, Hb0, Hs0, Hb.
    repeat split_and; [reflexivity | cbn [List.length]; now rewrite Hlen |].
    intros [|i] b t Hi Ht; cbn [nth_error] in Hi, Ht.
    + injection Hi as <-. injection Ht as <-.
      split; [exact Hs0|]. split; [exact Hf0|].
      intros Hbmp k Hk. apply Hf0.
      rewrite (units_bmp text Hbmp) in Hk. exact Hk.
    + exact (Hst i b t Hi Ht).
Qed.

(** A witness of X4: two lines of a docstring, after its opening line. *)
Lemma lines_inside_a_multiline_string_witness :
  (2 = 1 \/ 2 = 2)
  /\ Forall (fun text => forall j, ~ occurs_at text (closing_delimiter 2) j)
            docstring_lines
  /\ exists blocks,
       highlight_lines 2 docstring_lines = Some blocks
       /\ List.length blocks = List.length docstring_lines.
Proof.
  assert (Hno : Forall (fun text =>
                          forall j, ~ occurs_at text (closing_delimiter 2) j)
                       docstring_lines).
  { repeat constructor; apply find_nowhere; vm_compute; reflexivity. }
  split; [now right|]. split; [exact Hno|].
  destruct (lines_inside_a_multiline_string 2 docstring_lines
              (or_intror eq_refl) Hno) as (blocks & Hb & Hlen & _).
  exists blocks. split; [exact Hb | exact Hlen].
Defined.

(** ** The matches of a rule *)

Section SearchFacts.

Import Regex.

Variable text : str.

Lemma search_some (r : regex) (n pos s e : nat) :
  search text r n pos = Some (s, e) ->
  match_at text r s = Some e
  /\ (pos <= s <= List.length text)%nat
  /\ forall j, (pos <= j < s)%nat -> match_at text r j = None.
Proof.
  revert pos. induction n as [|n IH]; intros pos H; [discriminate|].
  cbn [search] in H.
  destruct (Nat.ltb_spec (List.length text) pos) as [Hlt|Hle];
    [discriminate|].
  destruct (match_at text r pos) as [e'|] eqn:Hm.
  - injection H as <- <-. split; [exact Hm|]. split; [lia|]. intros; lia.
  - apply IH in H. destruct H as (H1 & H2 & H3).
    split; [exact H1|]. split; [lia|].
    intros j Hj. destruct (Nat.eq_dec j pos) as [->|Hne]; [exact Hm|].
    apply H3. lia.
Qed.


(** Every match that [globalMatch] reports is a match of the pattern at
    its start. *)
Lemma globalMatch_from_sound (r : regex) (n pos : nat) (m : Z * Z) :
  In m (globalMatch_from text r n pos) ->
  exists s e,
    m = (Z.of_nat s, Z.of_nat (e - s))
    /\ (pos <= s <= e)%nat /\ (e <= List.length text)%nat
    /\ match_at text r s = Some e.
Proof.
  revert pos. induction n as [|n IH]; intros pos H; [contradiction|].
  cbn [globalMatch_from] in H.
  destruct (search text r (S (S (List.length text))) pos)
    as [[s e]|] eqn:Hs; [|contradiction].
  destruct (search_some _ _ _ _ _ Hs) as (Hm & Hrange & _).
  destruct (search_range text _ _ _ _ _ Hs) as [Hse He].
  destruct H as [<-|H].
  - exists s, e. split; [reflexivity|]. split; [lia|]. split; [lia|exact Hm].
  - apply IH in H. destruct H as (s' & e' & -> & H1 & H2 & H3).
    exists s', e'. split; [reflexivity|].
    split; [destruct (s <? e)%nat; lia|]. split; assumption.
Qed.


(** *** Whole words *)

Lemma nth_error_skipn_add (i k : nat) :
  nth_error (skipn i text) k = nth_error text (i + k).
Proof.
  revert i. induction text as [|c t IH]; intros i.
  - now destruct i, k.
  - destruct i as [|i]; [reflexivity|]. cbn [skipn Nat.add nth_error].
    apply IH.
Qed.

Lemma startswith_nth (t s : str) :
  startswith t s = true <->
  forall k, (k < List.length s)%nat -> nth_error t k = nth_error s k.
Proof.
  revert t. induction s as [|c s IH]; intros t.
  - split; [cbn; intros; lia | now destruct t].
  - destruct t as [|d t]; cbn [startswith].
    + split; [discriminate|]. intros H.
      specialize (H 0%nat ltac:(cbn; lia)). discriminate.
    + rewrite andb_true_iff, Z.eqb_eq, IH. split.
      * intros [-> H] [|k] Hk; [reflexivity|]. cbn [nth_error].
        apply H. cbn in Hk. lia.
      * intros H. split.
        -- specialize (H 0%nat ltac:(cbn; lia)). cbn in H. congruence.
        -- intros k Hk. apply (H (S k)). cbn. lia.
Qed.



Lemma word_char_at_of_nat (i : nat) :
  word_char_at text (Z.of_nat i) = word_at text i.
Proof.
  unfold word_char_at. destruct (Z.ltb_spec (Z.of_nat i) 0); [lia|].
  now rewrite Nat2Z.id.
Qed.

Lemma word_char_before (i : nat) :
  word_char_at text (Z.of_nat i - 1)
  = match i with O => false | S j => word_at text j end.
Proof.
  destruct i as [|j].
  - reflexivity.
  - replace (Z.of_nat (S j) - 1) with (Z.of_nat j) by lia.
    apply word_char_at_of_nat.
Qed.


End SearchFacts.




(** *** Comments *)

Section CommentFacts.

Import Regex.

Variable text : str.



Lemma occurs_at_char (c : Z) (i : nat) :
  occurs_at text [c] (Z.of_nat i) <-> nth_error text i = Some c.
Proof.
  unfold occurs_at. rewrite Nat2Z.id, startswith_nth.
  split.
  - intros [_ H]. specialize (H 0%nat ltac:(cbn; lia)).
    rewrite nth_error_skipn_add, Nat.add_0_r in H. exact H.
  - intros H. split.
    + assert ((i < List.length text)%nat)
        by (apply nth_error_Some; congruence).
      unfold len. lia.
    + intros [|k] Hk; [|cbn in Hk; lia].
      now rewrite nth_error_skipn_add, Nat.add_0_r.
Qed.

End CommentFacts.



(** *** Quoted strings *)

Section QuotedFacts.

Import Regex.

Variable text : str.
Variable q : Z.

(** The lazy star of [q.*?q] stops at the first [q] that it meets, and
    gives up at a newline. *)
Lemma lazy_dot_until_quote (n j e : nat) :
  (List.length text - j < n)%nat ->
  repeat_match false (rmatch text Dot)
    (fun j' => rmatch text (Chr q) j' (fun e' => Some e')) n j = Some e ->
  (j < e)%nat /\ nth_error text (e - 1) = Some q
  /\ forall p c, (j <= p < e - 1)%nat -> nth_error text p = Some c ->
       c <> q /\ c <> 10.
Proof.
  revert j. induction n as [|n IH]; intros j Hn H; [lia|].
  cbn [repeat_match rmatch or_else] in H. unfold one_char in H.
  destruct (nth_error text j) as [c|] eqn:Hc; [|discriminate].
  destruct (Z.eqb_spec q c) as [<-|Hne].
  - injection H as <-. replace (S j - 1)%nat with j by lia.
    split; [lia|]. split; [exact Hc|]. intros p c Hp. lia.
  - cbn [or_else] in H. unfold not_newline in H.
    destruct (Z.eqb_spec c 10) as [->|Hnl]; [discriminate|]. cbn [negb] in H.
    destruct (Nat.ltb_spec j (S j)) as [_|Hlt]; [|lia].
    assert (Hj : (j < List.length text)%nat)
      by (apply nth_error_Some; congruence).
    apply IH in H; [|lia]. destruct H as (H1 & H2 & H3).
    split; [lia|]. split; [exact H2|].
    intros p d Hp Hd. destruct (Nat.eq_dec p j) as [->|Hpj].
    + rewrite Hc in Hd. injection Hd as <-. split; congruence.
    + apply (H3 p d); [lia | exact Hd].
Qed.

(** A match of [q.*?q]: from a [q] to the next [q], with no newline in
    between. *)
Lemma quoted_pattern_match_at (i e : nat) :
  match_at text (Highlighter.quoted_pattern q) i = Some e ->
  (i + 2 <= e)%nat
  /\ nth_error text i = Some q /\ nth_error text (e - 1) = Some q
  /\ forall p c, (i < p < e - 1)%nat -> nth_error text p = Some c ->
       c <> q /\ c <> 10.
Proof.
  unfold match_at, Highlighter.quoted_pattern. cbn [rmatch].
  unfold one_char at 1.
  destruct (nth_error text i) as [c|] eqn:Hc; [|discriminate].
  destruct (Z.eqb_spec q c) as [<-|]; [|discriminate].
  intros H.
  assert (Hi : (i < List.length text)%nat)
    by (apply nth_error_Some; congruence).
  apply lazy_dot_until_quote in H; [|lia].
  destruct H as (H1 & H2 & H3).
  split; [lia|]. split; [reflexivity|]. split; [exact H2|].
  intros p c Hp. apply H3. lia.
Qed.

End QuotedFacts.

(** X7: the two rules for quoted strings are not greedy.  Every match
    [(s, n)] that [globalMatch] reports for [q.*?q] has at least the two
    quotes, starts with [q] and ends with [q], and has neither a [q] nor a
    newline in between: a string span ends at the first quote after the
    one that opens it, and never runs over the next string of the line. *)
Theorem quoted_strings_end_at_the_next_quote :
  forall (text : str) (q s n : Z),
    In (s, n) (Regex.globalMatch text (quoted_pattern q)) ->
    2 <= n
    /\ occurs_at text [q] s
    /\ occurs_at text [q] (s + n - 1)
    /\ forall p, s < p < s + n - 1 ->
         ~ occurs_at text [q] p /\ ~ occurs_at text [10] p.
Proof.
  intros text q s n H. apply globalMatch_from_sound in H.
  destruct H as (i & e & Hm & _ & He & Hmatch).
  injection Hm as -> ->.
  apply quoted_pattern_match_at in Hmatch.
  destruct Hmatch as (Hlen & Hfirst & Hlast & Hbetween).
  repeat split_and.
  - lia.
  - now apply occurs_at_char.
  - replace (Z.of_nat i + Z.of_nat (e - i) - 1) with (Z.of_nat (e - 1))
      by lia.
    now apply occurs_at_char.
  - intros p Hp.
    assert (Hpn : p = Z.of_nat (Z.to_nat p)) by lia.
    rewrite Hpn, !occurs_at_char.
    split; intros Hc;
      destruct (Hbetween (Z.to_nat p) _ ltac:(lia) Hc); congruence.
Qed.

(** A witness of X7: the two strings of [two_quoted] are two spans. *)
Lemma quoted_strings_end_at_the_next_quote_witness :
  Regex.globalMatch two_quoted (quoted_pattern squote) = [(6, 3); (12, 3)]
  /\ occurs_at two_quoted [squote] 6
  /\ occurs_at two_quoted [squote] (6 + 3 - 1).
Proof.
  assert (Hg : Regex.globalMatch two_quoted (quoted_pattern squote)
               = [(6, 3); (12, 3)]) by (vm_compute; reflexivity).
  split; [exact Hg|].
  destruct (quoted_strings_end_at_the_next_quote two_quoted squote 6 3)
    as (_ & Hfirst & Hlast & _).
  - rewrite Hg. now left.
  - split; [exact Hfirst | exact Hlast].
Defined.

(** *** The order of the matches of one rule *)

Lemma left_to_right_from text from from' l :
  from' <= from -> left_to_right text from l -> left_to_right text from' l.
Proof.
  destruct l as [|sp l]; [auto|]. cbn [left_to_right].
  intros Hle (H1 & H2 & H3 & H4). repeat split_and; try assumption. lia.
Qed.

Lemma globalMatch_from_left_to_right text r f n pos :
  left_to_right text (Z.of_nat pos)
    (map (fun m => mkSpan (fst m) (snd m) f)
         (Regex.globalMatch_from text r n pos)).
Proof.
  revert pos. induction n as [|n IH]; intros pos; [exact I|].
  cbn [Regex.globalMatch_from].
  destruct (Regex.search text r (S (S (List.length text))) pos)
    as [[s e]|] eqn:Hs; [|exact I].
  destruct (search_range text _ _ _ _ _ Hs) as [Hse He].
  cbn [map left_to_right fst snd span_start span_count].
  repeat split_and; try (unfold len; lia).
  eapply left_to_right_from; [|apply IH].
  destruct (s <? e)%nat; lia.
Qed.

(** X8: the matches of one rule do not overlap.  The [setFormat] calls
    that the loop of [highlightBlock] makes for one rule go from left to
    right, each starting at or after the end of the one before, all
    within the line as Qt measures it, in UTF-16 code units (calls of
    different rules may overlap, and then the later rule wins). *)
Theorem matches_of_one_rule_do_not_overlap :
  forall (text : str) (pattern : Regex.regex) (format_rule : QTextCharFormat),
    left_to_right (Utf16.units text) 0
      (rule_spans [(pattern, format_rule)] text)
    /\ spans (apply_rule text (fresh_block (-1)) (pattern, format_rule))
       = rule_spans [(pattern, format_rule)] text.
Proof.
  intros text pattern format_rule. split.
  - unfold rule_spans, globalMatch_of. cbn [flat_map fst snd].
    rewrite app_nil_r.
    destruct (Utf16.well_formed (Utf16.units text)); [|exact I].
    apply (globalMatch_from_left_to_right (Utf16.units text) pattern
             format_rule _ 0).
  - rewrite apply_rule_spans. reflexivity.
Qed.

(** *** Numbers and names *)

Section ClassFacts.

Import Regex.

Variable text : str.

Lemma char_at_of_nat (p : Z -> bool) (i : nat) :
  char_at text p (Z.of_nat i)
  = match nth_error text i with Some c => p c | None => false end.
Proof.
  unfold char_at. destruct (Z.ltb_spec (Z.of_nat i) 0); [lia|].
  now rewrite Nat2Z.id.
Qed.

Lemma word_char_at_char_at (i : Z) :
  word_char_at text i = char_at text word_char i.
Proof. reflexivity. Qed.

Lemma all_chars_of_nat (p : Z -> bool) (i e : nat) :
  (forall m, (i <= m < e)%nat ->
     exists c, nth_error text m = Some c /\ p c = true) ->
  all_chars text p (Z.of_nat i) (Z.of_nat e).
Proof.
  intros H k Hk.
  replace k with (Z.of_nat (Z.to_nat k)) by lia. rewrite char_at_of_nat.
  destruct (H (Z.to_nat k) ltac:(lia)) as (c & -> & Hc). exact Hc.
Qed.

(** One round of a greedy star over a class. *)
Lemma repeat_class_S (p : Z -> bool) (k : nat -> option nat) (n i : nat) :
  repeat_match true (rmatch text (Class p)) k (S n) i
  = or_else
      (match nth_error text i with
       | Some c =>
           if p c then repeat_match true (rmatch text (Class p)) k n (S i)
           else None
       | None => None
       end)
      (k i).
Proof.
  cbn [repeat_match].
  set (R := repeat_match true (rmatch text (Class p)) k n).
  cbn [rmatch]. unfold one_char.
  destruct (nth_error text i) as [c|]; [|reflexivity].
  destruct (p c); [|reflexivity].
  destruct (Nat.ltb_spec i (S i)); [reflexivity | lia].
Qed.

(** What a greedy star over a class has consumed belongs to the class. *)
Lemma star_class_sound (p : Z -> bool) (k : nat -> option nat)
    (n i e : nat) :
  repeat_match true (rmatch text (Class p)) k n i = Some e ->
  exists j,
    (i <= j)%nat /\ k j = Some e
    /\ forall m, (i <= m < j)%nat ->
         exists c, nth_error text m = Some c /\ p c = true.
Proof.
  revert i. induction n as [|n IH]; intros i H.
  - cbn [repeat_match] in H. exists i.
    split; [lia|]. split; [exact H|]. intros m Hm. lia.
  - rewrite repeat_class_S in H.
    assert (Hstop : k i = Some e ->
              exists j,
                (i <= j)%nat /\ k j = Some e
                /\ forall m, (i <= m < j)%nat ->
                     exists c, nth_error text m = Some c /\ p c = true).
    { intros Hk. exists i. split; [lia|]. split; [exact Hk|].
      intros m Hm. lia. }
    destruct (nth_error text i) as [c|] eqn:Hc; [|exact (Hstop H)].
    destruct (p c) eqn:Hp; [|exact (Hstop H)].
    destruct (repeat_match true (rmatch text (Class p)) k n (S i))
      as [e'|] eqn:Hrec; cbn [or_else] in H; [|exact (Hstop H)].
    injection H as ->.
    destruct (IH (S i) Hrec) as (j & Hj & Hk & Hall).
    exists j. split; [lia|]. split; [exact Hk|].
    intros m Hm. destruct (Nat.eq_dec m i) as [->|Hne]; [eauto|].
    apply Hall. lia.
Qed.

(** A greedy star over a class that nothing follows stops where the
    class stops. *)
Lemma star_class_maximal (p : Z -> bool) (n i e : nat) :
  (List.length text - i < n)%nat ->
  repeat_match true (rmatch text (Class p)) (fun j => Some j) n i = Some e ->
  char_at text p (Z.of_nat e) = false.
Proof.
  revert i. induction n as [|n IH]; intros i Hn H; [lia|].
  rewrite repeat_class_S in H.
  destruct (nth_error text i) as [c|] eqn:Hc.
  - destruct (p c) eqn:Hp.
    + assert (Hi : (i < List.length text)%nat)
        by (apply nth_error_Some; congruence).
      destruct (repeat_match true (rmatch text (Class p))
                  (fun j => Some j) n (S i)) as [e'|] eqn:Hrec;
        cbn [or_else] in H.
      * injection H as ->. apply (IH (S i)); [lia | exact Hrec].
      * injection H as <-. destruct n as [|n]; [lia|].
        rewrite repeat_class_S in Hrec.
        destruct (match nth_error text (S i) with
                  | Some c0 =>
                      if p c0
                      then repeat_match true (rmatch text (Class p))
                             (fun j => Some j) n (S (S i))
                      else None
                  | None => None
                  end); discriminate.
    + cbn [or_else] in H. injection H as <-.
      now rewrite char_at_of_nat, Hc.
  - cbn [or_else] in H. injection H as <-.
    now rewrite char_at_of_nat, Hc.
Qed.

(** What [r+] over a class has consumed: at least one character. *)
Lemma plus_class_sound (p : Z -> bool) (k : nat -> option nat) (i e : nat) :
  rmatch text (Plus (Class p)) i k = Some e ->
  exists j,
    (i < j)%nat /\ k j = Some e
    /\ forall m, (i <= m < j)%nat ->
         exists c, nth_error text m = Some c /\ p c = true.
Proof.
  cbn [rmatch]. unfold one_char at 1.
  destruct (nth_error text i) as [c|] eqn:Hc; [|discriminate].
  destruct (p c) eqn:Hp; [|discriminate].
  intros H. apply star_class_sound in H.
  destruct H as (j & Hj & Hk & Hall).
  exists j. split; [lia|]. split; [exact Hk|].
  intros m Hm. destruct (Nat.eq_dec m i) as [->|Hne]; [eauto|].
  apply Hall. lia.
Qed.

Lemma at_word_boundary_spec (i : nat) :
  at_word_boundary text i
  = xorb (word_char_at text (Z.of_nat i - 1)) (word_char_at text (Z.of_nat i)).
Proof.
  unfold at_word_boundary.
  now rewrite word_char_before, word_char_at_of_nat.
Qed.

(** The equations of the matcher, one constructor at a time. *)
Lemma rmatch_Cat (r1 r2 : regex) (i : nat) (k : nat -> option nat) :
  rmatch text (Cat r1 r2) i k = rmatch text r1 i (fun j => rmatch text r2 j k).
Proof. reflexivity. Qed.

Lemma rmatch_WordBoundary (i : nat) (k : nat -> option nat) :
  rmatch text WordBoundary i k
  = if at_word_boundary text i then k i else None.
Proof. reflexivity. Qed.

Lemma rmatch_Opt (r : regex) (i : nat) (k : nat -> option nat) :
  rmatch text (Opt r) i k = or_else (rmatch text r i k) (k i).
Proof. reflexivity. Qed.

Lemma rmatch_Star (r : regex) (i : nat) (k : nat -> option nat) :
  rmatch text (Star r) i k
  = repeat_match true (rmatch text r) k (S (List.length text)) i.
Proof. reflexivity. Qed.

Lemma rmatch_Chr (c : Z) (i : nat) (k : nat -> option nat) :
  rmatch text (Chr c) i k
  = match nth_error text i with
    | Some d => if c =? d then k (S i) else None
    | None => None
    end.
Proof. reflexivity. Qed.

(** A match of the number pattern. *)
Lemma number_pattern_match_at (i e : nat) :
  match_at text Highlighter.number_pattern i = Some e ->
  exists j1 j2,
    (i < j1)%nat /\ (j1 <= j2 <= e)%nat
    /\ at_word_boundary text i = true
    /\ all_chars text digit (Z.of_nat i) (Z.of_nat j1)
    /\ (j2 = j1 \/ (j2 = S j1 /\ nth_error text j1 = Some 46))
    /\ all_chars text digit (Z.of_nat j2) (Z.of_nat e)
    /\ at_word_boundary text e = true.
Proof.
  unfold match_at, Highlighter.number_pattern.
  rewrite rmatch_Cat, rmatch_WordBoundary.
  destruct (at_word_boundary text i) eqn:Hb; [|discriminate].
  rewrite rmatch_Cat. intros H.
  apply (plus_class_sound digit) in H.
  destruct H as (j1 & Hj1 & Hk & Hdigits).
  cbv beta in Hk. rewrite rmatch_Cat, rmatch_Opt in Hk.
  assert (Hrest : forall j2,
            rmatch text (Cat (Star (Class digit)) WordBoundary) j2
              (fun j => Some j) = Some e ->
            (j2 <= e)%nat
            /\ all_chars text digit (Z.of_nat j2) (Z.of_nat e)
            /\ at_word_boundary text e = true).
  { intros j2 Hs. rewrite rmatch_Cat, rmatch_Star in Hs.
    apply star_class_sound in Hs.
    destruct Hs as (j3 & Hj3 & Hk3 & Hall3).
    rewrite rmatch_WordBoundary in Hk3.
    destruct (at_word_boundary text j3) eqn:Hb3; [|discriminate].
    injection Hk3 as <-.
    split; [lia|]. split; [now apply all_chars_of_nat | exact Hb3]. }
  exists j1.
  assert (Hplain :
            rmatch text (Cat (Star (Class digit)) WordBoundary) j1
              (fun j => Some j) = Some e ->
            exists j2,
              (i < j1)%nat /\ (j1 <= j2 <= e)%nat
              /\ true = true
              /\ all_chars text digit (Z.of_nat i) (Z.of_nat j1)
              /\ (j2 = j1 \/ (j2 = S j1 /\ nth_error text j1 = Some 46))
              /\ all_chars text digit (Z.of_nat j2) (Z.of_nat e)
              /\ at_word_boundary text e = true).
  { intros Hs. destruct (Hrest _ Hs) as (H1 & H2 & H3).
    exists j1. split; [exact Hj1|]. split; [lia|]. split; [reflexivity|].
    split; [now apply all_chars_of_nat|]. split; [now left|].
    split; assumption. }
  rewrite rmatch_Chr in Hk.
  destruct (nth_error text j1) as [c|] eqn:Hc; [|exact (Hplain Hk)].
  destruct (Z.eqb_spec 46 c) as [<-|Hne]; [|exact (Hplain Hk)].
  destruct (rmatch text (Cat (Star (Class digit)) WordBoundary) (S j1)
              (fun j => Some j)) as [e'|] eqn:Hdot;
    cbn [or_else] in Hk; [|exact (Hplain Hk)].
  injection Hk as ->. destruct (Hrest _ Hdot) as (H1 & H2 & H3).
  exists (S j1). split; [exact Hj1|]. split; [lia|]. split; [reflexivity|].
  split; [now apply all_chars_of_nat|].
  split; [right; split; reflexivity|].
  split; assumption.
Qed.

(** A match of the pattern of a name before a parenthesis. *)
Lemma call_pattern_match_at (i e : nat) :
  match_at text Highlighter.call_pattern i = Some e ->
  (i < e)%nat
  /\ at_word_boundary text i = true
  /\ all_chars text word_char (Z.of_nat i) (Z.of_nat e)
  /\ nth_error text e = Some 40.
Proof.
  unfold match_at, Highlighter.call_pattern. cbn [rmatch].
  destruct (at_word_boundary text i) eqn:Hb; [|discriminate].
  intros H. apply (plus_class_sound word_char) in H.
  destruct H as (j & Hj & Hk & Hall).
  unfold one_char in Hk.
  destruct (nth_error text j) as [c|] eqn:Hc; [|discriminate].
  destruct (Z.eqb_spec 40 c) as [<-|]; [|discriminate].
  injection Hk as <-.
  repeat split_and; try assumption; try reflexivity.
  now apply all_chars_of_nat.
Qed.

(** A match of the pattern of a name after [class ] or [def ]. *)
Lemma name_after_match_at (kw : string) (i e : nat) :
  match_at text (Highlighter.name_after kw) i = Some e ->
  (i < e)%nat
  /\ (String.length kw < i)%nat
  /\ startswith (skipn (i - S (String.length kw)) text) (of_string kw) = true
  /\ char_at text space (Z.of_nat i - 1) = true
  /\ all_chars text word_char (Z.of_nat i) (Z.of_nat e)
  /\ char_at text word_char (Z.of_nat e) = false.
Proof.
  unfold match_at, Highlighter.name_after. cbn [rmatch].
  destruct (Nat.leb_spec (S (String.length kw)) i) as [Hw|]; [|discriminate].
  destruct (startswith (skipn (i - S (String.length kw)) text) (of_string kw))
    eqn:Hs; [|discriminate].
  assert (Hlen : List.length (of_string kw) = String.length kw).
  { unfold of_string. rewrite length_map.
    clear. induction kw as [|a kw IH]; [reflexivity|].
    cbn [list_ascii_of_string List.length String.length]. now rewrite IH. }
  rewrite Hlen. unfold one_char at 1.
  replace (i - S (String.length kw) + String.length kw)%nat
    with (i - 1)%nat by lia.
  destruct (nth_error text (i - 1)) as [c|] eqn:Hc; [|discriminate].
  destruct (space c) eqn:Hsp; [|discriminate].
  replace (S (i - 1)) with i by lia. rewrite Nat.eqb_refl.
  intros H.
  assert (Hmax : char_at text word_char (Z.of_nat e) = false).
  { cbn [rmatch] in H. unfold one_char in H.
    destruct (nth_error text i) as [d|] eqn:Hd; [|discriminate].
    destruct (word_char d); [|discriminate].
    assert (Hi : (i < List.length text)%nat)
      by (apply nth_error_Some; congruence).
    apply star_class_maximal in H; [exact H | lia]. }
  apply (plus_class_sound word_char) in H.
  destruct H as (j & Hj & Hk & Hall). injection Hk as <-.
  repeat split_and; try assumption; try lia.
  - replace (Z.of_nat i - 1) with (Z.of_nat (i - 1)) by lia.
    now rewrite char_at_of_nat, Hc.
  - now apply all_chars_of_nat.
Qed.

End ClassFacts.

(** X9: what the number rule marks.  Every match [(s, n)] of
    [\b[0-9]+\.?[0-9]*\b] is made of [d >= 1] digits, then at most one
    dot, then digits; it starts at a word boundary, so that the character
    before it is no letter, digit or underscore; and it ends at a word
    boundary: after a last digit comes no letter, digit or underscore,
    and a dot is the last character of the match only when a letter,
    digit or underscore follows it. *)
Theorem number_rule_marks_digits_and_one_dot :
  forall (text : str) (s n : Z),
    In (s, n) (Regex.globalMatch text number_pattern) ->
    exists d dot,
      1 <= d /\ (dot = 0 \/ dot = 1) /\ d + dot <= n
      /\ all_chars text Regex.digit s (s + d)
      /\ (dot = 1 -> occurs_at text [46] (s + d))
      /\ all_chars text Regex.digit (s + d + dot) (s + n)
      /\ word_char_at text (s - 1) = false
      /\ word_char_at text (s + n)
         = negb (word_char_at text (s + n - 1)).
Proof.
  intros text s n H. apply globalMatch_from_sound in H.
  destruct H as (i & e & Hm & _ & He & Hmatch).
  injection Hm as -> ->.
  apply number_pattern_match_at in Hmatch.
  destruct Hmatch as (j1 & j2 & Hj1 & Hj2 & Hb & Hd1 & Hdot & Hd2 & Hbe).
  assert (Hfirst : word_char_at text (Z.of_nat i) = true).
  { rewrite word_char_at_char_at.
    assert (Hdig : char_at text Regex.digit (Z.of_nat i) = true)
      by (apply Hd1; lia).
    unfold char_at in *. destruct (Z.of_nat i <? 0); [discriminate|].
    destruct (nth_error text (Z.to_nat (Z.of_nat i))) as [c|];
      [|discriminate].
    unfold Regex.word_char. unfold Regex.digit in Hdig. rewrite Hdig.
    now rewrite !orb_true_r. }
  rewrite at_word_boundary_spec, Hfirst in Hb.
  rewrite at_word_boundary_spec in Hbe.
  replace (Z.of_nat i + Z.of_nat (e - i)) with (Z.of_nat e) by lia.
  exists (Z.of_nat (j1 - i)), (Z.of_nat (j2 - j1)).
  replace (Z.of_nat i + Z.of_nat (j1 - i)) with (Z.of_nat j1) by lia.
  replace (Z.of_nat j1 + Z.of_nat (j2 - j1)) with (Z.of_nat j2) by lia.
  repeat split_and; try assumption; try lia.
  - intros Hone. destruct Hdot as [->|[-> Hc]]; [lia|].
    now apply occurs_at_char.
  - now destruct (word_char_at text (Z.of_nat i - 1)).
  - destruct (word_char_at text (Z.of_nat e - 1)),
      (word_char_at text (Z.of_nat e)); cbn in Hbe |- *; congruence.
Qed.

(** A witness of X9: in [numbers_line], [3.] is marked because an [x]
    follows, and [7] without the dot that ends the line. *)
Lemma number_rule_marks_digits_and_one_dot_witness :
  Regex.globalMatch numbers_line number_pattern
  = [(5, 2); (11, 4); (18, 1)]
  /\ word_char_at numbers_line (5 - 1) = false
  /\ word_char_at numbers_line (5 + 2)
     = negb (word_char_at numbers_line (5 + 2 - 1))
  /\ word_char_at numbers_line (18 + 1)
     = negb (word_char_at numbers_line (18 + 1 - 1)).
Proof.
  assert (Hg : Regex.globalMatch numbers_line number_pattern
               = [(5, 2); (11, 4); (18, 1)]) by (vm_compute; reflexivity).
  split; [exact Hg|].
  destruct (number_rule_marks_digits_and_one_dot numbers_line 5 2)
    as (d1 & dot1 & _ & _ & _ & _ & _ & _ & Hbefore1 & Hend1);
    [rewrite Hg; now left|].
  destruct (number_rule_marks_digits_and_one_dot numbers_line 18 1)
    as (d2 & dot2 & _ & _ & _ & _ & _ & _ & _ & Hend2);
    [rewrite Hg; right; right; now left|].
  split; [exact Hbefore1|]. split; [exact Hend1 | exact Hend2].
Defined.

(** X10: what the three rules for names mark.  A match of the rule for
    calls is a run of letters, digits and underscores that starts at a
    word boundary and is followed at once by an opening parenthesis.  A
    match of the rules for the names after [class] and [def] is a run of
    letters, digits and underscores, as long as it can be, that comes
    right after the letters of the keyword and one white-space character;
    nothing is asked of what stands before the keyword. *)
Theorem name_rules_mark_whole_names :
  forall (text : str) (s n : Z),
    (In (s, n) (Regex.globalMatch text call_pattern) ->
       1 <= n
       /\ all_chars text Regex.word_char s (s + n)
       /\ word_char_at text (s - 1) = false
       /\ occurs_at text [40] (s + n))
    /\ (forall kw : string,
          In (s, n) (Regex.globalMatch text (name_after kw)) ->
          1 <= n
          /\ all_chars text Regex.word_char s (s + n)
          /\ word_char_at text (s + n) = false
          /\ char_at text Regex.space (s - 1) = true
          /\ occurs_at text (of_string kw)
               (s - 1 - Z.of_nat (String.length kw))).
Proof.
  intros text s n. split.
  - intros H. apply globalMatch_from_sound in H.
    destruct H as (i & e & Hm & _ & He & Hmatch).
    injection Hm as -> ->.
    apply call_pattern_match_at in Hmatch.
    destruct Hmatch as (Hie & Hb & Hall & Hparen).
    replace (Z.of_nat i + Z.of_nat (e - i)) with (Z.of_nat e) by lia.
    assert (Hfirst : word_char_at text (Z.of_nat i) = true)
      by (rewrite word_char_at_char_at; apply Hall; lia).
    rewrite at_word_boundary_spec, Hfirst in Hb.
    repeat split_and; try assumption; try lia.
    + now destruct (word_char_at text (Z.of_nat i - 1)).
    + now apply occurs_at_char.
  - intros kw H. apply globalMatch_from_sound in H.
    destruct H as (i & e & Hm & _ & He & Hmatch).
    injection Hm as -> ->.
    apply name_after_match_at in Hmatch.
    destruct Hmatch as (Hie & Hkw & Hs & Hsp & Hall & Hmax).
    replace (Z.of_nat i + Z.of_nat (e - i)) with (Z.of_nat e) by lia.
    repeat split_and; try assumption; try lia.
    unfold occurs_at.
    replace (Z.to_nat (Z.of_nat i - 1 - Z.of_nat (String.length kw)))
      with (i - S (String.length kw))%nat by lia.
    split; [unfold len; lia | exact Hs].
Qed.

(** A witness of X10: in [undef_line] the name after [undef ] is marked
    as the name of a function, and so are the names before a
    parenthesis. *)
Lemma name_rules_mark_whole_names_witness :
  Regex.globalMatch undef_line def_pattern = [(6, 2)]
  /\ Regex.globalMatch undef_line call_pattern = [(6, 2); (20, 1)]
  /\ occurs_at undef_line (of_string "def") (6 - 1 - 3)
  /\ occurs_at undef_line [40] (20 + 1).
Proof.
  assert (Hd : Regex.globalMatch undef_line def_pattern = [(6, 2)])
    by (vm_compute; reflexivity).
  assert (Hc : Regex.globalMatch undef_line call_pattern
               = [(6, 2); (20, 1)]) by (vm_compute; reflexivity).
  split; [exact Hd|]. split; [exact Hc|].
  destruct (name_rules_mark_whole_names undef_line 6 2) as [_ Hname].
  destruct (name_rules_mark_whole_names undef_line 20 1) as [Hcall _].
  destruct (Hname "def"%string) as (_ & _ & _ & _ & Hkw);
    [unfold def_pattern in Hd; rewrite Hd; now left|].
  destruct Hcall as (_ & _ & _ & Hparen);
    [rewrite Hc; right; now left|].
  split; [exact Hkw | exact Hparen].
Defined.

(** ** The gutter *)

Section GutterWidthFacts.

Import Gutter.

Lemma decimal_digits_mono (n m d d' : Z) :
  decimal_digits n d -> decimal_digits m d' -> n <= m -> d <= d'.
Proof.
  intros (Hd & Hlo & Hhi) (Hd' & Hlo' & Hhi') Hnm.
  destruct (Z_le_gt_dec d d') as [H|H]; [exact H|].
  assert (10 ^ d' <= 10 ^ (d - 1)) by (apply Z.pow_le_mono_r; lia).
  lia.
Qed.

Lemma lineNumberAreaWidth_digits (blockCount w : Z) :
  exists d,
    decimal_digits (Z.max 1 blockCount) d
    /\ lineNumberAreaWidth blockCount w = padding + w * d.
Proof.
  destruct (count_digits_spec (Z.max 1 blockCount) 1 ltac:(lia))
    as (d & Hd & Hc).
  exists d. split; [exact Hd|].
  unfold lineNumberAreaWidth, padding. cbn zeta. rewrite Hc. f_equal. f_equal.
  lia.
Qed.

End GutterWidthFacts.

(** X11: the gutter never gets narrower when lines are added: for a digit
    width that is not negative, the width for [n] lines is at most the
    width for [m >= n] lines; and up to 9 lines, also for a count of 0 or
    less, it is the padding plus one digit. *)
Theorem gutter_width_grows_with_the_line_count :
  forall n m w : Z,
    0 <= w -> n <= m ->
    Gutter.lineNumberAreaWidth n w <= Gutter.lineNumberAreaWidth m w
    /\ (n <= 9 -> Gutter.lineNumberAreaWidth n w = Gutter.padding + w).
Proof.
  intros n m w Hw Hnm.
  destruct (lineNumberAreaWidth_digits n w) as (d & Hd & ->).
  destruct (lineNumberAreaWidth_digits m w) as (d' & Hd' & ->).
  split.
  - pose proof (decimal_digits_mono _ _ _ _ Hd Hd' ltac:(lia)). nia.
  - intros H9.
    assert (Hone : Gutter.decimal_digits (Z.max 1 n) 1)
      by (unfold Gutter.decimal_digits; cbn; lia).
    rewrite (decimal_digits_unique _ _ _ Hd Hone). lia.
Qed.

(** A witness of X11: no line and a thousand lines, digits 8 pixels wide. *)
Lemma gutter_width_grows_with_the_line_count_witness :
  0 <= 8 /\ 0 <= 1000
  /\ Gutter.lineNumberAreaWidth 0 8 <= Gutter.lineNumberAreaWidth 1000 8
  /\ Gutter.lineNumberAreaWidth 0 8 = Gutter.padding + 8.
Proof.
  destruct (gutter_width_grows_with_the_line_count 0 1000 8
              ltac:(lia) ltac:(lia)) as [Hle H9].
  split; [lia|]. split; [lia|]. split; [exact Hle | apply H9; lia].
Defined.

Section PaintEventFacts.

Import LineNumberArea.

Variable qreal : Type.
Variable add : qreal -> qreal -> qreal.
Variable leb : qreal -> qreal -> bool.
Variable of_int : Z -> qreal.
Variable to_int : qreal -> Z.

(** The numbers drawn by the loop are numbers of visible blocks, one more
    than the offset of the block counted from [blockNumber], and they
    come in increasing order. *)
Lemma paint_loop_numbers blocks blockNumber top bottom rect_top rect_bottom :
  let drawn :=
    map (draw_number)
        (paint_loop qreal add leb of_int to_int blocks blockNumber
                    top bottom rect_top rect_bottom) in
  Forall (fun number =>
            blockNumber < number
                        <= blockNumber + Z.of_nat (List.length blocks)
            /\ exists block,
                 nth_error blocks (Z.to_nat (number - blockNumber - 1))
                 = Some block
                 /\ isVisible qreal block = true)
         drawn
  /\ StronglySorted Z.lt drawn.
Proof.
  cbn zeta. revert blockNumber top bottom.
  induction blocks as [|block next IH]; intros blockNumber top bottom.
  - cbn. split; constructor.
  - cbn [paint_loop]. destruct (leb top (of_int rect_bottom));
      [|cbn; split; constructor].
    destruct (IH (blockNumber + 1) bottom
                 (add bottom (height_of qreal of_int next)))
      as [Hall Hsorted].
    assert (Hall' : Forall (fun number =>
              blockNumber + 1 < number
                <= blockNumber + Z.of_nat (List.length (block :: next))
              /\ exists b,
                   nth_error (block :: next)
                             (Z.to_nat (number - blockNumber - 1)) = Some b
                   /\ isVisible qreal b = true)
              (map draw_number
                 (paint_loop qreal add leb of_int to_int next (blockNumber + 1)
                    bottom (add bottom (height_of qreal of_int next))
                    rect_top rect_bottom))).
    { eapply Forall_impl; [|exact Hall].
      intros number (Hrange & b & Hb & Hv). cbn [List.length].
      split; [lia|]. exists b. split; [|exact Hv].
      replace (Z.to_nat (number - blockNumber - 1))
        with (S (Z.to_nat (number - (blockNumber + 1) - 1))) by lia.
      exact Hb. }
    rewrite map_app.
    destruct (isVisible qreal block && leb (of_int rect_top) bottom)
      eqn:Hdraw; cbn [map app draw_number].
    + apply andb_true_iff in Hdraw. destruct Hdraw as [Hv _]. split.
      * constructor.
        -- split; [cbn [List.length]; lia|]. exists block.
           replace (blockNumber + 1 - blockNumber - 1) with 0 by lia.
           split; [reflexivity | exact Hv].
        -- eapply Forall_impl; [|exact Hall'].
           intros number (Hrange & Hb). split; [lia | exact Hb].
      * constructor; [exact Hsorted|].
        eapply Forall_impl; [|exact Hall'].
        intros number (Hrange & _). lia.
    + split; [|exact Hsorted].
      eapply Forall_impl; [|exact Hall'].
      intros number (Hrange & Hb). split; [lia | exact Hb].
Qed.

End PaintEventFacts.

(** X12: whatever the geometry, the line numbers that the paint event
    draws are drawn for visible blocks only, each is the number of its
    block plus one (the block [number - blockNumber - 1] places after the
    first visible one), none exceeds the number of the last block plus
    one, and they are drawn in increasing order, so none is drawn twice. *)
Theorem line_numbers_follow_the_blocks :
  forall (qreal : Type) (add : qreal -> qreal -> qreal)
         (leb : qreal -> qreal -> bool) (of_int : Z -> qreal)
         (to_int : qreal -> Z)
         (blocks : list (LineNumberArea.QTextBlock qreal))
         (blockNumber : Z) (top : qreal) (rect_top rect_bottom : Z),
    let drawn :=
      map (LineNumberArea.draw_number)
          (LineNumberArea.lineNumberAreaPaintEvent qreal add leb of_int
             to_int blocks blockNumber top rect_top rect_bottom) in
    Forall (fun number =>
              blockNumber < number
                          <= blockNumber + Z.of_nat (List.length blocks)
              /\ exists block,
                   nth_error blocks (Z.to_nat (number - blockNumber - 1))
                   = Some block
                   /\ LineNumberArea.isVisible qreal block = true)
           drawn
    /\ StronglySorted Z.lt drawn.
Proof.
  intros. unfold drawn, LineNumberArea.lineNumberAreaPaintEvent.
  apply paint_loop_numbers.
Qed.

(** The paint event on [three_blocks], numbered from 41, in a rectangle
    of 100 pixels: the folded block gets no number. *)
Example three_blocks_painted :
  LineNumberArea.lineNumberAreaPaintEvent Z Z.add Z.leb id id
    three_blocks 41 (-3) 0 99
  = [LineNumberArea.mkDrawText (-3) 42; LineNumberArea.mkDrawText 14 44].
Proof. reflexivity. Qed.

(** ** Saving *)

Section SavingFacts.

Import App.

Variable os : OS.

Lemma document_eq st st' :
  document st' = document st <->
  editor_text st' = editor_text st
  /\ current_file_path st' = current_file_path st
  /\ document_modified st' = document_modified st
  /\ window_modified st' = window_modified st.
Proof.
  unfold document. split.
  - intros H. injection H as H1 H2 H3 H4. auto.
  - intros (-> & -> & -> & ->). reflexivity.
Qed.

(** The three ways [_write_to_file] can go. *)
Lemma write_to_file_cases file_path st :
  (exists bytes,
      writable os file_path = true
      /\ TextIO.write_text (windows os) (editor_text st) = Some bytes
      /\ _write_to_file os file_path st
         = (true,
            showMessage (SavedTo file_path)
              (set_current_file (Some file_path)
                 (with_files (store file_path bytes (files st)) st))))
  \/ (writable os file_path = true
      /\ TextIO.write_text (windows os) (editor_text st) = None
      /\ _write_to_file os file_path st
         = (false,
            show CouldNotSave
              (with_files (store file_path [] (files st)) st)))
  \/ (writable os file_path = false
      /\ _write_to_file os file_path st = (false, show CouldNotSave st)).
Proof.
  unfold _write_to_file.
  destruct (writable os file_path); [|right; right; auto].
  destruct (TextIO.write_text (windows os) (editor_text st)) as [bytes|].
  - left. exists bytes. auto.
  - right; left. auto.
Qed.

Lemma store_same path bytes f : store path bytes f path = Some bytes.
Proof. unfold store. now rewrite String.eqb_refl. Qed.

Lemma store_other path bytes f q : q <> path -> store path bytes f q = f q.
Proof.
  intros H. unfold store. destruct (String.eqb_spec q path); congruence.
Qed.

(** What a call of [_write_to_file] leaves. *)
Lemma write_to_file_outcome file_path st :
  let ok := fst (_write_to_file os file_path st) in
  let st' := snd (_write_to_file os file_path st) in
  (ok = true ->
     exists bytes,
       TextIO.write_text (windows os) (editor_text st) = Some bytes
       /\ writable os file_path = true
       /\ files st' file_path = Some bytes
       /\ (forall q, q <> file_path -> files st' q = files st q)
       /\ document st' = (editor_text st, Some file_path, false, false)
       /\ status st' = SavedTo file_path
       /\ dialogs st' = dialogs st)
  /\ (ok = false ->
        document st' = document st
        /\ status st' = status st
        /\ (dialogs st' = dialogs st ++ [CouldNotSave])
        /\ ((forall q, files st' q = files st q)
            \/ (writable os file_path = true
                /\ TextIO.write_text (windows os) (editor_text st) = None))).
Proof.
  cbn zeta.
  destruct (write_to_file_cases file_path st)
    as [(bytes & Hw & Hb & ->)|[(Hw & Hb & ->)|(Hw & ->)]];
    cbn [fst snd]; (split; [intros Hok | intros Hok]); try discriminate.
  - exists bytes. repeat split_and; try reflexivity; try assumption.
    + cbn. apply store_same.
    + intros q Hq. cbn. now apply store_other.
  - repeat split_and; try reflexivity. now right.
  - repeat split_and; try reflexivity. now left.
Qed.

(** What a call of [save_file] leaves. *)
Lemma save_file_outcome u st :
  let ok := fst (save_file os u st) in
  let st' := snd (save_file os u st) in
  (ok = true ->
     exists p bytes,
       save_target u st = Some p
       /\ writable os p = true
       /\ TextIO.write_text (windows os) (editor_text st) = Some bytes
       /\ files st' p = Some bytes
       /\ (forall q, q <> p -> files st' q = files st q)
       /\ document st' = (editor_text st, Some p, false, false)
       /\ status st' = SavedTo p)
  /\ (ok = false ->
        document st' = document st
        /\ status st' = status st
        /\ ((forall q, files st' q = files st q)
            \/ (exists p, save_target u st = Some p
                          /\ writable os p = true)
               /\ TextIO.write_text (windows os) (editor_text st) = None)).
Proof.
  cbn zeta. unfold save_file, save_target.
  destruct (current_file_path st) as [p|] eqn:Hp.
  - destruct (write_to_file_outcome p st) as [Hok Hfail]. cbn zeta in *.
    split.
    + intros H. destruct (Hok H) as (bytes & H1 & H2 & H3 & H4 & H5 & H6 & _).
      exists p, bytes. auto 10.
    + intros H. destruct (Hfail H) as (H1 & H2 & _ & H4).
      repeat split_and; try assumption.
      destruct H4 as [H4|[H4 H5]]; [now left | right; eauto].
  - unfold save_file_as.
    destruct (truthy (save_file_name u)) eqn:Ht.
    + destruct (write_to_file_outcome (save_file_name u)
                  (show GetSaveFileName st)) as [Hok Hfail].
      cbn zeta in *. split.
      * intros H.
        destruct (Hok H) as (bytes & H1 & H2 & H3 & H4 & H5 & H6 & _).
        exists (save_file_name u), bytes. auto 10.
      * intros H. destruct (Hfail H) as (H1 & H2 & _ & H4).
        apply document_eq in H1. cbn [show editor_text current_file_path
          document_modified window_modified] in H1.
        repeat split_and; [now apply document_eq | exact H2 |].
        destruct H4 as [H4|[H4 H5]]; [now left | right; eauto].
    + cbn [fst snd]. split; [discriminate|]. intros _.
      repeat split_and; try reflexivity. now left.
Qed.

End SavingFacts.

(** X13: [save_file], through [save_file_as] and [_write_to_file], tells
    the truth about what it did.  When it returns [True], the file of the
    document (or, for a document without file, the file named in the
    dialog) holds the UTF-8 bytes of the text, no other file has changed,
    and the document is that file, unmodified, with the text as it was.
    When it returns [False], the text, the file of the document and the
    modified marks are as before, as is the status bar, and no file has
    changed unless the text could not be encoded after the file had been
    opened.  And it returns [True] whenever the file can be written and
    the text consists of Unicode scalar values. *)
Theorem save_tells_what_it_did :
  forall (os : App.OS) (u : App.User) (st : App.State),
    let ok := fst (App.save_file os u st) in
    let st' := snd (App.save_file os u st) in
    (ok = true ->
       exists p bytes,
         save_target u st = Some p
         /\ App.writable os p = true
         /\ TextIO.write_text (App.windows os) (App.editor_text st)
            = Some bytes
         /\ App.files st' p = Some bytes
         /\ (forall q, q <> p -> App.files st' q = App.files st q)
         /\ document st' = (App.editor_text st, Some p, false, false)
         /\ App.status st' = App.SavedTo p)
    /\ (ok = false ->
          document st' = document st
          /\ App.status st' = App.status st
          /\ ((forall q, App.files st' q = App.files st q)
              \/ TextIO.write_text (App.windows os) (App.editor_text st)
                 = None))
    /\ (forall p,
          save_target u st = Some p -> App.writable os p = true ->
          Forall Utf8.scalar_value (App.editor_text st) ->
          ok = true).
Proof.
  intros os u st ok st'.
  destruct (save_file_outcome os u st) as [Hok Hfail].
  fold ok st' in Hok, Hfail.
  repeat split_and.
  - exact Hok.
  - intros H. destruct (Hfail H) as (H1 & H2 & H3).
    repeat split_and; try assumption.
    destruct H3 as [H3|[_ H3]]; auto.
  - intros p Hp Hw Hs.
    destruct ok eqn:E; [reflexivity|]. exfalso.
    destruct (write_text_scalar (App.windows os) _ Hs) as [bytes Hb].
    unfold ok in E. clear Hok Hfail.
    unfold App.save_file, save_target in *.
    destruct (App.current_file_path st) as [q|].
    + injection Hp as ->.
      destruct (write_to_file_cases os p st)
        as [(b & _ & _ & H)|[(_ & H & _)|(H & _)]].
      * rewrite H in E. discriminate.
      * rewrite H in Hb. discriminate.
      * rewrite H in Hw. discriminate.
    + unfold App.save_file_as in E.
      destruct (App.truthy (App.save_file_name u)); [|discriminate].
      injection Hp as <-.
      destruct (write_to_file_cases os (App.save_file_name u)
                  (App.show App.GetSaveFileName st))
        as [(b & _ & _ & H)|[(_ & H & _)|(H & _)]].
      * rewrite H in E. discriminate.
      * cbn [App.show App.editor_text] in H. rewrite H in Hb. discriminate.
      * rewrite H in Hw. discriminate.
Qed.

(** ** Unsaved changes *)

Section UnsavedFacts.

Import App.

Variable os : OS.

(** The question of [maybe_save] on a modified document. *)
Lemma maybe_save_modified u st :
  document_modified st = true ->
  maybe_save os u st
  = match warning_answer u with
    | Save => save_file os u (show SaveDiscardCancel st)
    | Cancel => (false, show SaveDiscardCancel st)
    | Discard => (true, show SaveDiscardCancel st)
    end.
Proof. intros H. unfold maybe_save. rewrite H. reflexivity. Qed.

(** After [maybe_save] on a modified document, unless the user discards
    the changes: [True] means that the text is in a file, [False] that it
    is still in the editor. *)
Lemma maybe_save_keeps_or_saves u st :
  document_modified st = true -> warning_answer u <> Discard ->
  if fst (maybe_save os u st)
  then text_on_disk os st (snd (maybe_save os u st))
  else unsaved_text_kept st (snd (maybe_save os u st)).
Proof.
  intros Hmod Hans. rewrite (maybe_save_modified u st Hmod).
  destruct (warning_answer u); [|contradiction|].
  - destruct (save_file_outcome os u (show SaveDiscardCancel st))
      as [Hok Hfail]. cbn zeta in *.
    destruct (fst (save_file os u (show SaveDiscardCancel st))).
    + destruct (Hok eq_refl) as (p & bytes & _ & _ & Hb & Hf & _).
      exists p, bytes. split; assumption.
    + destruct (Hfail eq_refl) as (Hdoc & _).
      apply document_eq in Hdoc. cbn [show editor_text current_file_path
        document_modified window_modified] in Hdoc.
      destruct Hdoc as (H1 & H2 & H3 & _).
      unfold unsaved_text_kept. rewrite H1, H2, H3. auto.
  - cbn [fst snd]. unfold unsaved_text_kept. cbn. auto.
Qed.

End UnsavedFacts.

(** X14: unsaved changes are lost only when the user says so.  On a
    modified document and with any answer but Discard, after [new_file]
    and after [open_file] the text is still in the editor, still marked
    as modified and with its file, or its UTF-8 bytes are in a file; the
    close event is accepted only if they are in a file, and is refused
    with the text still in the editor otherwise.  With the answer Cancel
    nothing happens at all beyond the question. *)
Theorem unsaved_changes_are_kept_or_saved :
  forall (os : App.OS) (u : App.User) (st : App.State),
    App.document_modified st = true ->
    App.warning_answer u <> App.Discard ->
    (unsaved_text_kept st (App.new_file os u st)
     \/ text_on_disk os st (App.new_file os u st))
    /\ (unsaved_text_kept st (App.open_file os u st)
        \/ text_on_disk os st (App.open_file os u st))
    /\ (if fst (App.closeEvent os u st)
        then text_on_disk os st (snd (App.closeEvent os u st))
        else unsaved_text_kept st (snd (App.closeEvent os u st)))
    /\ (App.warning_answer u = App.Cancel ->
        App.new_file os u st = App.show App.SaveDiscardCancel st
        /\ App.open_file os u st = App.show App.SaveDiscardCancel st
        /\ App.closeEvent os u st
           = (false, App.show App.SaveDiscardCancel st)).
Proof.
  intros os u st Hmod Hans.
  pose proof (maybe_save_keeps_or_saves os u st Hmod Hans) as H.
  repeat split_and.
  - unfold App.new_file.
    destruct (App.maybe_save os u st) as [ok st1]. cbn [fst snd] in H.
    destruct ok; [right | left; exact H].
    destruct H as (p & bytes & Hb & Hf). exists p, bytes.
    split; [exact Hb | exact Hf].
  - unfold App.open_file.
    destruct (App.maybe_save os u st) as [ok st1]. cbn [fst snd] in H.
    destruct ok; [right | left; exact H].
    destruct H as (p & bytes & Hb & Hf). exists p, bytes.
    split; [exact Hb|].
    destruct (App.truthy (App.open_file_name u)); [|exact Hf].
    cbn [App.show App.files].
    destruct (App.files st1 (App.open_file_name u)) as [content|];
      [|exact Hf].
    destruct (TextIO.read_text content); exact Hf.
  - exact H.
  - intros Hc. unfold App.new_file, App.open_file, App.closeEvent.
    rewrite (maybe_save_modified os u st Hmod), Hc. auto.
Qed.

(** A witness of X14: the typed program, and a user who cancels. *)
Lemma unsaved_changes_are_kept_or_saved_witness :
  App.document_modified typed_program = true
  /\ App.warning_answer cancelling_user = App.Cancel
  /\ App.new_file posix cancelling_user typed_program
     = App.show App.SaveDiscardCancel typed_program
  /\ App.closeEvent posix cancelling_user typed_program
     = (false, App.show App.SaveDiscardCancel typed_program).
Proof.
  split; [reflexivity|]. split; [reflexivity|].
  destruct (unsaved_changes_are_kept_or_saved posix cancelling_user
              typed_program eq_refl ltac:(discriminate))
    as (_ & _ & _ & Hcancel).
  destruct (Hcancel eq_refl) as (Hnew & _ & Hclose).
  split; [exact Hnew | exact Hclose].
Defined.

(** ** Opening *)

Section ReadingFacts.

Import Utf8 TextIO.

(** What [decode] returns consists of scalar values. *)
Lemma decode_scalar_bounded (n : nat) :
  forall (bytes : list Z) (s : str),
    (List.length bytes <= n)%nat ->
    decode bytes = Some s -> Forall scalar_value s.
Proof.
  induction n as [|n IH]; intros bytes s Hn H.
  - destruct bytes; [|cbn in Hn; lia]. injection H as <-. constructor.
  - destruct bytes as [|b0 r0]; [injection H as <-; constructor|].
    cbn [decode] in H. cbn [List.length] in Hn.
    assert (Hcons : forall c rest,
              (List.length rest <= n)%nat -> scalar_value c ->
              option_map (cons c) (decode rest) = Some s ->
              Forall scalar_value s).
    { intros c rest Hr Hc E.
      destruct (decode rest) as [t|] eqn:Ht; [|discriminate].
      injection E as <-. constructor; [exact Hc|].
      exact (IH rest t Hr Ht). }
    destruct ((0 <=? b0) && (b0 <? 0x80)) eqn:C1.
    { refine (Hcons b0 r0 _ _ H); [lia|].
      apply andb_true_iff in C1. unfold scalar_value. lia. }
    destruct ((0xC0 <=? b0) && (b0 <? 0xE0)) eqn:C2.
    { destruct r0 as [|b1 r1]; [discriminate|]. cbn zeta in H.
      destruct (is_cont b1 && (0x80 <=? (b0 - 0xC0) * 64 + (b1 - 0x80)))
        eqn:C; [|discriminate].
      refine (Hcons _ r1 _ _ H); [cbn [List.length] in Hn; lia|].
      unfold is_cont in C. apply andb_true_iff in C2.
      rewrite !andb_true_iff in C. unfold scalar_value. lia. }
    destruct ((0xE0 <=? b0) && (b0 <? 0xF0)) eqn:C3.
    { destruct r0 as [|b1 [|b2 r2]]; try discriminate. cbn zeta in H.
      destruct (is_cont b1 && is_cont b2
                && (0x800 <=? (b0 - 0xE0) * 4096 + (b1 - 0x80) * 64
                              + (b2 - 0x80))
                && negb (is_surrogate ((b0 - 0xE0) * 4096 + (b1 - 0x80) * 64
                                       + (b2 - 0x80))))
        eqn:C; [|discriminate].
      refine (Hcons _ r2 _ _ H); [cbn [List.length] in Hn; lia|].
      unfold is_cont, is_surrogate in C. apply andb_true_iff in C3.
      rewrite !andb_true_iff, negb_true_iff, andb_false_iff in C.
      unfold scalar_value. lia. }
    destruct ((0xF0 <=? b0) && (b0 <? 0xF8)) eqn:C4; [|discriminate].
    destruct r0 as [|b1 [|b2 [|b3 r3]]]; try discriminate. cbn zeta in H.
    destruct (is_cont b1 && is_cont b2 && is_cont b3
              && (0x10000 <=? (b0 - 0xF0) * 262144 + (b1 - 0x80) * 4096
                              + (b2 - 0x80) * 64 + (b3 - 0x80))
              && ((b0 - 0xF0) * 262144 + (b1 - 0x80) * 4096
                  + (b2 - 0x80) * 64 + (b3 - 0x80) <? 0x110000))
      eqn:C; [|discriminate].
    refine (Hcons _ r3 _ _ H); [cbn [List.length] in Hn; lia|].
    rewrite !andb_true_iff in C. unfold scalar_value. lia.
Qed.

Lemma decode_scalar (bytes : list Z) (s : str) :
  decode bytes = Some s -> Forall scalar_value s.
Proof. apply (decode_scalar_bounded (List.length bytes)). lia. Qed.

(** Universal newlines leave no carriage return, and add nothing but
    line feeds. *)
Lemma universal_newlines_bounded (P : Z -> Prop) (n : nat) :
  P LF ->
  forall s, (List.length s <= n)%nat ->
    Forall P s ->
    Forall (fun c => P c /\ c <> CR) (universal_newlines s).
Proof.
  intros HP. induction n as [|n IH]; intros s Hn Hs.
  - destruct s; [constructor | cbn in Hn; lia].
  - destruct s as [|c rest]; [constructor|].
    apply Forall_cons_iff in Hs. destruct Hs as [Hc Hrest].
    cbn [List.length] in Hn. cbn [universal_newlines].
    destruct (Z.eqb_spec c CR) as [->|Hne].
    + constructor; [split; [exact HP | unfold LF, CR; lia]|].
      destruct rest as [|d rest']; [constructor|].
      destruct (d =? LF).
      * apply Forall_cons_iff in Hrest. destruct Hrest as [_ Hrest'].
        apply IH; [cbn [List.length] in Hn; lia | exact Hrest'].
      * apply IH; [lia | exact Hrest].
    + constructor; [split; assumption|]. apply IH; [lia | exact Hrest].
Qed.

(** What [read_text] returns can be written and read back. *)
Lemma read_text_clean (bytes : list Z) (content : str) :
  read_text bytes = Some content ->
  Forall (fun c => scalar_value c /\ c <> CR) content.
Proof.
  unfold read_text. destruct (decode bytes) as [s|] eqn:Hd; [|discriminate].
  intros [= <-].
  apply (universal_newlines_bounded scalar_value (List.length s));
    [unfold scalar_value, LF; lia | lia | exact (decode_scalar _ _ Hd)].
Qed.

End ReadingFacts.

(** X15: what [open_file] does on a document without unsaved changes,
    once the user has chosen a file.  If the file exists and holds valid
    UTF-8, [setPlainText] gets its text, with every line end read as one
    line feed, and the editor then holds what its widget makes of that
    text (nothing is assumed here of what the widget changes); the file
    becomes the file of the document, and nothing is marked as modified.
    The text that was read has no carriage return and consists of scalar
    values, so that it can always be encoded, and writing it and reading
    it back gives the same text.  Otherwise (no such file, or bytes that
    are not UTF-8) an error is shown and the text, the file of the
    document and the modified marks are as before.  No file is written
    either way. *)
Theorem open_file_loads_a_text_that_can_be_saved :
  forall (os : App.OS) (u : App.User) (st : App.State),
    App.document_modified st = false ->
    App.truthy (App.open_file_name u) = true ->
    let p := App.open_file_name u in
    let st' := App.open_file os u st in
    App.files st' = App.files st
    /\ match option_map TextIO.read_text (App.files st p) with
       | Some (Some content) =>
           document st'
           = (App.toPlainText os content, Some p, false, false)
           /\ App.dialogs st' = App.dialogs st ++ [App.GetOpenFileName]
           /\ Forall (fun c => Utf8.scalar_value c /\ c <> TextIO.CR) content
           /\ exists bytes,
                TextIO.write_text (App.windows os) content = Some bytes
                /\ TextIO.read_text bytes = Some content
       | _ =>
           document st' = document st
           /\ App.dialogs st'
              = App.dialogs st ++ [App.GetOpenFileName; App.CouldNotOpen]
       end.
Proof.
  intros os u st Hmod Htruthy p st'.
  unfold st', App.open_file, App.maybe_save. rewrite Hmod. cbn [negb].
  rewrite Htruthy. cbn [App.show App.files]. fold p.
  destruct (App.files st p) as [bytes|] eqn:Hf; cbn [option_map].
  - destruct (TextIO.read_text bytes) as [content|] eqn:Hr.
    + pose proof (read_text_clean _ _ Hr) as Hclean.
      repeat split_and; try reflexivity; try assumption.
      assert (Hs : Forall Utf8.scalar_value content)
        by (eapply Forall_impl; [|exact Hclean]; now intros c [H _]).
      assert (Hc : Forall (fun c => c <> TextIO.CR) content)
        by (eapply Forall_impl; [|exact Hclean]; now intros c [_ H]).
      destruct (write_text_scalar (App.windows os) content Hs)
        as [bytes' Hw].
      exists bytes'. split; [exact Hw|].
      exact (read_write_text _ _ _ Hc Hw).
    + repeat split_and; try reflexivity.
      cbn. now rewrite <- app_assoc.
  - repeat split_and; try reflexivity.
    cbn. now rewrite <- app_assoc.
Qed.

(** A witness of X15: opening [a.py], which holds one line that ends
    in a carriage return and a line feed. *)
Lemma open_file_loads_a_text_that_can_be_saved_witness :
  App.document_modified (App.initial crlf_disk) = false
  /\ App.truthy (App.open_file_name opening_user) = true
  /\ option_map TextIO.read_text
       (App.files (App.initial crlf_disk) (App.open_file_name opening_user))
     = Some (Some [104; 105; 10])
  /\ document (App.open_file windows_os opening_user (App.initial crlf_disk))
     = ([104; 105; 10], Some "a.py"%string, false, false)
  /\ App.dialogs
       (App.open_file windows_os opening_user (App.initial crlf_disk))
     = [App.GetOpenFileName].
Proof.
  assert (E : option_map TextIO.read_text
                (App.files (App.initial crlf_disk)
                   (App.open_file_name opening_user))
              = Some (Some [104; 105; 10]))
    by (vm_compute; reflexivity).
  split; [reflexivity|]. split; [reflexivity|]. split; [exact E|].
  pose proof (open_file_loads_a_text_that_can_be_saved windows_os
                opening_user (App.initial crlf_disk) eq_refl eq_refl) as H.
  cbn zeta in H. destruct H as (_ & Hcase).
  rewrite E in Hcase. destruct Hcase as (Hdoc & Hdialogs & _).
  split; [exact Hdoc | exact Hdialogs].
Defined.

(** ** Running *)

Section RunningFacts.

Import App.

Variable os : OS.

Lemma not_in_snoc (d : Dialog) (l : list Dialog) :
  d <> CannotRun -> ~ In CannotRun l -> ~ In CannotRun (l ++ [d]).
Proof.
  intros Hd Hl H. apply in_app_iff in H. destruct H as [H|[H|[]]]; auto.
Qed.

Lemma named_file_write file_path st :
  truthy file_path = true -> named_file st ->
  named_file (snd (_write_to_file os file_path st)).
Proof.
  intros Ht [Hp Hd].
  destruct (write_to_file_cases os file_path st)
    as [(bytes & _ & _ & ->)|[(_ & _ & ->)|(_ & ->)]]; cbn [snd];
    unfold named_file; cbn [current_file_path dialogs show showMessage
      set_current_file with_files with_path with_modified].
  - split; [|exact Hd]. intros p [= <-]. exact Ht.
  - split; [exact Hp|]. apply not_in_snoc; [discriminate | exact Hd].
  - split; [exact Hp|]. apply not_in_snoc; [discriminate | exact Hd].
Qed.

Lemma named_file_show d st :
  d <> CannotRun -> named_file st -> named_file (show d st).
Proof.
  intros Hne [Hp Hd]. split; [exact Hp|].
  cbn [dialogs show]. now apply not_in_snoc.
Qed.

Lemma named_file_save_file_as u st :
  named_file st -> named_file (snd (save_file_as os u st)).
Proof.
  intros H. unfold save_file_as.
  destruct (truthy (save_file_name u)) eqn:Ht.
  - apply named_file_write; [exact Ht|].
    apply named_file_show; [discriminate | exact H].
  - cbn [snd]. apply named_file_show; [discriminate | exact H].
Qed.

Lemma named_file_save_file u st :
  named_file st -> named_file (snd (save_file os u st)).
Proof.
  intros H. unfold save_file.
  destruct (current_file_path st) as [p|] eqn:Hp.
  - apply named_file_write; [|exact H]. now apply (proj1 H).
  - now apply named_file_save_file_as.
Qed.

Lemma named_file_maybe_save u st :
  named_file st -> named_file (snd (maybe_save os u st)).
Proof.
  intros H. unfold maybe_save.
  destruct (negb (document_modified st)); [exact H|].
  destruct (warning_answer u); cbn [snd].
  - apply named_file_save_file, named_file_show; [discriminate | exact H].
  - apply named_file_show; [discriminate | exact H].
  - apply named_file_show; [discriminate | exact H].
Qed.

Lemma named_file_new_file u st :
  named_file st -> named_file (new_file os u st).
Proof.
  intros H. unfold new_file.
  pose proof (named_file_maybe_save u st H) as H1.
  destruct (maybe_save os u st) as [ok st1]. cbn [snd] in H1.
  destruct ok; [|exact H1].
  destruct H1 as [_ Hd]. split; [|exact Hd].
  intros p Hp. discriminate.
Qed.

Lemma named_file_open_file u st :
  named_file st -> named_file (open_file os u st).
Proof.
  intros H. unfold open_file.
  pose proof (named_file_maybe_save u st H) as H1.
  destruct (maybe_save os u st) as [ok st1]. cbn [snd] in H1.
  destruct ok; [|exact H1].
  pose proof (named_file_show GetOpenFileName st1 ltac:(discriminate) H1)
    as H2.
  destruct (truthy (open_file_name u)) eqn:Ht; [|exact H2].
  cbn [show files].
  destruct (files st1 (open_file_name u)) as [bytes|];
    [|apply named_file_show; [discriminate | exact H2]].
  destruct (TextIO.read_text bytes) as [content|];
    [|apply named_file_show; [discriminate | exact H2]].
  destruct H2 as [_ Hd]. split; [|exact Hd].
  intros p [= <-]. exact Ht.
Qed.

(** After a successful [save_file], [run_code] goes on to start the
    interpreter on the file of the document. *)
Lemma run_code_saved u start_ok st :
  named_file st -> fst (save_file os u st) = true ->
  exists p,
    current_file_path (snd (save_file os u st)) = Some p
    /\ truthy p = true
    /\ run_code os u start_ok st
       = process_start start_ok p
           (with_run_action false
              (with_output [RunningBanner p] (snd (save_file os u st)))).
Proof.
  intros Hnamed Hok.
  pose proof (named_file_save_file u st Hnamed) as [Hp _].
  destruct (save_file_outcome os u st) as [Hsaved _]. cbn zeta in Hsaved.
  destruct (Hsaved Hok) as (p & bytes & _ & _ & _ & _ & _ & Hdoc & _).
  assert (Hpath : current_file_path (snd (save_file os u st)) = Some p)
    by (unfold document in Hdoc; congruence).
  exists p. split; [exact Hpath|]. split; [exact (Hp p Hpath)|].
  unfold run_code.
  destruct (save_file os u st) as [ok st1]. cbn [fst snd] in *.
  rewrite Hok, Hpath, (Hp p Hpath). reflexivity.
Qed.

Lemma run_code_not_saved u start_ok st :
  fst (save_file os u st) = false ->
  run_code os u start_ok st
  = showMessage RunAborted (snd (save_file os u st)).
Proof.
  intros Hok. unfold run_code.
  destruct (save_file os u st) as [ok st1]. cbn [fst snd] in *.
  now rewrite Hok.
Qed.

Lemma named_file_run_code u start_ok st :
  named_file st -> named_file (run_code os u start_ok st).
Proof.
  intros H. pose proof (named_file_save_file u st H) as H1.
  destruct (fst (save_file os u st)) eqn:Hok.
  - destruct (run_code_saved u start_ok st H Hok) as (p & _ & _ & ->).
    unfold process_start.
    cbn [process_running with_run_action with_output].
    destruct (process_running (snd (save_file os u st)));
      [exact H1|]. destruct start_ok; exact H1.
  - rewrite (run_code_not_saved u start_ok st Hok). exact H1.
Qed.

Lemma named_file_step st e st' :
  named_file st -> step os st e st' -> named_file st'.
Proof.
  intros H Hstep. inversion Hstep as [e' st0 Hcan]; subst e' st0 st'.
  destruct e; cbn [handle].
  - exact H.
  - now apply named_file_new_file.
  - now apply named_file_open_file.
  - now apply named_file_save_file.
  - now apply named_file_save_file_as.
  - now apply named_file_maybe_save.
  - unfold increase_font_size. destruct (_ <? _); exact H.
  - unfold decrease_font_size. destruct (_ <? _); exact H.
  - now apply named_file_run_code.
  - exact H.
  - exact H.
  - exact H.
Qed.

Lemma named_file_reachable fs st :
  reachable os fs st -> named_file st.
Proof.
  induction 1 as [|st e st' _ IH Hstep].
  - split; [intros p Hp; discriminate | intros []].
  - eapply named_file_step; eassumption.
Qed.

(** When the run action can be triggered, no process is running. *)
Lemma enabled_not_running fs st :
  reachable os fs st -> run_action_enabled st = true ->
  process_running st = false.
Proof.
  intros Hr He. destruct (run_invariant_reachable os fs st Hr) as [Himp _].
  destruct (process_running st); [|reflexivity].
  rewrite (Himp eq_refl) in He. discriminate.
Qed.

End RunningFacts.

(** X16: in every state that the window can reach, the file of the
    document, if there is one, has a name that is not empty, and the
    warning of [run_code] that the file must be saved before running has
    never been shown: a successful [save_file] always leaves a file to
    run, so that branch of [run_code] is never taken. *)
Theorem cannot_run_warning_is_never_shown :
  forall (os : App.OS) (fs : string -> option (list Z)) (st : App.State),
    App.reachable os fs st ->
    App.current_file_path st <> Some ""%string
    /\ ~ In App.CannotRun (App.dialogs st)
    /\ forall u start_ok,
         ~ In App.CannotRun (App.dialogs (App.run_code os u start_ok st)).
Proof.
  intros os fs st Hr.
  pose proof (named_file_reachable os fs st Hr) as Hn.
  repeat split_and.
  - intros Hp. apply (proj1 Hn) in Hp. discriminate.
  - exact (proj2 Hn).
  - intros u start_ok.
    exact (proj2 (named_file_run_code os u start_ok st Hn)).
Qed.

(** A witness of X16: the window while the saved program runs. *)
Lemma cannot_run_warning_is_never_shown_witness :
  App.reachable posix no_files running_program
  /\ App.current_file_path running_program = Some "prog.py"%string
  /\ ~ In App.CannotRun (App.dialogs running_program).
Proof.
  split; [exact running_program_reachable|]. split; [reflexivity|].
  exact (proj1 (proj2 (cannot_run_warning_is_never_shown posix no_files
                         running_program running_program_reachable))).
Defined.

(** X17: the interpreter runs what is on the screen.  Whenever
    [run_code] starts a process, it starts it on the file of the document,
    which has just been written: the file holds the UTF-8 bytes of the
    text in the editor, the text is unchanged and no longer marked as
    modified, the output view holds the banner of this run and nothing
    else, and the run action is disabled.  Read back as text, the file
    gives the text of the editor when that text has no carriage return. *)
Theorem run_starts_the_text_on_screen :
  forall (os : App.OS) (u : App.User) (start_ok : bool) (st : App.State),
    App.process_running st = false ->
    let st' := App.run_code os u start_ok st in
    App.process_running st' = true ->
    exists p bytes,
      App.started st' = App.started st ++ [p]
      /\ App.current_file_path st' = Some p
      /\ App.editor_text st' = App.editor_text st
      /\ App.document_modified st' = false
      /\ TextIO.write_text (App.windows os) (App.editor_text st)
         = Some bytes
      /\ App.files st' p = Some bytes
      /\ (Forall (fun c => c <> TextIO.CR) (App.editor_text st) ->
          TextIO.read_text bytes = Some (App.editor_text st))
      /\ App.output st' = [App.RunningBanner p]
      /\ App.run_action_enabled st' = false.
Proof.
  intros os u start_ok st Hidle st' Hrun. unfold st' in *. clear st'.
  pose proof (machinery_same_run _ _ (machinery_save_file os u st))
    as (_ & Hproc & Hstarted & _).
  destruct (save_file_outcome os u st) as [Hsaved _]. cbn zeta in Hsaved.
  unfold App.run_code in *.
  destruct (App.save_file os u st) as [ok st1]. cbn [fst snd] in *.
  destruct ok; cbn [negb] in *;
    [|cbn [App.process_running App.showMessage] in Hrun; congruence].
  destruct (Hsaved eq_refl) as (p & bytes & _ & _ & Hb & Hf & _ & Hdoc & _).
  unfold document in Hdoc. injection Hdoc as Htext Hpath Hmod _.
  rewrite Hpath in *.
  destruct (App.truthy p);
    [|cbn [App.process_running App.show] in Hrun; congruence].
  unfold App.process_start in *.
  cbn [App.process_running App.with_run_action App.with_output] in *.
  rewrite Hproc, Hidle in *.
  destruct start_ok;
    [|cbn [App.process_running App.with_run_action App.with_output] in Hrun;
      congruence].
  exists p, bytes. cbn. rewrite Hstarted.
  repeat split_and; try reflexivity; try assumption.
  intros Hcr. exact (read_write_text _ _ _ Hcr Hb).
Qed.

(** A witness of X17: the typed program, saved as [prog.py] and run. *)
Lemma run_starts_the_text_on_screen_witness :
  App.process_running typed_program = false
  /\ App.process_running running_program = true
  /\ exists p bytes,
       App.started running_program = [p]
       /\ App.files running_program p = Some bytes
       /\ TextIO.read_text bytes = Some (of_string "print(1)").
Proof.
  split; [reflexivity|]. split; [reflexivity|].
  destruct (run_starts_the_text_on_screen posix saving_user true
              typed_program eq_refl eq_refl)
    as (p & bytes & Hs & _ & _ & _ & _ & Hf & Hread & _).
  exists p, bytes. split; [exact Hs|]. split; [exact Hf|].
  apply Hread. repeat constructor; discriminate.
Defined.

Section LaterFacts.

Import App.

Variable os : OS.

(** With the run action disabled and no process running, no event that
    can occur changes either, or starts a process. *)
Lemma disabled_and_idle_step st e st' :
  run_action_enabled st = false -> process_running st = false ->
  step os st e st' ->
  run_action_enabled st' = false /\ process_running st' = false
  /\ started st' = started st.
Proof.
  intros Hd Hi Hstep. inversion Hstep as [e' st0 Hcan]; subst e' st0 st'.
  destruct e; cbn [can_occur] in Hcan; try congruence;
    match goal with
    | |- context [handle os ?e st] =>
        destruct (handle_other os e st ltac:(intros; discriminate)
                    ltac:(discriminate)) as (H1 & H2 & H3 & _)
    end; rewrite H1, H2, H3; auto.
Qed.

Lemma disabled_and_idle_later st st' :
  run_action_enabled st = false -> process_running st = false ->
  later os st st' ->
  run_action_enabled st' = false /\ process_running st' = false
  /\ started st' = started st.
Proof.
  intros Hd Hi. induction 1 as [|st1 e st2 _ IH Hstep]; [auto|].
  destruct IH as (H1 & H2 & H3).
  destruct (disabled_and_idle_step st1 e st2 H1 H2 Hstep) as (H4 & H5 & H6).
  rewrite H6. auto.
Qed.

End LaterFacts.

(** X18: a run for which the interpreter cannot be started disables the
    run action for good.  When the run action is triggered in a state
    that the window can reach, the file is saved and [QProcess.start]
    fails, the run action is disabled and no process is running; and in
    every state that follows, after any events, this is still so: no
    event that can occur enables the action again (only the end of a
    process does, and there is no process), so no run is ever started
    any more. *)
Theorem failed_start_disables_run_for_good :
  forall (os : App.OS) (fs : string -> option (list Z))
         (u : App.User) (st st' : App.State),
    App.reachable os fs st ->
    App.can_occur (App.Run u false) st = true ->
    fst (App.save_file os u st) = true ->
    later os (App.run_code os u false st) st' ->
    App.run_action_enabled st' = false
    /\ App.process_running st' = false
    /\ App.started st' = App.started st
    /\ forall u' start_ok, App.can_occur (App.Run u' start_ok) st' = false.
Proof.
  intros os fs u st st' Hr Hcan Hsaved Hlater. cbn [App.can_occur] in Hcan.
  pose proof (enabled_not_running os fs st Hr Hcan) as Hidle.
  pose proof (named_file_reachable os fs st Hr) as Hnamed.
  destruct (run_code_saved os u false st Hnamed Hsaved) as (p & _ & _ & Hrun).
  pose proof (machinery_same_run _ _ (machinery_save_file os u st))
    as (_ & Hproc & Hstarted & _).
  assert (Hafter : App.run_action_enabled (App.run_code os u false st) = false
                   /\ App.process_running (App.run_code os u false st) = false
                   /\ App.started (App.run_code os u false st)
                      = App.started st).
  { rewrite Hrun. unfold App.process_start.
    cbn [App.process_running App.with_run_action App.with_output].
    rewrite Hproc, Hidle.
    cbn [App.process_running App.run_action_enabled App.started
         App.with_run_action App.with_output].
    rewrite ?Hproc, ?Hidle, ?Hstarted. auto. }
  destruct Hafter as (H1 & H2 & H3).
  destruct (disabled_and_idle_later os _ st' H1 H2 Hlater) as (H4 & H5 & H6).
  repeat split_and; try assumption; [congruence|].
  intros u' start_ok. cbn [App.can_occur]. exact H4.
Qed.

(** A witness of X18: after the failed start the user types on, and the
    run action is still disabled. *)
Lemma failed_start_disables_run_for_good_witness :
  App.reachable posix no_files typed_program
  /\ App.can_occur (App.Run saving_user false) typed_program = true
  /\ fst (App.save_file posix saving_user typed_program) = true
  /\ App.run_action_enabled
       (App.handle posix (App.Typed (of_string "print(2)")) failed_start)
     = false
  /\ App.can_occur (App.Run saving_user true)
       (App.handle posix (App.Typed (of_string "print(2)")) failed_start)
     = false.
Proof.
  unfold failed_start.
  assert (Hcan : App.can_occur (App.Run saving_user false) typed_program
                 = true) by (vm_compute; reflexivity).
  assert (Hsaved : fst (App.save_file posix saving_user typed_program)
                   = true) by (vm_compute; reflexivity).
  assert (Hlater : later posix
            (App.run_code posix saving_user false typed_program)
            (App.handle posix (App.Typed (of_string "print(2)"))
               (App.run_code posix saving_user false typed_program))).
  { eapply later_step; [apply later_now|].
    apply App.step_event. reflexivity. }
  destruct (failed_start_disables_run_for_good posix no_files saving_user
              typed_program _ typed_program_reachable Hcan Hsaved Hlater)
    as (H1 & _ & _ & H4).
  split; [exact typed_program_reachable|].
  split; [exact Hcan|]. split; [exact Hsaved|].
  split; [exact H1 | exact (H4 saving_user true)].
Defined.

Section OutputFacts.

Import App.

Variable os : OS.

Lemma forallb_is_data_snoc data item :
  forallb is_data data = true -> is_data item = true ->
  forallb is_data (data ++ [item]) = true.
Proof.
  intros Hd Hi. rewrite forallb_app, Hd. cbn. now rewrite Hi.
Qed.

(** Data that arrives while the process runs goes to the end of the
    output of the run. *)
Lemma output_of_last_run_data st item :
  is_data item = true -> process_running st = true ->
  output_of_last_run st ->
  output_of_last_run (with_output (output st ++ [item]) st).
Proof.
  intros Hi Hrun [[_ Hidle]|(p & data & finished & Hd & Hout & Himp)];
    [congruence|].
  destruct (Himp Hrun) as (-> & Hstarted).
  right. exists p, (data ++ [item]), false.
  cbn [output process_running started with_output].
  repeat split_and.
  - now apply forallb_is_data_snoc.
  - rewrite Hout. unfold run_output. cbn [app].
    now rewrite !app_nil_r.
  - intros _. split; [reflexivity | exact Hstarted].
Qed.

(** An event that leaves the output, the process and the runs alone. *)
Lemma output_of_last_run_same st st' :
  output st' = output st -> process_running st' = process_running st ->
  started st' = started st ->
  output_of_last_run st -> output_of_last_run st'.
Proof.
  unfold output_of_last_run. intros -> -> ->. auto.
Qed.

Lemma output_write file_path st :
  output (snd (_write_to_file os file_path st)) = output st.
Proof.
  destruct (write_to_file_cases os file_path st)
    as [(bytes & _ & _ & ->)|[(_ & _ & ->)|(_ & ->)]]; reflexivity.
Qed.

Lemma output_save_file_as u st :
  output (snd (save_file_as os u st)) = output st.
Proof.
  unfold save_file_as. destruct (truthy _); [|reflexivity].
  now rewrite output_write.
Qed.

Lemma output_save_file u st :
  output (snd (save_file os u st)) = output st.
Proof.
  unfold save_file. destruct (current_file_path st).
  - apply output_write.
  - apply output_save_file_as.
Qed.

Lemma output_maybe_save u st :
  output (snd (maybe_save os u st)) = output st.
Proof.
  unfold maybe_save. destruct (negb _); [reflexivity|].
  destruct (warning_answer u); try reflexivity.
  now rewrite output_save_file.
Qed.

Lemma output_new_file u st : output (new_file os u st) = output st.
Proof.
  unfold new_file. pose proof (output_maybe_save u st) as H.
  destruct (maybe_save os u st) as [ok st1]. cbn [snd] in H.
  destruct ok; [|assumption]. rewrite <- H. reflexivity.
Qed.

Lemma output_open_file u st : output (open_file os u st) = output st.
Proof.
  unfold open_file. pose proof (output_maybe_save u st) as H.
  destruct (maybe_save os u st) as [ok st1]. cbn [snd] in H.
  destruct ok; [|assumption]. rewrite <- H.
  destruct (truthy _); [|reflexivity].
  cbn [show files].
  destruct (files st1 (open_file_name u)); [|reflexivity].
  destruct (TextIO.read_text _); reflexivity.
Qed.

Lemma output_of_last_run_step fs st e st' :
  reachable os fs st -> output_of_last_run st -> step os st e st' ->
  output_of_last_run st'.
Proof.
  intros Hr Hinv Hstep.
  inversion Hstep as [e' st0 Hcan]; subst e' st0 st'.
  assert (Hsame : forall e0,
            (forall u ok, e0 <> Run u ok) -> e0 <> ProcessFinished ->
            output (handle os e0 st) = output st ->
            output_of_last_run (handle os e0 st)).
  { intros e0 H1 H2 Hout.
    destruct (handle_other os e0 st H1 H2) as (_ & Hp & Hs & _).
    now apply (output_of_last_run_same st). }
  destruct e; cbn [can_occur] in Hcan.
  - apply Hsame; [intros; discriminate | discriminate | reflexivity].
  - apply Hsame; [intros; discriminate | discriminate |].
    apply output_new_file.
  - apply Hsame; [intros; discriminate | discriminate |].
    apply output_open_file.
  - apply Hsame; [intros; discriminate | discriminate |].
    apply output_save_file.
  - apply Hsame; [intros; discriminate | discriminate |].
    apply output_save_file_as.
  - apply Hsame; [intros; discriminate | discriminate |].
    apply output_maybe_save.
  - apply Hsame; [intros; discriminate | discriminate |].
    cbn [handle]. unfold increase_font_size. now destruct (_ <? _).
  - apply Hsame; [intros; discriminate | discriminate |].
    cbn [handle]. unfold decrease_font_size. now destruct (_ <? _).
  - (* Run *)
    cbn [handle].
    pose proof (enabled_not_running os fs st Hr Hcan) as Hidle.
    pose proof (machinery_same_run _ _ (machinery_save_file os u st))
      as (_ & Hproc & Hstarted & _).
    destruct (fst (save_file os u st)) eqn:Hok.
    + destruct (run_code_saved os u start_ok st
                  (named_file_reachable os fs st Hr) Hok)
        as (p & _ & _ & ->).
      unfold process_start.
      cbn [process_running with_run_action with_output].
      rewrite Hproc, Hidle.
      right. exists p, [], false.
      destruct start_ok;
        cbn [output process_running started with_process with_run_action
             with_output];
        (repeat split_and; try reflexivity).
      * intros _. split; [reflexivity|].
        now exists (started (snd (save_file os u st))).
      * rewrite Hproc, Hidle. discriminate.
    + rewrite (run_code_not_saved os u start_ok st Hok).
      apply (output_of_last_run_same st); try assumption.
      cbn [output showMessage]. apply output_save_file.
  - cbn [handle]. unfold handle_stdout.
    now apply output_of_last_run_data.
  - cbn [handle]. unfold handle_stderr.
    now apply output_of_last_run_data.
  - (* ProcessFinished *)
    cbn [handle]. unfold process_finished.
    destruct Hinv as [[_ Hidle]|(p & data & finished & Hd & Hout & Himp)];
      [congruence|].
    destruct (Himp Hcan) as (-> & _).
    right. exists p, data, true.
    cbn [output process_running started with_process with_run_action
         with_output].
    repeat split_and; try assumption.
    + rewrite Hout. unfold run_output. cbn [app]. now rewrite app_nil_r.
    + discriminate.
Qed.

Lemma output_of_last_run_reachable fs st :
  reachable os fs st -> output_of_last_run st.
Proof.
  induction 1 as [|st e st' Hr IH Hstep].
  - left. split; reflexivity.
  - eapply output_of_last_run_step; eassumption.
Qed.

(** An event other than the run action makes the calls of [output_calls]
    on the output view, after those made before. *)
Lemma output_step st e st' :
  step os st e st' -> is_run e = false ->
  output st' = output st ++ output_calls e.
Proof.
  intros Hstep Hrun. inversion Hstep as [e' st0 Hcan]; subst e' st0 st'.
  destruct e; cbn [handle output_calls]; rewrite ?app_nil_r;
    try discriminate.
  - reflexivity.
  - apply output_new_file.
  - apply output_open_file.
  - apply output_save_file.
  - apply output_save_file_as.
  - apply output_maybe_save.
  - unfold increase_font_size. now destruct (_ <? _).
  - unfold decrease_font_size. now destruct (_ <? _).
  - reflexivity.
  - reflexivity.
  - reflexivity.
Qed.

Lemma output_trace st es st' :
  trace os st es st' -> Forall (fun e => is_run e = false) es ->
  output st' = output st ++ flat_map output_calls es.
Proof.
  induction 1 as [st|st e st1 es st2 Hstep _ IH]; intros Hall.
  - cbn [flat_map]. now rewrite app_nil_r.
  - apply Forall_cons_iff in Hall. destruct Hall as [He Hes].
    rewrite (IH Hes), (output_step st e st1 Hstep He).
    cbn [flat_map]. now rewrite app_assoc.
Qed.

(** The run action, once the file is saved, clears the view and appends
    the banner of the run; when the save fails or is cancelled, the view
    stays as it is. *)
Lemma output_run fs u start_ok st :
  reachable os fs st ->
  if fst (save_file os u st)
  then exists p,
         current_file_path (snd (save_file os u st)) = Some p
         /\ output (run_code os u start_ok st) = [RunningBanner p]
  else output (run_code os u start_ok st) = output st.
Proof.
  intros Hr. destruct (fst (save_file os u st)) eqn:Hok.
  - destruct (run_code_saved os u start_ok st
                (named_file_reachable os fs st Hr) Hok)
      as (p & Hp & _ & ->).
    exists p. split; [exact Hp|]. unfold process_start.
    destruct (process_running _); [reflexivity|].
    destruct start_ok; reflexivity.
  - rewrite (run_code_not_saved os u start_ok st Hok).
    cbn [output showMessage]. apply output_save_file.
Qed.

End OutputFacts.

(** X19: the calls that the window makes on the output view, in the
    order in which it makes them, counted from the last [clear()] (where
    the view puts what is inserted, at its text cursor, is Qt's and is
    not part of this).  In every state that the window can reach:
    - there has been no call (before the first run), or the calls are the
      banner of one run, then only [insertPlainText] and [insertHtml]
      calls, then the closing banner if the process has finished, and
      nothing else; while a process runs there is no closing banner, and
      the banner names the file that this process was started on;
    - over any events that follow, none of them the run action, the calls
      that are added are exactly these, in the order of the events:
      [insertPlainText(data)] for every chunk of standard output,
      [insertHtml] of the HTML of [handle_stderr] for every chunk of
      standard error, the closing banner when the process ends, and
      nothing for any other event;
    - the run action, when the save succeeds, clears the view and leaves
      the banner of the saved file as the only call, whether or not the
      interpreter starts; when the save fails or is cancelled, it leaves
      the view as it is. *)
Theorem output_view_gets_the_calls_of_the_last_run :
  forall (os : App.OS) (fs : string -> option (list Z)) (st : App.State),
    App.reachable os fs st ->
    ((App.output st = [] /\ App.process_running st = false)
     \/ exists p data finished,
          forallb is_data data = true
          /\ App.output st = run_output p data finished
          /\ (App.process_running st = true ->
              finished = false
              /\ exists earlier, App.started st = earlier ++ [p]))
    /\ (forall (es : list App.Event) (st' : App.State),
          trace os st es st' ->
          Forall (fun e => is_run e = false) es ->
          App.output st' = App.output st ++ flat_map output_calls es)
    /\ (forall (u : App.User) (start_ok : bool),
          if fst (App.save_file os u st)
          then exists p,
                 App.current_file_path (snd (App.save_file os u st))
                 = Some p
                 /\ App.output (App.handle os (App.Run u start_ok) st)
                    = [App.RunningBanner p]
          else App.output (App.handle os (App.Run u start_ok) st)
               = App.output st).
Proof.
  intros os fs st Hr. repeat split_and.
  - exact (output_of_last_run_reachable os fs st Hr).
  - intros es st'. apply output_trace.
  - intros u start_ok. cbn [App.handle].
    exact (output_run os fs u start_ok st Hr).
Qed.

(** A witness of X19: the calls on the output view while the saved
    program runs, and after it has written to both channels and ended. *)
Lemma output_view_gets_the_calls_of_the_last_run_witness :
  App.reachable posix no_files running_program
  /\ App.output running_program = [App.RunningBanner "prog.py"]
  /\ App.output finished_program
     = [App.RunningBanner "prog.py";
        App.InsertPlainText [49; 10];
        App.InsertHtml (of_string "<font color='#DA4453'>E</font>");
        App.FinishedBanner].
Proof.
  destruct (output_view_gets_the_calls_of_the_last_run posix no_files
              running_program running_program_reachable)
    as (_ & Htrace & _).
  split; [exact running_program_reachable|].
  split; [vm_compute; reflexivity|].
  assert (Hevents : trace posix running_program program_events
                      finished_program).
  { unfold program_events, finished_program.
    refine (trace_cons posix _ _ _ _ _
              (App.step_event posix (App.ReadyReadStdout [49; 10]) _ _) _);
      [vm_compute; reflexivity|].
    refine (trace_cons posix _ _ _ _ _
              (App.step_event posix (App.ReadyReadStderr [69]) _ _) _);
      [vm_compute; reflexivity|].
    refine (trace_cons posix _ _ _ _ _
              (App.step_event posix App.ProcessFinished _ _) _);
      [vm_compute; reflexivity|].
    apply trace_nil. }
  rewrite (Htrace program_events finished_program Hevents).
  - vm_compute. reflexivity.
  - unfold program_events. repeat constructor.
Defined.

(** ** Font sizes *)

Section FontFacts.

Import App.

Variable os : OS.
Variable fs : string -> option (list Z).

Lemma font_odd_reachable st :
  reachable os fs st -> Z.odd (editor_point_size st) = true.
Proof.
  induction 1 as [|st e st' _ IH Hstep]; [reflexivity|].
  inversion Hstep as [e' st0 Hcan]; subst e' st0 st'. clear Hstep.
  destruct e;
    try solve [
      match goal with
      | |- context [handle os ?e st] =>
          destruct (handle_fonts os e st ltac:(discriminate)
                      ltac:(discriminate)) as [H1 _]
      end; rewrite H1; exact IH].
  - cbn [handle]. unfold increase_font_size.
    destruct (_ <? _); [|exact IH].
    cbn [editor_point_size with_fonts].
    now rewrite Z.odd_add_even by (exists 1; reflexivity).
  - cbn [handle]. unfold decrease_font_size.
    destruct (_ <? _); [|exact IH].
    cbn [editor_point_size with_fonts].
    replace (editor_point_size st - 2) with (editor_point_size st + -2)
      by lia.
    now rewrite Z.odd_add_even by (exists (-1); reflexivity).
Qed.

Lemma font_up_reachable (n : nat) :
  11 + 2 * Z.of_nat n <= 73 ->
  exists st, reachable os fs st
             /\ editor_point_size st = 11 + 2 * Z.of_nat n.
Proof.
  induction n as [|n IH]; intros Hn.
  - exists (initial fs). split; [constructor | reflexivity].
  - destruct (IH ltac:(lia)) as (st & Hr & Hs).
    exists (handle os IncreaseFont st). split.
    + eapply reach_step; [exact Hr|]. now constructor.
    + cbn [handle]. unfold increase_font_size.
      destruct (Z.ltb_spec (editor_point_size st) 72); [|lia].
      cbn [editor_point_size with_fonts]. lia.
Qed.

Lemma font_down_reachable (n : nat) :
  5 <= 11 - 2 * Z.of_nat n ->
  exists st, reachable os fs st
             /\ editor_point_size st = 11 - 2 * Z.of_nat n.
Proof.
  induction n as [|n IH]; intros Hn.
  - exists (initial fs). split; [constructor | reflexivity].
  - destruct (IH ltac:(lia)) as (st & Hr & Hs).
    exists (handle os DecreaseFont st). split.
    + eapply reach_step; [exact Hr|]. now constructor.
    + cbn [handle]. unfold decrease_font_size.
      destruct (Z.ltb_spec 6 (editor_point_size st)); [|lia].
      cbn [editor_point_size with_fonts]. lia.
Qed.

End FontFacts.

(** X20: the sizes that the editor font can take are exactly the odd
    sizes from 5 to 73 points: from the 11 points of the start, the two
    font actions reach every one of them, and no event leads to any other
    size; so the limits 72 and 6 that the code compares with are never
    the size of the font. *)
Theorem editor_font_sizes_are_the_odd_sizes_from_5_to_73 :
  forall (os : App.OS) (fs : string -> option (list Z)) (s : Z),
    (exists st, App.reachable os fs st /\ App.editor_point_size st = s)
    <-> (5 <= s <= 73 /\ Z.odd s = true).
Proof.
  intros os fs s. split.
  - intros (st & Hr & <-). split.
    + exact (proj1 (fonts_reachable os fs st Hr)).
    + exact (font_odd_reachable os fs st Hr).
  - intros [Hrange Hodd].
    rewrite Z.odd_spec in Hodd. destruct Hodd as [k Hk].
    destruct (Z_le_gt_dec 11 s) as [Hup|Hdown].
    + destruct (font_up_reachable os fs (Z.to_nat (k - 5)) ltac:(lia))
        as (st & Hr & Hs).
      exists st. split; [exact Hr | lia].
    + destruct (font_down_reachable os fs (Z.to_nat (5 - k)) ltac:(lia))
        as (st & Hr & Hs).
      exists st. split; [exact Hr | lia].
Qed.

(** ** The output of the interpreter *)

Section ChunkFacts.

Import Utf8.

Lemma decode_encode_app (s : str) (bytes rest : list Z) :
  encode s = Some bytes ->
  decode (bytes ++ rest) = option_map (app s) (decode rest).
Proof.
  revert bytes. induction s as [|c s IH]; intros bytes; cbn [encode].
  - intros [= <-]. cbn [app]. now destruct (decode rest).
  - pose proof (decode_encode_char c) as Hc.
    destruct (encode_char c) as [b|]; [|discriminate].
    destruct (encode s) as [bs|]; [|discriminate].
    intros E. apply (f_equal (fun o => match o with
                                        | Some x => x | None => [] end)) in E.
    cbn beta iota in E. subst bytes.
    rewrite <- app_assoc, Hc, (IH bs eq_refl).
    now destruct (decode rest).
Qed.

(** The first byte of the encoding of a character that takes more than
    one byte announces how many follow, and the others are continuation
    bytes. *)
Lemma encode_char_bytes (c : Z) :
  match encode_char c with
  | Some [b0] => 0 <= b0 < 0x80
  | Some [b0; b1] => 0xC0 <= b0 < 0xE0 /\ is_cont b1 = true
  | Some [b0; b1; b2] =>
      0xE0 <= b0 < 0xF0 /\ is_cont b1 = true /\ is_cont b2 = true
  | Some [b0; b1; b2; b3] =>
      0xF0 <= b0 < 0xF8 /\ is_cont b1 = true /\ is_cont b2 = true
      /\ is_cont b3 = true
  | Some _ => False
  | None => True
  end.
Proof.
  unfold encode_char, is_surrogate, is_cont.
  destruct (Z.ltb_spec c 0); [exact I|].
  destruct (Z.ltb_spec c 0x80); [lia|].
  pose proof (Z.div_mod c 64 ltac:(lia)) as D1.
  pose proof (Z.mod_pos_bound c 64 ltac:(lia)) as M1.
  destruct (Z.ltb_spec c 0x800).
  { set (q := c / 64) in *. set (r := c mod 64) in *. clearbody q r.
    split; [lia|]. apply andb_true_iff.
    split; [apply Z.leb_le | apply Z.ltb_lt]; lia. }
  pose proof (Z.div_mod (c / 64) 64 ltac:(lia)) as D2.
  pose proof (Z.mod_pos_bound (c / 64) 64 ltac:(lia)) as M2.
  replace (c / 4096) with (c / 64 / 64)
    by (rewrite Z.div_div by lia; reflexivity).
  destruct (Z.ltb_spec c 0x10000).
  { destruct ((0xD800 <=? c) && (c <=? 0xDFFF)); [exact I|].
    set (q := c / 64) in *; set (r := c mod 64) in *;
      set (q2 := q / 64) in *; set (r2 := q mod 64) in *;
      clearbody q2 r2; clearbody q r.
    repeat split_and; try lia;
      (apply andb_true_iff; split; [apply Z.leb_le | apply Z.ltb_lt]; lia). }
  pose proof (Z.div_mod (c / 64 / 64) 64 ltac:(lia)) as D3.
  pose proof (Z.mod_pos_bound (c / 64 / 64) 64 ltac:(lia)) as M3.
  replace (c / 262144) with (c / 64 / 64 / 64)
    by (rewrite !Z.div_div by lia; reflexivity).
  destruct (Z.ltb_spec c 0x110000); [|exact I].
  set (q := c / 64) in *. set (r := c mod 64) in *.
  set (q2 := q / 64) in *. set (r2 := q mod 64) in *.
  set (q3 := q2 / 64) in *. set (r3 := q2 mod 64) in *.
  clearbody q3 r3. clearbody q2 r2. clearbody q r.
  repeat split_and; try lia;
    (apply andb_true_iff; split; [apply Z.leb_le | apply Z.ltb_lt]; lia).
Qed.

(** Bytes that start with a continuation byte are no UTF-8. *)
Lemma decode_continuation_first (b : Z) (rest : list Z) :
  is_cont b = true -> decode (b :: rest) = None.
Proof.
  unfold is_cont. rewrite andb_true_iff, Z.leb_le, Z.ltb_lt. intros [H1 H2].
  cbn [decode].
  destruct (Z.ltb_spec b 0x80); [lia|]. rewrite andb_false_r.
  destruct (Z.leb_spec 0xC0 b); [lia|]. cbn [andb].
  destruct (Z.leb_spec 0xE0 b); [lia|]. cbn [andb].
  destruct (Z.leb_spec 0xF0 b); [lia|]. reflexivity.
Qed.

(** The bytes of a character cut in two: neither part is UTF-8. *)
Lemma decode_cut_character (c : Z) (b1 b2 : list Z) :
  encode_char c = Some (b1 ++ b2) -> b1 <> [] -> b2 <> [] ->
  decode b1 = None /\ forall rest, decode (b2 ++ rest) = None.
Proof.
  intros He H1 H2. pose proof (encode_char_bytes c) as Hb.
  rewrite He in Hb.
  destruct b1 as [|x0 [|x1 [|x2 [|x3 b1]]]]; [contradiction| | | |];
    cbn [app] in Hb.
  - (* one byte, then the rest *)
    destruct b2 as [|y0 [|y1 [|y2 [|y3 b2]]]]; [contradiction| | | |];
      cbn [app] in Hb |- *; try contradiction.
    + destruct Hb as (Hx & Hy). split;
        [|intros rest; now apply decode_continuation_first].
      cbn [decode].
      destruct (Z.ltb_spec x0 0x80); [lia|]. rewrite andb_false_r.
      destruct (Z.leb_spec 0xC0 x0); [|lia].
      destruct (Z.ltb_spec x0 0xE0); [|lia]. reflexivity.
    + destruct Hb as (Hx & Hy & _). split;
        [|intros rest; now apply decode_continuation_first].
      cbn [decode].
      destruct (Z.ltb_spec x0 0x80); [lia|]. rewrite andb_false_r.
      destruct (Z.ltb_spec x0 0xE0); [lia|]. rewrite andb_false_r.
      destruct (Z.leb_spec 0xE0 x0); [|lia].
      destruct (Z.ltb_spec x0 0xF0); [|lia]. reflexivity.
    + destruct Hb as (Hx & Hy & _). split;
        [|intros rest; now apply decode_continuation_first].
      cbn [decode].
      destruct (Z.ltb_spec x0 0x80); [lia|]. rewrite andb_false_r.
      destruct (Z.ltb_spec x0 0xE0); [lia|]. rewrite andb_false_r.
      destruct (Z.ltb_spec x0 0xF0); [lia|]. rewrite andb_false_r.
      destruct (Z.leb_spec 0xF0 x0); [|lia].
      destruct (Z.ltb_spec x0 0xF8); [|lia]. reflexivity.
  - (* two bytes, then the rest *)
    destruct b2 as [|y0 [|y1 [|y2 b2]]]; [contradiction| | |];
      cbn [app] in Hb |- *; try contradiction.
    + destruct Hb as (Hx & _ & Hy). split;
        [|intros rest; now apply decode_continuation_first].
      cbn [decode].
      destruct (Z.ltb_spec x0 0x80); [lia|]. rewrite andb_false_r.
      destruct (Z.ltb_spec x0 0xE0); [lia|]. rewrite andb_false_r.
      destruct (Z.leb_spec 0xE0 x0); [|lia].
      destruct (Z.ltb_spec x0 0xF0); [|lia]. reflexivity.
    + destruct Hb as (Hx & _ & Hy & _). split;
        [|intros rest; now apply decode_continuation_first].
      cbn [decode].
      destruct (Z.ltb_spec x0 0x80); [lia|]. rewrite andb_false_r.
      destruct (Z.ltb_spec x0 0xE0); [lia|]. rewrite andb_false_r.
      destruct (Z.ltb_spec x0 0xF0); [lia|]. rewrite andb_false_r.
      destruct (Z.leb_spec 0xF0 x0); [|lia].
      destruct (Z.ltb_spec x0 0xF8); [|lia]. reflexivity.
  - (* three bytes, then the last *)
    destruct b2 as [|y0 [|y1 b2]]; [contradiction| |];
      cbn [app] in Hb |- *; try contradiction.
    destruct Hb as (Hx & _ & _ & Hy). split;
      [|intros rest; now apply decode_continuation_first].
    cbn [decode].
    destruct (Z.ltb_spec x0 0x80); [lia|]. rewrite andb_false_r.
    destruct (Z.ltb_spec x0 0xE0); [lia|]. rewrite andb_false_r.
    destruct (Z.ltb_spec x0 0xF0); [lia|]. rewrite andb_false_r.
    destruct (Z.leb_spec 0xF0 x0); [|lia].
    destruct (Z.ltb_spec x0 0xF8); [|lia]. reflexivity.
  - (* four bytes or more before the cut: no character is that long *)
    destruct b1, b2; try contradiction; cbn [app] in Hb; contradiction.
Qed.

End ChunkFacts.

(** X21: [handle_stdout] and [handle_stderr] decode each chunk of bytes
    on its own.  For a chunk that holds whole characters, the slot makes
    one call on the output view and changes nothing else:
    [handle_stdout] calls [insertPlainText] with the text that the
    process wrote; [handle_stderr] calls [insertHtml] with that text
    between [<font color='#DA4453'>] and [</font>], every line feed
    replaced by [<br>] and nothing escaped, so that the view reads a
    [<] of the text as HTML.  But when the bytes of a character that
    takes more than one byte arrive in two chunks, [decode] raises on the
    first chunk whatever stands before the cut, and on the second
    whatever follows it: neither slot makes a call, although the bytes
    of the two chunks together are valid UTF-8. *)
Theorem output_chunks_are_decoded_one_by_one :
  forall (s : str) (bytes : list Z) (st : App.State),
    Utf8.encode s = Some bytes ->
    ProcessOutput.handle_stdout bytes st
    = Some (App.with_output (App.output st ++ [App.InsertPlainText s]) st)
    /\ ProcessOutput.handle_stderr bytes st
       = Some (App.with_output
                 (App.output st
                  ++ [App.InsertHtml
                        (of_string "<font color='#DA4453'>"
                         ++ flat_map (fun c => if c =? 10
                                               then of_string "<br>"
                                               else [c]) s
                         ++ of_string "</font>")]) st)
    /\ App.stderr_html (of_string "a<b")
       = of_string "<font color='#DA4453'>a<b</font>"
    /\ App.stderr_html [120; 10; 121]
       = of_string "<font color='#DA4453'>x<br>y</font>"
    /\ forall (c : Z) (b1 b2 rest : list Z),
         Utf8.encode_char c = Some (b1 ++ b2) -> b1 <> [] -> b2 <> [] ->
         ProcessOutput.handle_stdout (bytes ++ b1) st = None
         /\ ProcessOutput.handle_stdout (b2 ++ rest) st = None
         /\ ProcessOutput.handle_stderr (bytes ++ b1) st = None
         /\ ProcessOutput.handle_stderr (b2 ++ rest) st = None
         /\ (forall t more, Utf8.encode t = Some more ->
               Utf8.decode ((bytes ++ b1) ++ (b2 ++ more))
               = Some (s ++ c :: t)).
Proof.
  intros s bytes st He.
  unfold ProcessOutput.handle_stdout, ProcessOutput.handle_stderr.
  rewrite (decode_encode s bytes He).
  repeat split_and; try reflexivity.
  intros c b1 b2 rest Hc H1 H2.
  destruct (decode_cut_character c b1 b2 Hc H1 H2) as [Hfirst Hsecond].
  rewrite (decode_encode_app s bytes b1 He), Hfirst, (Hsecond rest).
  cbn [option_map]. repeat split_and; try reflexivity.
  intros t more Ht.
  rewrite <- app_assoc, (decode_encode_app s bytes _ He).
  rewrite app_assoc.
  pose proof (decode_encode_char c more) as Hchar. rewrite Hc in Hchar.
  rewrite Hchar, (decode_encode t more Ht). reflexivity.
Qed.

(** A witness of X21: the letter n arrives whole on both channels; the
    two bytes of the letter e with an acute accent arrive in two
    chunks. *)
Lemma output_chunks_are_decoded_one_by_one_witness :
  Utf8.encode [110] = Some [110]
  /\ Utf8.encode_char 233 = Some ([195] ++ [169])
  /\ option_map App.output
       (ProcessOutput.handle_stdout [110] (App.initial no_files))
     = Some [App.InsertPlainText [110]]
  /\ option_map App.output
       (ProcessOutput.handle_stderr [110] (App.initial no_files))
     = Some [App.InsertHtml (of_string "<font color='#DA4453'>n</font>")]
  /\ ProcessOutput.handle_stdout first_chunk (App.initial no_files) = None
  /\ ProcessOutput.handle_stdout second_chunk (App.initial no_files) = None
  /\ Utf8.decode (first_chunk ++ second_chunk) = Some [110; 233].
Proof.
  assert (He : Utf8.encode [110] = Some [110]) by reflexivity.
  assert (Hc : Utf8.encode_char 233 = Some ([195] ++ [169])) by reflexivity.
  destruct (output_chunks_are_decoded_one_by_one [110] [110]
              (App.initial no_files) He) as (Hout & Herr & _ & _ & Hcut).
  destruct (Hcut 233 [195] [169] [] Hc ltac:(discriminate)
              ltac:(discriminate)) as (H1 & H2 & _ & _ & H5).
  split; [exact He|]. split; [exact Hc|].
  split; [rewrite Hout; reflexivity|].
  split; [rewrite Herr; reflexivity|].
  split; [exact H1|]. split; [exact H2|].
  exact (H5 [] [] eq_refl).
Defined.

(** ** A new document *)

Section NewFileFacts.

Import App.

Variable os : OS.

(** When [maybe_save] returns [False], the document is as it was. *)
Lemma maybe_save_refused u st :
  fst (maybe_save os u st) = false ->
  document (snd (maybe_save os u st)) = document st
  /\ status (snd (maybe_save os u st)) = status st
  /\ document_modified st = true
  /\ warning_answer u <> Discard.
Proof.
  unfold maybe_save.
  destruct (document_modified st) eqn:Hmod; cbn [negb fst snd];
    [|discriminate].
  destruct (warning_answer u); cbn [fst snd]; try discriminate.
  - intros Hok.
    destruct (save_file_outcome os u (show SaveDiscardCancel st))
      as [_ Hfail]. cbn zeta in Hfail.
    destruct (Hfail Hok) as (Hdoc & Hstatus & _).
    repeat split_and; try assumption; try reflexivity; discriminate.
  - intros _. repeat split_and; try reflexivity. discriminate.
Qed.

End NewFileFacts.

(** X22: [new_file] gives a fresh document or leaves the document alone.
    When [maybe_save] agrees (nothing to save, the changes discarded, or
    the text saved), the editor is empty, the document has no file, both
    modified marks are off and the status bar shows [Untitled.py].  When
    it does not (the question cancelled, the save dialog cancelled, or
    the file not written), the text, the file of the document, the
    modified marks and the status bar are as before; this only happens
    to a modified document. *)
Theorem new_file_gives_a_fresh_document_or_nothing :
  forall (os : App.OS) (u : App.User) (st : App.State),
    let st' := App.new_file os u st in
    (fst (App.maybe_save os u st) = true
     /\ document st' = ([], None, false, false)
     /\ App.status st' = App.FileShown "Untitled.py")
    \/ (fst (App.maybe_save os u st) = false
        /\ document st' = document st
        /\ App.status st' = App.status st
        /\ App.document_modified st = true).
Proof.
  intros os u st. cbn zeta.
  pose proof (maybe_save_refused os u st) as Hrefused.
  unfold App.new_file.
  destruct (App.maybe_save os u st) as [ok st1]. cbn [fst snd] in *.
  destruct ok.
  - left. repeat split_and; reflexivity.
  - right. destruct (Hrefused eq_refl) as (H1 & H2 & H3 & _).
    repeat split_and; try assumption; reflexivity.
Qed.
